(** * UserSettings: the settings store of n8n-core

    A shallow embedding of [packages/core/src/UserSettings.ts] and the
    properties of its settings life cycle.

    The module runs on a JavaScript runtime.  The parts of that runtime the
    module touches are modelled first, each as the module sees it:

    - [path]: the POSIX flavour of Node's [path.join] and [path.dirname],
      behind an interface, since the module only calls the two functions;
    - [JSON] text: a printer following [JSON.stringify], with and without
      indentation, and a parser following [JSON.parse];
    - the object heap, because documents are shared mutable objects;
    - [fs] (files and directories indexed by path, and a log of the calls
      made), [crypto] ([randomBytes], base64) and [console].

    The module's own functions come after, one definition per exported
    function, in a state-and-exception monad over the world.

    Limits of the model.  Numbers are integers and strings are sequences of
    8-bit characters; the parser rejects a [\uXXXX] escape above 255 and a
    number with a fraction or an exponent.  Objects carry their own
    properties only: no prototype chain, no accessor, no property
    attribute; keys keep their insertion order (JavaScript lists the keys
    that are array indices first, the model does not).  A path names a
    node of the disk as it is spelled.  There is one thread of control: an
    awaited promise runs to completion before the next statement. *)

From Stdlib Require Import ZArith Ascii String Lia.
From Stdlib Require Import DecimalFacts DecimalPos.
From stdpp Require Import base option list gmap strings.

Local Open Scope stdpp_scope.

(** ** The constants imported from the package index

    [UserSettings.ts] imports five string constants from ['.'].  Their values
    are declared elsewhere in the package, so the definitions below take
    them as parameters. *)

Class Index := {
  ENCRYPTION_KEY_ENV_OVERWRITE : string;
  EXTENSIONS_SUBDIRECTORY : string;
  USER_FOLDER_ENV_OVERWRITE : string;
  USER_SETTINGS_FILE_NAME : string;
  USER_SETTINGS_SUBFOLDER : string;
}.

(** ** Node's [path] module, POSIX flavour *)

Module PosixPath.

Definition slash : ascii := "/"%char.

Definition is_slash (c : ascii) : bool := Ascii.eqb c slash.

(** The segments of a path: the pieces between separators. *)
Fixpoint split_acc (cur : list ascii) (cs : list ascii) : list (list ascii) :=
  match cs with
  | [] => [rev cur]
  | c :: cs' =>
      if is_slash c then rev cur :: split_acc [] cs'
      else split_acc (c :: cur) cs'
  end.

Definition segments (p : string) : list (list ascii) :=
  split_acc [] (list_ascii_of_string p).

Definition dot : list ascii := ["."%char].
Definition dotdot : list ascii := ["."%char; "."%char].

Definition seg_eqb (a b : list ascii) : bool :=
  bool_decide (a = b).

(** [normalizeString]: the result is kept as a stack of segments, last
    segment first. *)
Definition push_segment (allowAboveRoot : bool)
    (res : list (list ascii)) (seg : list ascii) : list (list ascii) :=
  if seg_eqb seg [] || seg_eqb seg dot then res
  else if seg_eqb seg dotdot then
    match res with
    | top :: below =>
        if seg_eqb top dotdot
        then (if allowAboveRoot then dotdot :: res else res)
        else below
    | [] => if allowAboveRoot then [dotdot] else []
    end
  else seg :: res.

Fixpoint join_segments (segs : list (list ascii)) : list ascii :=
  match segs with
  | [] => []
  | [s] => s
  | s :: rest => s ++ slash :: join_segments rest
  end.

Definition normalizeString (p : string) (allowAboveRoot : bool) : list ascii :=
  join_segments (rev (fold_left (push_segment allowAboveRoot) (segments p) [])).

Definition last_is_slash (p : string) : bool :=
  match rev (list_ascii_of_string p) with
  | c :: _ => is_slash c
  | [] => false
  end.

Definition normalize (p : string) : string :=
  match p with
  | EmptyString => "."
  | String c0 _ =>
      let isAbsolute := is_slash c0 in
      let trailingSeparator := last_is_slash p in
      let res := normalizeString p (negb isAbsolute) in
      match res with
      | [] =>
          if isAbsolute then "/"
          else if trailingSeparator then "./" else "."
      | _ =>
          let res' := if trailingSeparator then res ++ [slash] else res in
          string_of_list_ascii (if isAbsolute then slash :: res' else res')
      end
  end.

(** [path.join(a, b)]: the non-empty arguments, joined by a separator and
    normalised. *)
Definition join (a b : string) : string :=
  match a, b with
  | EmptyString, EmptyString => "."
  | EmptyString, _ => normalize b
  | _, EmptyString => normalize a
  | _, _ => normalize (a +:+ "/" +:+ b)
  end.

Fixpoint drop_while (f : ascii -> bool) (cs : list ascii) : list ascii :=
  match cs with
  | c :: cs' => if f c then drop_while f cs' else cs
  | [] => []
  end.

(** [path.dirname]: the scan runs from the last character down to index 1;
    it skips the trailing separators, then the last segment, and cuts at
    the separator before it. *)
Definition dirname (p : string) : string :=
  match p with
  | EmptyString => "."
  | String c0 tl =>
      let hasRoot := is_slash c0 in
      let scan := drop_while (fun c => negb (is_slash c))
                    (drop_while is_slash (rev (list_ascii_of_string tl))) in
      match scan with
      | [] => if hasRoot then "/" else "."
      | _ :: before =>
          match before with
          | [] => if hasRoot then "//" else String c0 EmptyString
          | _ => String c0 (string_of_list_ascii (rev before))
          end
      end
  end.

End PosixPath.

(** The module is written against [path.join] and [path.dirname]; which
    implementation [path] resolves to depends on the platform. *)
Class PathApi := {
  path_join : string -> string -> string;
  path_dirname : string -> string;
}.

Definition posix : PathApi :=
  {| path_join := PosixPath.join; path_dirname := PosixPath.dirname |}.

(** ** [process]: environment, platform, working directory *)

Record Process := {
  env : gmap string string;
  platform : string;
  cwd : string;
}.

(** ** JSON documents *)

Set Warnings "-register-all".
Inductive json :=
  | JNull
  | JBool (b : bool)
  | JNum (n : Z)
  | JStr (s : string)
  | JArr (items : list json)
  | JObj (members : list (string * json)).

(** Objects as ordered lists of properties: [obj_set] overwrites a property
    in place or adds it at the end, [obj_get] reads it. *)
Fixpoint obj_set {V} (k : string) (v : V) (ps : list (string * V))
    : list (string * V) :=
  match ps with
  | [] => [(k, v)]
  | (k', v') :: ps' =>
      if decide (k = k') then (k, v) :: ps' else (k', v') :: obj_set k v ps'
  end.

Fixpoint obj_get {V} (k : string) (ps : list (string * V)) : option V :=
  match ps with
  | [] => None
  | (k', v') :: ps' => if decide (k = k') then Some v' else obj_get k ps'
  end.

(** The properties of [source] assigned onto [target], one after the
    other. *)
Definition obj_assign {V} (target source : list (string * V))
    : list (string * V) :=
  fold_left (fun acc kv => obj_set kv.1 kv.2 acc) source target.

Definition obj_of_entries {V} (ms : list (string * V)) : list (string * V) :=
  obj_assign [] ms.

Module JSON.

Definition quote_char : ascii := "034"%char.
Definition backslash : ascii := "092"%char.
Definition nl : ascii := "010"%char.
Definition tab : ascii := "009"%char.

(** *** Printing *)

Fixpoint print_uint (d : Decimal.uint) (k : string) : string :=
  match d with
  | Decimal.Nil => k
  | Decimal.D0 d' => String "0" (print_uint d' k)
  | Decimal.D1 d' => String "1" (print_uint d' k)
  | Decimal.D2 d' => String "2" (print_uint d' k)
  | Decimal.D3 d' => String "3" (print_uint d' k)
  | Decimal.D4 d' => String "4" (print_uint d' k)
  | Decimal.D5 d' => String "5" (print_uint d' k)
  | Decimal.D6 d' => String "6" (print_uint d' k)
  | Decimal.D7 d' => String "7" (print_uint d' k)
  | Decimal.D8 d' => String "8" (print_uint d' k)
  | Decimal.D9 d' => String "9" (print_uint d' k)
  end.

Definition print_int (n : Z) (k : string) : string :=
  match n with
  | Z0 => String "0" k
  | Zpos p => print_uint (Pos.to_uint p) k
  | Zneg p => String "-" (print_uint (Pos.to_uint p) k)
  end.

Definition hex_digit (n : N) : ascii :=
  match n with
  | 0 => "0" | 1 => "1" | 2 => "2" | 3 => "3" | 4 => "4" | 5 => "5"
  | 6 => "6" | 7 => "7" | 8 => "8" | 9 => "9" | 10 => "a" | 11 => "b"
  | 12 => "c" | 13 => "d" | 14 => "e" | _ => "f"
  end%N%char.

(** [QuoteJSONString]: the two-character escapes, [\u00XX] for the other
    control characters, every other character as it is. *)
Definition escape_char (c : ascii) (k : string) : string :=
  let n := N_of_ascii c in
  if decide (c = quote_char) then String backslash (String quote_char k)
  else if decide (c = backslash) then String backslash (String backslash k)
  else if decide (n = 8%N) then String backslash (String "b" k)
  else if decide (n = 12%N) then String backslash (String "f" k)
  else if decide (n = 10%N) then String backslash (String "n" k)
  else if decide (n = 13%N) then String backslash (String "r" k)
  else if decide (n = 9%N) then String backslash (String "t" k)
  else if (n <? 32)%N then
    String backslash (String "u" (String "0" (String "0"
      (String (hex_digit (n / 16)) (String (hex_digit (n mod 16)) k)))))
  else String c k.

Fixpoint escape (s : string) (k : string) : string :=
  match s with
  | EmptyString => k
  | String c s' => escape_char c (escape s' k)
  end.

Definition quote (s : string) (k : string) : string :=
  String quote_char (escape s (String quote_char k)).

(** The characters of [p], then [k]. *)
Fixpoint emit (p : string) (k : string) : string :=
  match p with
  | EmptyString => k
  | String c p' => String c (emit p' k)
  end.

Fixpoint tabs (n : nat) (k : string) : string :=
  match n with
  | O => k
  | S n' => String tab (tabs n' k)
  end.

(** [gap] tells whether the text is indented:
    [JSON.stringify(v, null, '\t')] puts every element on a line of its
    own, one tab per level, and a space after a colon;
    [JSON.stringify(v)] puts no white space at all. *)
Definition newline (gap : bool) (ind : nat) (k : string) : string :=
  if gap then String nl (tabs ind k) else k.

Definition colon (gap : bool) (k : string) : string :=
  String ":" (if gap then String " " k else k).

Section containers.
Variable gap : bool.
Variable pr : json -> string -> string.

(** What follows the first element of an array: the other elements,
    each after a comma, then the closing bracket one level up. *)
Fixpoint print_items (ind : nat) (k : string) (l : list json) : string :=
  match l with
  | [] => newline gap ind (String "]" k)
  | y :: l' =>
      String "," (newline gap (S ind) (pr y (print_items ind k l')))
  end.

Fixpoint print_members (ind : nat) (k : string)
    (l : list (string * json)) : string :=
  match l with
  | [] => newline gap ind (String "}" k)
  | m :: l' =>
      String "," (newline gap (S ind) (quote m.1 (colon gap
        (pr m.2 (print_members ind k l')))))
  end.
End containers.

(** [print gap ind v k]: the text of [v] at nesting level [ind], followed
    by [k]. *)
Fixpoint print (gap : bool) (ind : nat) (v : json) (k : string) : string :=
  match v with
  | JNull => emit "null" k
  | JBool true => emit "true" k
  | JBool false => emit "false" k
  | JNum n => print_int n k
  | JStr s => quote s k
  | JArr [] => emit "[]" k
  | JArr (x :: xs) =>
      String "[" (newline gap (S ind)
        (print gap (S ind) x
           (print_items gap (print gap (S ind)) ind k xs)))
  | JObj [] => emit "{}" k
  | JObj (m :: ms) =>
      String "{" (newline gap (S ind) (quote m.1 (colon gap
        (print gap (S ind) m.2
           (print_members gap (print gap (S ind)) ind k ms)))))
  end.

(** [stringify true v] is [JSON.stringify(v, null, '\t')] and
    [stringify false v] is [JSON.stringify(v)], on a JSON tree. *)
Definition stringify (gap : bool) (v : json) : string := print gap 0 v "".

(** *** Parsing *)

Definition is_ws (c : ascii) : bool :=
  let n := N_of_ascii c in
  (n =? 32)%N || (n =? 9)%N || (n =? 10)%N || (n =? 13)%N.

Fixpoint skip_ws (s : string) : string :=
  match s with
  | String c r => if is_ws c then skip_ws r else s
  | EmptyString => EmptyString
  end.

Fixpoint strip_prefix (p s : string) : option string :=
  match p with
  | EmptyString => Some s
  | String c p' =>
      match s with
      | String c' s' => if Ascii.eqb c c' then strip_prefix p' s' else None
      | EmptyString => None
      end
  end.

Definition digit_of (c : ascii) : option (Decimal.uint -> Decimal.uint) :=
  match N_of_ascii c with
  | 48 => Some Decimal.D0 | 49 => Some Decimal.D1 | 50 => Some Decimal.D2
  | 51 => Some Decimal.D3 | 52 => Some Decimal.D4 | 53 => Some Decimal.D5
  | 54 => Some Decimal.D6 | 55 => Some Decimal.D7 | 56 => Some Decimal.D8
  | 57 => Some Decimal.D9 | _ => None
  end%N.

Fixpoint read_digits (s : string) : Decimal.uint * string :=
  match s with
  | String c r =>
      match digit_of c with
      | Some mk => let '(d, r') := read_digits r in (mk d, r')
      | None => (Decimal.Nil, s)
      end
  | EmptyString => (Decimal.Nil, EmptyString)
  end.

(** The integer part of a JSON number: at least one digit, no leading
    zero. *)
Definition parse_nat (s : string) : option (N * string) :=
  match read_digits s with
  | (Decimal.Nil, _) => None
  | (Decimal.D0 Decimal.Nil, r) => Some (0%N, r)
  | (Decimal.D0 _, _) => None
  | (d, r) => Some (N.of_uint d, r)
  end.

Definition hex_value (c : ascii) : option N :=
  let n := N_of_ascii c in
  if (48 <=? n)%N && (n <=? 57)%N then Some (n - 48)%N
  else if (97 <=? n)%N && (n <=? 102)%N then Some (n - 87)%N
  else if (65 <=? n)%N && (n <=? 70)%N then Some (n - 55)%N
  else None.

(** The code unit of a [\uXXXX] escape; only the 8-bit ones have a
    character in this model. *)
Definition unicode_escape (h1 h2 h3 h4 : ascii) : option ascii :=
  match hex_value h1, hex_value h2, hex_value h3, hex_value h4 with
  | Some a, Some b, Some c, Some d =>
      if decide (a = 0%N ∧ b = 0%N) then Some (ascii_of_N (c * 16 + d))
      else None
  | _, _, _, _ => None
  end.

Definition simple_escape (e : ascii) : option ascii :=
  if decide (e = quote_char) then Some quote_char
  else if decide (e = backslash) then Some backslash
  else if decide (e = "/"%char) then Some "/"%char
  else if decide (e = "b"%char) then Some "008"%char
  else if decide (e = "f"%char) then Some "012"%char
  else if decide (e = "n"%char) then Some "010"%char
  else if decide (e = "r"%char) then Some "013"%char
  else if decide (e = "t"%char) then Some "009"%char
  else None.

(** The characters of a string literal, after its opening quote. *)
Fixpoint parse_chars (s : string) : option (string * string) :=
  match s with
  | EmptyString => None
  | String c r =>
      if decide (c = quote_char) then Some (EmptyString, r)
      else if decide (c = backslash) then
        match r with
        | String e r' =>
            match simple_escape e with
            | Some c' =>
                match parse_chars r' with
                | Some (t, r'') => Some (String c' t, r'')
                | None => None
                end
            | None =>
                if decide (e = "u"%char) then
                  match r' with
                  | String h1 (String h2 (String h3 (String h4 r''))) =>
                      match unicode_escape h1 h2 h3 h4 with
                      | Some c' =>
                          match parse_chars r'' with
                          | Some (t, r3) => Some (String c' t, r3)
                          | None => None
                          end
                      | None => None
                      end
                  | _ => None
                  end
                else None
            end
        | EmptyString => None
        end
      else if (N_of_ascii c <? 32)%N then None
      else
        match parse_chars r with
        | Some (t, r') => Some (String c t, r')
        | None => None
        end
  end.

Section loops.
Variable pv : string -> option (json * string).

(** The elements of a non-empty array, up to the closing bracket. *)
Fixpoint parse_elements (n : nat) (s : string) : option (list json * string) :=
  match n with
  | O => None
  | S n' =>
      match pv s with
      | None => None
      | Some (v, r) =>
          match skip_ws r with
          | String c r' =>
              if decide (c = ","%char) then
                match parse_elements n' r' with
                | Some (vs, r'') => Some (v :: vs, r'')
                | None => None
                end
              else if decide (c = "]"%char) then Some ([v], r')
              else None
          | EmptyString => None
          end
      end
  end.

(** The members of a non-empty object, up to the closing brace. *)
Fixpoint parse_members (n : nat) (s : string)
    : option (list (string * json) * string) :=
  match n with
  | O => None
  | S n' =>
      match skip_ws s with
      | String q r =>
          if decide (q = quote_char) then
            match parse_chars r with
            | None => None
            | Some (key, r1) =>
                match skip_ws r1 with
                | String c r2 =>
                    if decide (c = ":"%char) then
                      match pv r2 with
                      | None => None
                      | Some (v, r3) =>
                          match skip_ws r3 with
                          | String c' r4 =>
                              if decide (c' = ","%char) then
                                match parse_members n' r4 with
                                | Some (ms, r5) => Some ((key, v) :: ms, r5)
                                | None => None
                                end
                              else if decide (c' = "}"%char)
                              then Some ([(key, v)], r4)
                              else None
                          | EmptyString => None
                          end
                      end
                    else None
                | EmptyString => None
                end
            end
          else None
      | EmptyString => None
      end
  end.
End loops.

(** One JSON value at the head of [s]; [fuel] bounds the nesting depth
    and the number of elements of a container. *)
Fixpoint parse_value (fuel : nat) (s : string) : option (json * string) :=
  match fuel with
  | O => None
  | S fuel' =>
      match skip_ws s with
      | EmptyString => None
      | String c r =>
          if decide (c = quote_char) then
            match parse_chars r with
            | Some (t, r') => Some (JStr t, r')
            | None => None
            end
          else if decide (c = "["%char) then
            match skip_ws r with
            | String c' r' =>
                if decide (c' = "]"%char) then Some (JArr [], r')
                else
                  match parse_elements (parse_value fuel') fuel'
                          (String c' r') with
                  | Some (vs, r'') => Some (JArr vs, r'')
                  | None => None
                  end
            | EmptyString => None
            end
          else if decide (c = "{"%char) then
            match skip_ws r with
            | String c' r' =>
                if decide (c' = "}"%char) then Some (JObj [], r')
                else
                  match parse_members (parse_value fuel') fuel'
                          (String c' r') with
                  | Some (ms, r'') => Some (JObj ms, r'')
                  | None => None
                  end
            | EmptyString => None
            end
          else if decide (c = "n"%char) then
            match strip_prefix "ull" r with
            | Some r' => Some (JNull, r')
            | None => None
            end
          else if decide (c = "t"%char) then
            match strip_prefix "rue" r with
            | Some r' => Some (JBool true, r')
            | None => None
            end
          else if decide (c = "f"%char) then
            match strip_prefix "alse" r with
            | Some r' => Some (JBool false, r')
            | None => None
            end
          else if decide (c = "-"%char) then
            match parse_nat r with
            | Some (n, r') => Some (JNum (- Z.of_N n), r')
            | None => None
            end
          else
            match parse_nat (String c r) with
            | Some (n, r') => Some (JNum (Z.of_N n), r')
            | None => None
            end
      end
  end.

(** [JSON.parse]: one value, then nothing but white space. *)
Definition parse (s : string) : option json :=
  match parse_value (S (String.length s)) s with
  | Some (v, r) =>
      match skip_ws r with
      | EmptyString => Some v
      | _ => None
      end
  | None => None
  end.

End JSON.



(** ** The object heap

    A settings document is a JavaScript object: callers hold references to
    it, [Object.assign] and property assignment update it in place, and the
    cache holds a reference too.  Objects and arrays live in a heap of
    cells; a value is a primitive or a reference, the index of a cell of
    the heap. *)

Inductive value :=
  | VNull
  | VBool (b : bool)
  | VNum (n : Z)
  | VStr (s : string)
  | VRef (l : nat).

Inductive cell :=
  | CObj (props : list (string * value))
  | CArr (elems : list value) (props : list (string * value)).

(** The named properties of a cell; an array may carry some next to its
    elements. *)
Definition cell_props (c : cell) : list (string * value) :=
  match c with
  | CObj props => props
  | CArr _ props => props
  end.

Definition cell_with_props (c : cell) (props : list (string * value)) : cell :=
  match c with
  | CObj _ => CObj props
  | CArr elems _ => CArr elems props
  end.

(** The JSON tree a value stands for.  Every reference followed costs one
    unit of [fuel], so a cyclic structure has no tree. *)
Fixpoint reify (fuel : nat) (h : list cell) (v : value) : option json :=
  match v with
  | VNull => Some JNull
  | VBool b => Some (JBool b)
  | VNum n => Some (JNum n)
  | VStr s => Some (JStr s)
  | VRef l =>
      match fuel with
      | O => None
      | S fuel' =>
          match h !! l with
          | Some (CObj props) =>
              JObj <$> mapM (fun p => pair p.1 <$> reify fuel' h p.2) props
          | Some (CArr elems _) => JArr <$> mapM (reify fuel' h) elems
          | None => None
          end
      end
  end.

(** A chain of references through distinct cells is no longer than the heap,
    so this fuel reaches every acyclic structure ([reify_in_complete]
    below). *)
Definition reify_in (h : list cell) (v : value) : option json :=
  reify (S (length h)) h v.

Section alloc_containers.
Variable al : json -> list cell -> value * list cell.

Fixpoint alloc_items (xs : list json) (h : list cell)
    : list value * list cell :=
  match xs with
  | [] => ([], h)
  | x :: xs' =>
      let '(v, h1) := al x h in
      let '(vs, h2) := alloc_items xs' h1 in
      (v :: vs, h2)
  end.

Fixpoint alloc_members (ms : list (string * json)) (h : list cell)
    : list (string * value) * list cell :=
  match ms with
  | [] => ([], h)
  | m :: ms' =>
      let '(v, h1) := al m.2 h in
      let '(ps, h2) := alloc_members ms' h1 in
      ((m.1, v) :: ps, h2)
  end.
End alloc_containers.

(** Fresh cells for a JSON tree.  An object is built member by member, so a
    repeated key keeps its first position and its last value. *)
Fixpoint alloc (t : json) (h : list cell) : value * list cell :=
  match t with
  | JNull => (VNull, h)
  | JBool b => (VBool b, h)
  | JNum n => (VNum n, h)
  | JStr s => (VStr s, h)
  | JArr xs =>
      let '(vs, h') := alloc_items alloc xs h in
      (VRef (length h'), h' ++ [CArr vs []])
  | JObj ms =>
      let '(ps, h') := alloc_members alloc ms h in
      (VRef (length h'), h' ++ [CObj (obj_of_entries ps)])
  end.

(** ** The world the module runs in *)

Inductive node :=
  | File (content : string)
  | Dir.

Inductive fs_call :=
  | FsAccess (p : string)
  | FsReadFile (p : string)
  | FsMkdir (p : string)
  | FsWriteFile (p : string) (data : string).

(** [settingsCache] is the module-level variable of [UserSettings.ts];
    [disk] maps a path to what is stored there; [fs_log] lists the calls made
    to [fs], oldest first; [entropy] is the stream [randomBytes] draws from,
    [entropy_pos] how much of it was drawn; [console] collects what was
    logged. *)
Record World := {
  heap : list cell;
  settingsCache : option value;
  disk : gmap string node;
  fs_log : list fs_call;
  process : Process;
  entropy : nat -> ascii;
  entropy_pos : nat;
  console : list string;
}.

Definition with_heap (h : list cell) (w : World) : World :=
  {| heap := h; settingsCache := settingsCache w; disk := disk w;
     fs_log := fs_log w; process := process w; entropy := entropy w;
     entropy_pos := entropy_pos w; console := console w |}.

Definition with_settingsCache (c : option value) (w : World) : World :=
  {| heap := heap w; settingsCache := c; disk := disk w;
     fs_log := fs_log w; process := process w; entropy := entropy w;
     entropy_pos := entropy_pos w; console := console w |}.

Definition with_disk (d : gmap string node) (w : World) : World :=
  {| heap := heap w; settingsCache := settingsCache w; disk := d;
     fs_log := fs_log w; process := process w; entropy := entropy w;
     entropy_pos := entropy_pos w; console := console w |}.

Definition with_fs_log (l : list fs_call) (w : World) : World :=
  {| heap := heap w; settingsCache := settingsCache w; disk := disk w;
     fs_log := l; process := process w; entropy := entropy w;
     entropy_pos := entropy_pos w; console := console w |}.

Definition with_entropy_pos (n : nat) (w : World) : World :=
  {| heap := heap w; settingsCache := settingsCache w; disk := disk w;
     fs_log := fs_log w; process := process w; entropy := entropy w;
     entropy_pos := n; console := console w |}.

Definition with_console (l : list string) (w : World) : World :=
  {| heap := heap w; settingsCache := settingsCache w; disk := disk w;
     fs_log := fs_log w; process := process w; entropy := entropy w;
     entropy_pos := entropy_pos w; console := l |}.

(** What a JavaScript computation can throw.  [OutOfModel] marks the few
    runtime behaviours this model does not follow (assigning properties onto
    an array or a string with [Object.assign], a dangling reference). *)
Inductive exn :=
  | TypeError (msg : string)
  | SyntaxError (msg : string)
  | Error (msg : string)
  | SystemError (code : string) (syscall : string) (p : string)
  | OutOfModel.

Inductive outcome (A : Type) :=
  | Returned (a : A)
  | Thrown (e : exn).
Arguments Returned {A} a.
Arguments Thrown {A} e.

(** A computation: it runs in a world, returns or throws, and leaves a
    world behind.  An awaited promise is run to completion in place. *)
Definition M (A : Type) : Type := World -> outcome A * World.

Definition ret {A} (a : A) : M A := fun w => (Returned a, w).

Definition throw {A} (e : exn) : M A := fun w => (Thrown e, w).

Definition bind {A B} (m : M A) (k : A -> M B) : M B :=
  fun w =>
    match m w with
    | (Returned a, w') => k a w'
    | (Thrown e, w') => (Thrown e, w')
    end.

Definition try_catch {A} (m : M A) (handler : exn -> M A) : M A :=
  fun w =>
    match m w with
    | (Returned a, w') => (Returned a, w')
    | (Thrown e, w') => handler e w'
    end.

Definition read {A} (f : World -> A) : M A := fun w => (Returned (f w), w).

Definition update (f : World -> World) : M unit := fun w => (Returned tt, f w).

Notation "'let*' x ':=' m 'in' k" := (bind m (fun x => k))
  (at level 10, x pattern, m at level 100, k at level 200, only parsing).

(** [x !== undefined] *)
Definition defined {A} (x : option A) : bool :=
  match x with
  | Some _ => true
  | None => false
  end.

(** *** Objects *)

Definition new_object : M value :=
  fun w => (Returned (VRef (length (heap w))),
            with_heap (heap w ++ [CObj []]) w).

(** [v.k], read.  A primitive has no property of its own; reading a
    property of [null] throws. *)
Definition get_property (v : value) (k : string) : M (option value) :=
  match v with
  | VNull =>
      throw (TypeError ("Cannot read property '" +:+ k +:+ "' of null"))
  | VBool _ | VNum _ | VStr _ => ret None
  | VRef l =>
      let* h := read heap in
      match h !! l with
      | Some c => ret (obj_get k (cell_props c))
      | None => throw OutOfModel
      end
  end.

(** [v.k = x] for a key that is not an array index, in strict mode: the
    assignment throws on [null] and on a primitive. *)
Definition set_property (v : value) (k : string) (x : value) : M unit :=
  match v with
  | VNull =>
      throw (TypeError ("Cannot set property '" +:+ k +:+ "' of null"))
  | VBool _ | VNum _ | VStr _ =>
      throw (TypeError ("Cannot create property '" +:+ k +:+ "'"))
  | VRef l =>
      let* h := read heap in
      match h !! l with
      | Some c =>
          update (with_heap
                    (<[l := cell_with_props c (obj_set k x (cell_props c))]> h))
      | None => throw OutOfModel
      end
  end.

(** The own enumerable properties [Object.assign] copies from a source. *)
Definition own_properties (source : value) : M (list (string * value)) :=
  match source with
  | VNull | VBool _ | VNum _ => ret []
  | VStr _ => throw OutOfModel
  | VRef l =>
      let* h := read heap in
      match h !! l with
      | Some (CObj props) => ret props
      | _ => throw OutOfModel
      end
  end.

(** [Object.assign(target, source)]: every property of the source is
    assigned onto the target, in order, by reference. *)
Definition Object_assign (target source : value) : M unit :=
  match target with
  | VNull => throw (TypeError "Cannot convert undefined or null to object")
  | VBool _ | VNum _ => let* _ := own_properties source in ret tt
  | VStr _ => throw OutOfModel
  | VRef l =>
      let* props := own_properties source in
      let* h := read heap in
      match h !! l with
      | Some (CObj tprops) =>
          update (with_heap (<[l := CObj (obj_assign tprops props)]> h))
      | _ => throw OutOfModel
      end
  end.

(** *** [JSON] on heap values *)

Definition JSON_stringify (gap : bool) (v : value) : M string :=
  let* h := read heap in
  match reify_in h v with
  | Some t => ret (JSON.stringify gap t)
  | None => throw (TypeError "Converting circular structure to JSON")
  end.

Definition JSON_parse (text : string) : M value :=
  match JSON.parse text with
  | Some t =>
      fun w =>
        let '(v, h') := alloc t (heap w) in
        (Returned v, with_heap h' w)
  | None => throw (SyntaxError "Unexpected token in JSON")
  end.

(** *** [crypto] and [console] *)

Definition base64_alphabet : string :=
  "ABCDEFGHIJKLMNOPQRSTUVWXYZabcdefghijklmnopqrstuvwxyz0123456789+/".

Definition base64_char (n : N) : ascii :=
  match String.get (N.to_nat (n mod 64)) base64_alphabet with
  | Some c => c
  | None => "="%char
  end.

(** [Buffer.toString('base64')] *)
Fixpoint base64 (bs : list ascii) : string :=
  match bs with
  | [] => EmptyString
  | [a] =>
      let n := (N_of_ascii a * 65536)%N in
      String (base64_char (n / 262144)) (String (base64_char (n / 4096)) "==")
  | [a; b] =>
      let n := (N_of_ascii a * 65536 + N_of_ascii b * 256)%N in
      String (base64_char (n / 262144)) (String (base64_char (n / 4096))
        (String (base64_char (n / 64)) "="))
  | a :: b :: c :: rest =>
      let n := (N_of_ascii a * 65536 + N_of_ascii b * 256 + N_of_ascii c)%N in
      String (base64_char (n / 262144)) (String (base64_char (n / 4096))
        (String (base64_char (n / 64)) (String (base64_char n) (base64 rest))))
  end.

Definition randomBytes (n : nat) : M (list ascii) :=
  fun w =>
    (Returned (entropy w <$> seq (entropy_pos w) n),
     with_entropy_pos (entropy_pos w + n) w).

Definition console_log (msg : string) : M unit :=
  update (fun w => with_console (console w ++ [msg]) w).

(** *** [fs]

    A path names at most one node.  A file or directory can be created only
    inside an existing directory, the one [path.dirname] gives. *)

Section fs.
Context `{PathApi}.

Definition log_call (c : fs_call) : M unit :=
  update (fun w => with_fs_log (fs_log w ++ [c]) w).

Definition fsAccess (p : string) : M unit :=
  let* _ := log_call (FsAccess p) in
  let* d := read disk in
  match d !! p with
  | Some _ => ret tt
  | None => throw (SystemError "ENOENT" "access" p)
  end.

Definition fsReadFile (p : string) : M string :=
  let* _ := log_call (FsReadFile p) in
  let* d := read disk in
  match d !! p with
  | Some (File content) => ret content
  | Some Dir => throw (SystemError "EISDIR" "read" p)
  | None => throw (SystemError "ENOENT" "open" p)
  end.

(** [fs.mkdir] without the recursive option. *)
Definition fsMkdir (p : string) : M unit :=
  let* _ := log_call (FsMkdir p) in
  let* d := read disk in
  match d !! p with
  | Some _ => throw (SystemError "EEXIST" "mkdir" p)
  | None =>
      match d !! path_dirname p with
      | Some Dir => update (with_disk (<[p := Dir]> d))
      | Some (File _) => throw (SystemError "ENOTDIR" "mkdir" p)
      | None => throw (SystemError "ENOENT" "mkdir" p)
      end
  end.

Definition fsWriteFile (p : string) (data : string) : M unit :=
  let* _ := log_call (FsWriteFile p data) in
  let* d := read disk in
  match d !! p with
  | Some Dir => throw (SystemError "EISDIR" "open" p)
  | _ =>
      match d !! path_dirname p with
      | Some Dir => update (with_disk (<[p := File data]> d))
      | Some (File _) => throw (SystemError "ENOTDIR" "open" p)
      | None => throw (SystemError "ENOENT" "open" p)
      end
  end.
End fs.

(** ** [UserSettings.ts] *)

Section UserSettings.
Context `{Index} `{PathApi}.

(** Returns the home folder path of the user; if none can be found it
    falls back to the current working directory. *)
Definition getUserHome (proc : Process) : string :=
  let variableName :=
    if decide (platform proc = "win32") then "USERPROFILE" else "HOME" in
  match env proc !! variableName with
  | None => cwd proc
  | Some home => home
  end.

(** Returns the path to the n8n folder in which all n8n related data gets
    saved. *)
Definition getUserN8nFolderPath (proc : Process) : string :=
  let userFolder :=
    match env proc !! USER_FOLDER_ENV_OVERWRITE with
    | Some folder => folder
    | None => getUserHome proc
    end in
  path_join userFolder USER_SETTINGS_SUBFOLDER.

(** Returns the path to the n8n user folder with the custom extensions. *)
Definition getUserN8nFolderCustomExtensionPath (proc : Process) : string :=
  path_join (getUserN8nFolderPath proc) EXTENSIONS_SUBDIRECTORY.

(** Returns the path to the user settings. *)
Definition getUserSettingsPath (proc : Process) : string :=
  let n8nFolder := getUserN8nFolderPath proc in
  path_join n8nFolder USER_SETTINGS_FILE_NAME.

(** An optional path argument, or the default path. *)
Definition resolve_path (settingsPath : option string) : M string :=
  match settingsPath with
  | Some p => ret p
  | None => read (fun w => getUserSettingsPath (process w))
  end.

Definition parse_error_message (settingsPath : string) : string :=
  "Error parsing n8n-config file " +:+ String JSON.quote_char settingsPath
    +:+ String JSON.quote_char ". It does not seem to be valid JSON.".

(** Returns the content of the user settings. *)
Definition getUserSettings (settingsPath : option string)
    (ignoreCache : option bool) : M (option value) :=
  let* cache := read settingsCache in
  if defined cache && negb (bool_decide (ignoreCache = Some true))
  then ret cache
  else
    let* settingsPath := resolve_path settingsPath in
    let* exists_ :=
      try_catch (let* _ := fsAccess settingsPath in ret true)
                (fun _ => ret false) in
    if negb exists_ then ret None
    else
      let* settingsFile := fsReadFile settingsPath in
      let* _ :=
        try_catch
          (let* parsed := JSON_parse settingsFile in
           update (with_settingsCache (Some parsed)))
          (fun _ => throw (Error (parse_error_message settingsPath))) in
      read settingsCache.

(** Writes a user settings file. *)
Definition writeUserSettings (userSettings : option value)
    (settingsPath : option string) : M value :=
  let* settingsPath := resolve_path settingsPath in
  let* userSettings :=
    match userSettings with
    | Some s => ret s
    | None => new_object
    end in
  let* _ :=
    try_catch (fsAccess (path_dirname settingsPath))
              (fun _ => fsMkdir (path_dirname settingsPath)) in
  let* text := JSON_stringify true userSettings in
  let* _ := fsWriteFile settingsPath text in
  let* text' := JSON_stringify false userSettings in
  let* copy := JSON_parse text' in
  let* _ := update (with_settingsCache (Some copy)) in
  ret userSettings.

(** Adds/overwrites the given settings in the currently saved user
    settings. *)
Definition addToUserSettings (addSettings : value)
    (settingsPath : option string) : M value :=
  let* settingsPath := resolve_path settingsPath in
  let* loaded := getUserSettings (Some settingsPath) None in
  let* userSettings :=
    match loaded with
    | Some s => ret s
    | None => new_object
    end in
  let* _ := Object_assign userSettings addSettings in
  writeUserSettings (Some userSettings) (Some settingsPath).

Definition generated_message (settingsPath : string) : string :=
  "UserSettings got generated and saved to: " +:+ settingsPath.

(** The part of [prepareUserSettings] after the check for an existing
    key: generate a new encryption key and save the settings. *)
Definition generate_key (userSettings : value) (settingsPath : string)
    : M value :=
  let* bytes := randomBytes 24 in
  let* _ :=
    set_property userSettings "encryptionKey" (VStr (base64 bytes)) in
  let* _ := console_log (generated_message settingsPath) in
  writeUserSettings (Some userSettings) (Some settingsPath).

(** Creates the user settings if they do not exist yet. *)
Definition prepareUserSettings : M value :=
  let* settingsPath := resolve_path None in
  let* loaded := getUserSettings (Some settingsPath) None in
  match loaded with
  | Some userSettings =>
      let* key := get_property userSettings "encryptionKey" in
      match key with
      | Some _ => ret userSettings
      | None => generate_key userSettings settingsPath
      end
  | None =>
      let* userSettings := new_object in
      generate_key userSettings settingsPath
  end.

(** Returns the encryption key which is used to encrypt the
    credentials. *)
Definition getEncryptionKey : M (option value) :=
  let* proc := read process in
  match env proc !! ENCRYPTION_KEY_ENV_OVERWRITE with
  | Some key => ret (Some (VStr key))
  | None =>
      let* userSettings := getUserSettings None None in
      match userSettings with
      | None => ret None
      | Some s => get_property s "encryptionKey"
      end
  end.

End UserSettings.

(** * Vocabulary of the properties

    ** Well-formed documents *)

Fixpoint json_size (v : json) : nat :=
  match v with
  | JArr xs => S (sum_list_with json_size xs)
  | JObj ms => S (sum_list_with (fun m => json_size m.2) ms)
  | _ => 1
  end.

(** The longest chain of containers in a tree. *)
Fixpoint json_depth (v : json) : nat :=
  match v with
  | JArr xs => S (max_list_with json_depth xs)
  | JObj ms => S (max_list_with (fun m => json_depth m.2) ms)
  | _ => 0
  end.

(** The trees of JavaScript objects: an object has each key once. *)
Inductive json_wf : json -> Prop :=
  | wf_null : json_wf JNull
  | wf_bool b : json_wf (JBool b)
  | wf_num n : json_wf (JNum n)
  | wf_str s : json_wf (JStr s)
  | wf_arr xs : Forall json_wf xs -> json_wf (JArr xs)
  | wf_obj ms :
      NoDup ms.*1 -> Forall (fun m => json_wf m.2) ms -> json_wf (JObj ms).

(** In a heap of JavaScript objects no cell has a key twice. *)
Definition heap_wf (h : list cell) : Prop :=
  Forall (fun c => NoDup (cell_props c).*1) h.

(** [v] is a plain object: a reference to an object cell. *)
Definition plain_object (h : list cell) (v : value) : Prop :=
  exists l props, v = VRef l /\ h !! l = Some (CObj props).

(** The number of [fs.writeFile] calls in a log. *)
Fixpoint writes (log : list fs_call) : nat :=
  match log with
  | [] => 0
  | FsWriteFile _ _ :: log' => S (writes log')
  | _ :: log' => writes log'
  end.

(** One choice of the package constants, for the worked examples. *)
Definition example_index : Index := {|
  ENCRYPTION_KEY_ENV_OVERWRITE := "N8N_ENCRYPTION_KEY";
  EXTENSIONS_SUBDIRECTORY := "custom";
  USER_FOLDER_ENV_OVERWRITE := "N8N_USER_FOLDER";
  USER_SETTINGS_FILE_NAME := "config";
  USER_SETTINGS_SUBFOLDER := ".n8n";
|}.

(** *** Vocabulary of the proofs about JSON text *)

Definition head_digit (k : string) : bool :=
  match k with
  | String c _ => bool_decide (is_Some (JSON.digit_of c))
  | EmptyString => false
  end.

Definition value_start (c : ascii) : bool :=
  bool_decide (c = JSON.quote_char) || bool_decide (c = "["%char)
  || bool_decide (c = "{"%char) || bool_decide (c = "n"%char)
  || bool_decide (c = "t"%char) || bool_decide (c = "f"%char)
  || bool_decide (c = "-"%char) || bool_decide (is_Some (JSON.digit_of c)).

(** The statement of the round trip for one value, at every fuel that
    covers its size. *)
Definition reads_back (v : json) : Prop :=
  forall gap fuel ind k,
    json_size v <= fuel -> head_digit k = false ->
    JSON.parse_value fuel (JSON.print gap ind v k) = Some (v, k).

(** *** Vocabulary of the proofs about the heap and the store *)

(** What [alloc] guarantees for a tree [t]: the heap grows at its end, by
    at least the depth of [t], with well-formed cells; and the value
    returned stands for [t] in every heap that keeps the new cells. *)
Definition alloc_ok (t : json) : Prop :=
  forall h v h', alloc t h = (v, h') ->
    exists new, h' = h ++ new /\ json_depth t <= length new /\ heap_wf new /\
      forall h2 fuel,
        (forall l, length h <= l < length h' -> h2 !! l = h' !! l) ->
        json_depth t <= fuel -> json_wf t ->
        reify fuel h2 v = Some t.

(** A computation that keeps the heap well formed, whether it returns or
    throws. *)
Definition keeps_heap_wf {A} (m : M A) : Prop :=
  forall w r w', heap_wf (heap w) -> m w = (r, w') -> heap_wf (heap w').

(** The world after one more call to [fs]. *)
Definition logged (c : fs_call) (w : World) : World :=
  with_fs_log (fs_log w ++ [c]) w.

Section store_vocabulary.
Context `{Index} `{PathApi}.

(** The path an optional argument resolves to. *)
Definition resolved (p : option string) (w : World) : string :=
  default (getUserSettingsPath (process w)) p.

(** The world once the document [t] is written at [path] and cached. *)
Definition written (path : string) (t : json) (w1 : World) : World :=
  with_settingsCache (Some (alloc t (heap w1)).1)
    (with_heap (alloc t (heap w1)).2
       (with_disk (<[path := File (JSON.stringify true t)]> (disk w1))
          (logged (FsWriteFile path (JSON.stringify true t)) w1))).

(** The world once the folder [d] is known to exist. *)
Definition parent_ready (d : string) (w w1 : World) : Prop :=
  (is_Some (disk w !! d) /\ w1 = logged (FsAccess d) w) \/
  (disk w !! d = None /\ disk w !! path_dirname d = Some Dir /\
   w1 = with_disk (<[d := Dir]> (disk w))
          (logged (FsMkdir d) (logged (FsAccess d) w))).

(** What a load that goes to the disk does. *)
Definition load_from_disk (path : string) (w : World)
    : outcome (option value) * World :=
  match disk w !! path with
  | None => (Returned None, logged (FsAccess path) w)
  | Some Dir =>
      (Thrown (SystemError "EISDIR" "read" path),
       logged (FsReadFile path) (logged (FsAccess path) w))
  | Some (File text) =>
      match JSON.parse text with
      | Some t =>
          (Returned (Some (alloc t (heap w)).1),
           with_settingsCache (Some (alloc t (heap w)).1)
             (with_heap (alloc t (heap w)).2
                (logged (FsReadFile path) (logged (FsAccess path) w))))
      | None =>
          (Thrown (Error (parse_error_message path)),
           logged (FsReadFile path) (logged (FsAccess path) w))
      end
  end.
End store_vocabulary.

(** The key [generate_key] draws in the world [w]. *)
Definition fresh_key (w : World) : string :=
  base64 (entropy w <$> seq (entropy_pos w) 24).

(** A world for the worked examples: a home folder on a POSIX system, no
    settings yet. *)
Definition example_process : Process :=
  {| env := {[ "HOME" := "/home/u" ]}; platform := "linux"; cwd := "/" |}.

Definition example_world : World :=
  {| heap := []; settingsCache := None;
     disk := {[ "/" := Dir; "/home" := Dir; "/home/u" := Dir ]};
     fs_log := []; process := example_process;
     entropy := fun n => ascii_of_nat (7 * n + 3); entropy_pos := 0;
     console := [] |}.


(** The merge scenario: the objects [{a:1}], [{b:2}] and [{a:3}] are merged
    one after the other into a store that starts empty; the trees of the
    second and of the third result are returned. *)
Definition merge_example_world : World :=
  with_heap [CObj [("a", VNum 1)]; CObj [("b", VNum 2)]; CObj [("a", VNum 3)]]
    example_world.


(** The same store after [{a:1}] was written to the default path. *)
Definition written_example_world : World :=
  (@writeUserSettings example_index posix (Some (VRef 0)) None
     merge_example_world).2.

(** The empty store after [prepareUserSettings] ran once. *)
Definition provisioned_example_world : World :=
  (@prepareUserSettings example_index posix example_world).2.

(** A store whose settings file holds the key [Y], in a process whose
    environment overrides the key with [X]. *)
Definition override_example_world : World :=
  {| heap := []; settingsCache := None;
     disk := {[ "/" := Dir; "/home" := Dir; "/home/u" := Dir;
                "/home/u/.n8n" := Dir;
                "/home/u/.n8n/config" :=
                  File (JSON.stringify true
                          (JObj [("encryptionKey", JStr "Y")])) ]};
     fs_log := [];
     process := {| env := {[ "HOME" := "/home/u";
                             "N8N_ENCRYPTION_KEY" := "X" ]};
                   platform := "linux"; cwd := "/" |};
     entropy := fun n => ascii_of_nat n; entropy_pos := 0; console := [] |}.


(** Decide a property of a concrete heap, world or document by
    evaluation. *)
Ltac by_evaluation :=
  apply (bool_decide_unpack _); vm_compute; exact I.

(** Run the first computation of a sequence with a known result. *)
Ltac run_first Hm :=
  unfold bind at 1; rewrite Hm; cbv beta iota.

Ltac run_first_in Hm Hrun :=
  unfold bind at 1 in Hrun; rewrite Hm in Hrun; cbv beta iota in Hrun.

(** *** Vocabulary of the further properties *)


(** A store with the document [{a:1}] in the cache and no settings folder
    on the disk. *)
Definition cached_example_world : World :=
  with_settingsCache (Some (VRef 0)) merge_example_world.

(** A store whose settings path names a directory. *)
Definition directory_example_world : World :=
  with_disk (<["/home/u/.n8n" := Dir]>
               (<["/home/u/.n8n/config" := Dir]> (disk example_world)))
    example_world.

(** A store whose settings file holds the document [{a:1}]. *)
Definition stored_example_world : World :=
  with_disk (<["/home/u/.n8n" := Dir]>
               (<["/home/u/.n8n/config" :=
                    File (JSON.stringify true (JObj [("a", JNum 1)]))]>
                  (disk example_world)))
    example_world.

(** A computation that keeps a property of the world, whether it returns
    or throws. *)
Definition preserves {A} (P : World -> Prop) (m : M A) : Prop :=
  forall w r w', P w -> m w = (r, w') -> P w'.

(** A property of the world that survives every change the module can
    make: any change of the heap, of the log of [fs] calls, of the random
    source and of the console, a node put on the disk, and a document put
    in the cache. *)
Definition stable (P : World -> Prop) : Prop :=
  (forall h w, P w -> P (with_heap h w)) /\
  (forall l w, P w -> P (with_fs_log l w)) /\
  (forall n w, P w -> P (with_entropy_pos n w)) /\
  (forall l w, P w -> P (with_console l w)) /\
  (forall p n w, P w -> P (with_disk (<[p := n]> (disk w)) w)) /\
  (forall c w, P w -> P (with_settingsCache (Some c) w)).

(** *** Vocabulary of the properties of POSIX paths *)

(** A plain name: not empty, neither [.] nor [..], and without a
    separator. *)
Definition simple_name (s : string) : bool :=
  let cs := list_ascii_of_string s in
  negb (PosixPath.seg_eqb cs []) && negb (PosixPath.seg_eqb cs PosixPath.dot)
  && negb (PosixPath.seg_eqb cs PosixPath.dotdot)
  && forallb (fun c => negb (PosixPath.is_slash c)) cs.

(** A segment that [normalizeString] keeps as it is. *)
Definition proper_segment (seg : list ascii) : Prop :=
  seg <> [] /\ seg <> PosixPath.dot /\ seg <> PosixPath.dotdot /\
  Forall (fun c => PosixPath.is_slash c = false) seg.

(** The stacks [normalizeString] builds: names, above the [..] segments
    that lead out of the starting folder, which only a relative path
    keeps. *)
Definition normal_stack (allowAboveRoot : bool) (st : list (list ascii))
    : Prop :=
  exists names n,
    st = names ++ replicate n PosixPath.dotdot /\
    Forall proper_segment names /\ (allowAboveRoot = false -> n = 0).

Definition is_absolute (p : string) : bool :=
  match p with
  | String c _ => PosixPath.is_slash c
  | EmptyString => false
  end.

(** The stack [normalizeString] ends with on the path [p]. *)
Definition stack_of (p : string) : list (list ascii) :=
  fold_left (PosixPath.push_segment (negb (is_absolute p)))
    (PosixPath.segments p) [].

(** The separator an absolute path starts with. *)
Definition root_of (p : string) : list ascii :=
  if is_absolute p then [PosixPath.slash] else [].

(** *** Further worked examples *)

(** The stored document once it is loaded, and once the caller has
    assigned [b] on the document the load returned. *)
Definition loaded_example_world : World :=
  (@getUserSettings example_index posix None None stored_example_world).2.

Definition edited_example_world : World :=
  (set_property (VRef 0) "b" (VNum 2) loaded_example_world).2.

(** A store whose one object contains itself. *)
Definition circular_example_world : World :=
  with_heap [CObj [("self", VRef 0)]] stored_example_world.


(** A store whose settings file holds the key [Y]; no override in the
    environment. *)
Definition keyed_example_world : World :=
  with_disk (<["/home/u/.n8n" := Dir]>
               (<["/home/u/.n8n/config" :=
                    File (JSON.stringify true
                            (JObj [("encryptionKey", JStr "Y")]))]>
                  (disk example_world)))
    example_world.

(** A store whose settings file holds the text [null]. *)
Definition null_example_world : World :=
  with_disk (<["/home/u/.n8n" := Dir]>
               (<["/home/u/.n8n/config" := File "null"]>
                  (disk example_world)))
    example_world.

(** Processes with the data-folder override set, on two platforms. *)
Definition override_example_process : Process :=
  {| env := {[ "N8N_USER_FOLDER" := "/data"; "HOME" := "/home/u" ]};
     platform := "linux"; cwd := "/" |}.

Definition windows_example_process : Process :=
  {| env := {[ "N8N_USER_FOLDER" := "/data"; "USERPROFILE" := "/Users/u" ]};
     platform := "win32"; cwd := "/tmp" |}.

(** A process like [example_process] as far as the home folder goes. *)
Definition other_example_process : Process :=
  {| env := {[ "HOME" := "/home/u"; "USERPROFILE" := "/Users/u" ]};
     platform := "linux"; cwd := "/tmp" |}.

(** A process whose home variable is set to the empty string. *)
Definition homeless_example_process : Process :=
  {| env := {[ "HOME" := "" ]}; platform := "linux"; cwd := "/work" |}.


(** * Properties

    ** Paths, on examples *)

Example join_ex1 : PosixPath.join "/home/u" ".n8n" = "/home/u/.n8n".
Proof. reflexivity. Qed.
Example join_ex2 : PosixPath.join "/home/u/" "../x/./y/" = "/home/x/y/".
Proof. reflexivity. Qed.
Example join_ex3 : PosixPath.join "a" "../../b" = "../b".
Proof. reflexivity. Qed.
Example dirname_ex1 : PosixPath.dirname "/home/u/.n8n/config" = "/home/u/.n8n".
Proof. reflexivity. Qed.
Example dirname_ex2 : PosixPath.dirname "/a" = "/".
Proof. reflexivity. Qed.
Example dirname_ex3 : PosixPath.dirname "a//b" = "a/".
Proof. reflexivity. Qed.
Example dirname_ex4 : PosixPath.dirname "//a" = "//".
Proof. reflexivity. Qed.
Example dirname_ex5 : PosixPath.dirname "a/b/" = "a".
Proof. reflexivity. Qed.
Example dirname_ex6 : PosixPath.dirname "config" = ".".
Proof. reflexivity. Qed.
Example join_ex4 : PosixPath.join "/a/b" "../../../c" = "/c".
Proof. reflexivity. Qed.
Example dirname_ex7 : PosixPath.dirname "/" = "/".
Proof. reflexivity. Qed.

(** ** JSON text and base64, on examples *)

Example parse_ex1 :
  JSON.parse "[1, [true, null], -20]"
  = Some (JArr [JNum 1; JArr [JBool true; JNull]; JNum (-20)]).
Proof. vm_compute. reflexivity. Qed.

Example parse_ex2 : JSON.parse "[1,]" = None.
Proof. vm_compute. reflexivity. Qed.

Example parse_ex3 : JSON.parse "01" = None.
Proof. vm_compute. reflexivity. Qed.

Example stringify_ex1 :
  JSON.stringify false (JArr [JNum 1; JArr [JBool true; JNull]; JNum (-20)])
  = "[1,[true,null],-20]".
Proof. vm_compute. reflexivity. Qed.

Example stringify_ex2 :
  JSON.stringify true (JArr [JNum 1; JArr []])
  = String "[" (String JSON.nl (String JSON.tab (String "1" (String ","
      (String JSON.nl (String JSON.tab (String "[" (String "]"
        (String JSON.nl "]"))))))))).
Proof. vm_compute. reflexivity. Qed.

Example base64_ex1 : base64 ["M"; "a"; "n"]%char = "TWFu".
Proof. vm_compute. reflexivity. Qed.

Example base64_ex2 : base64 ["M"; "a"]%char = "TWE=".
Proof. vm_compute. reflexivity. Qed.

(** ** JSON text: what is printed is read back *)

Lemma json_ind' (P : json -> Prop) :
  P JNull -> (forall b, P (JBool b)) -> (forall n, P (JNum n)) ->
  (forall s, P (JStr s)) ->
  (forall xs, Forall P xs -> P (JArr xs)) ->
  (forall ms, Forall (fun m => P m.2) ms -> P (JObj ms)) ->
  forall v, P v.
Proof.
  intros Hnull Hbool Hnum Hstr Harr Hobj.
  fix IH 1. intros [ | b | n | s | xs | ms ].
  - exact Hnull.
  - apply Hbool.
  - apply Hnum.
  - apply Hstr.
  - apply Harr. induction xs as [ | x xs IHxs ]; constructor;
      [ apply IH | exact IHxs ].
  - apply Hobj. induction ms as [ | m ms IHms ]; constructor;
      [ apply IH | exact IHms ].
Qed.

Module JSONFacts.
Import JSON.

Lemma skip_ws_tabs n k : skip_ws (tabs n k) = skip_ws k.
Proof. induction n as [ | n IH ]; [ reflexivity | exact IH ]. Qed.

Lemma skip_ws_newline gap n k : skip_ws (newline gap n k) = skip_ws k.
Proof. destruct gap; [ simpl; apply skip_ws_tabs | reflexivity ]. Qed.

Lemma skip_ws_space (gap : bool) k :
  skip_ws (if gap then String " " k else k) = skip_ws k.
Proof. destruct gap; reflexivity. Qed.

Lemma read_digits_print_uint d k :
  head_digit k = false -> read_digits (print_uint d k) = (d, k).
Proof.
  intros Hk. induction d; simpl; try (rewrite IHd; reflexivity).
  destruct k as [ | c k' ]; [ reflexivity | ].
  simpl in *. destruct (digit_of c); [ | reflexivity ].
  exfalso. apply bool_decide_eq_false in Hk. apply Hk. eauto.
Qed.

Lemma to_uint_no_leading_zero p d : Pos.to_uint p <> Decimal.D0 d.
Proof.
  intros H.
  pose proof (DecimalPos.Unsigned.to_of (Pos.to_uint p)) as Hn.
  rewrite DecimalPos.Unsigned.of_to in Hn. simpl in Hn.
  rewrite H in Hn. rewrite unorm_D0 in Hn. unfold Decimal.unorm in Hn.
  destruct (Decimal.nzhead d) eqn:Hd; try discriminate.
  - injection Hn as ->. exact (DecimalPos.Unsigned.to_uint_nonzero p H).
  - exact (nzhead_nonzero _ _ Hd).
Qed.

Lemma parse_nat_print_pos p k :
  head_digit k = false ->
  parse_nat (print_uint (Pos.to_uint p) k) = Some (Npos p, k).
Proof.
  intros Hk. unfold parse_nat. rewrite read_digits_print_uint by exact Hk.
  pose proof (DecimalPos.Unsigned.of_to p) as Hof.
  pose proof (DecimalPos.Unsigned.to_uint_nonnil p) as Hnil.
  pose proof (to_uint_no_leading_zero p) as Hz.
  unfold N.of_uint.
  destruct (Pos.to_uint p); congruence.
Qed.

Lemma skip_ws_print_uint d k :
  d <> Decimal.Nil -> skip_ws (print_uint d k) = print_uint d k.
Proof. destruct d; [ congruence | reflexivity .. ]. Qed.

Lemma parse_chars_escape_char c s :
  parse_chars (escape_char c s) =
  match parse_chars s with
  | Some (t, r) => Some (String c t, r)
  | None => None
  end.
Proof.
  destruct c as [[] [] [] [] [] [] [] []]; reflexivity.
Qed.

Lemma parse_chars_escape s k :
  parse_chars (escape s (String quote_char k)) = Some (s, k).
Proof.
  induction s as [ | c s IH ]; [ reflexivity | ].
  simpl. rewrite parse_chars_escape_char, IH. reflexivity.
Qed.


Lemma value_start_facts c :
  value_start c = true ->
  is_ws c = false /\ c <> "]"%char /\ c <> "}"%char.
Proof.
  destruct c as [[] [] [] [] [] [] [] []]; vm_compute; intros H;
    try discriminate H; repeat split; discriminate.
Qed.

Lemma print_uint_head d k :
  d <> Decimal.Nil ->
  exists c r, print_uint d k = String c r /\ value_start c = true.
Proof.
  destruct d; [ congruence | intros _; eexists _, _; split; reflexivity .. ].
Qed.

Lemma print_head gap ind v k :
  exists c r, print gap ind v k = String c r /\ value_start c = true.
Proof.
  destruct v as [ | [] | [ | p | p ] | s | [ | x xs ] | [ | m ms ] ];
    try (eexists _, _; split; reflexivity).
  apply print_uint_head, DecimalPos.Unsigned.to_uint_nonnil.
Qed.

Lemma skip_ws_print gap ind v k :
  skip_ws (print gap ind v k) = print gap ind v k.
Proof.
  destruct (print_head gap ind v k) as (c & r & -> & Hc).
  apply value_start_facts in Hc as (Hws & _). simpl. rewrite Hws. reflexivity.
Qed.

Lemma parse_value_ws fuel s s' :
  skip_ws s = skip_ws s' -> parse_value fuel s = parse_value fuel s'.
Proof.
  intros H. destruct fuel; simpl; [ reflexivity | rewrite H; reflexivity ].
Qed.

Lemma head_digit_items gap pr ind k l :
  head_digit (print_items gap pr ind k l) = false.
Proof. destruct l, gap; reflexivity. Qed.

Lemma head_digit_members gap pr ind k l :
  head_digit (print_members gap pr ind k l) = false.
Proof. destruct l, gap; reflexivity. Qed.

Lemma parse_elements_print gap f ind k xs : forall x n s,
  Forall reads_back (x :: xs) ->
  sum_list_with json_size (x :: xs) <= f ->
  length (x :: xs) <= n ->
  skip_ws s
  = print gap (S ind) x (print_items gap (print gap (S ind)) ind k xs) ->
  parse_elements (parse_value f) n s = Some (x :: xs, k).
Proof.
  induction xs as [ | y l IH ]; intros x n s Hall Hsz Hn Hs;
    (destruct n as [ | n ]; [ simpl in Hn; lia | ]);
    apply Forall_cons in Hall as [Hx Hall]; simpl in Hsz;
    simpl parse_elements;
    rewrite (parse_value_ws f s (print gap (S ind) x
               (print_items gap (print gap (S ind)) ind k _)))
      by (rewrite skip_ws_print; exact Hs);
    (rewrite Hx by (first [ lia | apply head_digit_items ])).
  - simpl print_items. rewrite skip_ws_newline. reflexivity.
  - simpl print_items.
    change (skip_ws (String "," ?r)) with (String "," r).
    cbn match. cbv beta.
    destruct (decide (","%char = ","%char)) as [ _ | Hne ]; [ | congruence ].
    rewrite (IH y n);
      [ reflexivity | exact Hall | simpl; lia | simpl in Hn |- *; lia | ].
    rewrite skip_ws_newline, skip_ws_print. reflexivity.
Qed.


Lemma parse_member_step pv n key s K :
  skip_ws s = quote key (String ":" K) ->
  parse_members pv (S n) s =
  match pv K with
  | None => None
  | Some (v, r3) =>
      match skip_ws r3 with
      | String c' r4 =>
          if decide (c' = ","%char) then
            match parse_members pv n r4 with
            | Some (ms, r5) => Some ((key, v) :: ms, r5)
            | None => None
            end
          else if decide (c' = "}"%char) then Some ([(key, v)], r4)
          else None
      | EmptyString => None
      end
  end.
Proof.
  intros Hs. simpl parse_members. rewrite Hs. unfold quote.
  destruct (decide (quote_char = quote_char)) as [ _ | Hne ]; [ | congruence ].
  rewrite parse_chars_escape. reflexivity.
Qed.

Lemma parse_members_print gap f ind k ms : forall m n s,
  Forall (fun m => reads_back m.2) (m :: ms) ->
  sum_list_with (fun m => json_size m.2) (m :: ms) <= f ->
  length (m :: ms) <= n ->
  skip_ws s
  = quote m.1 (colon gap
      (print gap (S ind) m.2
         (print_members gap (print gap (S ind)) ind k ms))) ->
  parse_members (parse_value f) n s = Some (m :: ms, k).
Proof.
  induction ms as [ | m' l IH ]; intros [key x] n s Hall Hsz Hn Hs;
    (destruct n as [ | n ]; [ simpl in Hn; lia | ]);
    apply Forall_cons in Hall as [Hx Hall]; simpl in Hsz, Hx;
    cbn [fst snd] in Hs; unfold colon in Hs;
    rewrite (parse_member_step _ _ _ _ _ Hs);
    rewrite (parse_value_ws f _ (print gap (S ind) x
               (print_members gap (print gap (S ind)) ind k _)))
      by (rewrite skip_ws_space, !skip_ws_print; reflexivity);
    (rewrite Hx by (first [ lia | apply head_digit_members ])).
  - simpl print_members. rewrite skip_ws_newline. reflexivity.
  - simpl print_members.
    change (skip_ws (String "," ?r)) with (String "," r).
    destruct (decide (","%char = ","%char)) as [ _ | Hne ]; [ | congruence ].
    rewrite (IH m' n); [ reflexivity | exact Hall | simpl; lia
                       | simpl in Hn |- *; lia | ].
    rewrite skip_ws_newline. unfold quote. reflexivity.
Qed.

End JSONFacts.

Module JSONRoundTrip.
Import JSON JSONFacts.

Lemma parse_value_digits f d k :
  d <> Decimal.Nil ->
  parse_value (S f) (print_uint d k) =
  match parse_nat (print_uint d k) with
  | Some (n, r') => Some (JNum (Z.of_N n), r')
  | None => None
  end.
Proof. destruct d; [ congruence | reflexivity .. ]. Qed.

Lemma parse_value_minus f r :
  parse_value (S f) (String "-" r) =
  match parse_nat r with
  | Some (n, r') => Some (JNum (- Z.of_N n), r')
  | None => None
  end.
Proof. reflexivity. Qed.

Lemma parse_value_quote f r :
  parse_value (S f) (String quote_char r) =
  match parse_chars r with
  | Some (t, r') => Some (JStr t, r')
  | None => None
  end.
Proof. reflexivity. Qed.

Lemma parse_value_bracket f r c r' :
  skip_ws r = String c r' -> c <> "]"%char ->
  parse_value (S f) (String "[" r) =
  match parse_elements (parse_value f) f (String c r') with
  | Some (vs, r'') => Some (JArr vs, r'')
  | None => None
  end.
Proof.
  intros Hr Hc. simpl. rewrite Hr.
  destruct (decide (c = "]"%char)); [ contradiction | reflexivity ].
Qed.

Lemma parse_value_brace f r c r' :
  skip_ws r = String c r' -> c <> "}"%char ->
  parse_value (S f) (String "{" r) =
  match parse_members (parse_value f) f (String c r') with
  | Some (ms, r'') => Some (JObj ms, r'')
  | None => None
  end.
Proof.
  intros Hr Hc. simpl. rewrite Hr.
  destruct (decide (c = "}"%char)); [ contradiction | reflexivity ].
Qed.

Lemma json_size_pos v : 1 <= json_size v.
Proof. destruct v; simpl; lia. Qed.

Lemma length_le_sizes {A} (sz : A -> nat) :
  (forall a, 1 <= sz a) -> forall l, length l <= sum_list_with sz l.
Proof.
  intros Hsz l. induction l as [ | a l IH ]; simpl; [ lia | ].
  pose proof (Hsz a). lia.
Qed.

Lemma reads_back_all v : reads_back v.
Proof.
  induction v as [ | b | n | s | xs IH | ms IH ] using json_ind';
    intros gap fuel ind k Hsz Hk;
    (destruct fuel as [ | f ]; [ simpl in Hsz; lia | ]).
  - reflexivity.
  - destruct b; reflexivity.
  - destruct n as [ | p | p ].
    + simpl. destruct k as [ | c k' ]; [ reflexivity | ].
      unfold parse_nat. simpl. simpl in Hk. apply bool_decide_eq_false in Hk.
      destruct (digit_of c); [ exfalso; apply Hk; eauto | reflexivity ].
    + simpl print. unfold print_int.
      rewrite parse_value_digits by apply DecimalPos.Unsigned.to_uint_nonnil.
      rewrite parse_nat_print_pos by exact Hk. reflexivity.
    + simpl print. unfold print_int.
      rewrite parse_value_minus, parse_nat_print_pos by exact Hk. reflexivity.
  - simpl print. unfold quote.
    rewrite parse_value_quote, parse_chars_escape. reflexivity.
  - destruct xs as [ | x xs ]; [ reflexivity | ].
    simpl print. simpl in Hsz.
    destruct (print_head gap (S ind) x
                (print_items gap (print gap (S ind)) ind k xs))
      as (c & r & Heq & Hc).
    apply value_start_facts in Hc as (_ & Hc & _).
    rewrite (parse_value_bracket f _ c r)
      by (rewrite ?skip_ws_newline, ?skip_ws_print; done).
    rewrite (parse_elements_print gap f ind k xs x f); [ reflexivity | | | | ].
    + exact IH.
    + simpl. lia.
    + simpl. clear -Hsz. 
      pose proof (length_le_sizes json_size json_size_pos xs).
      pose proof (json_size_pos x). lia.
    + rewrite <- Heq. apply skip_ws_print.
  - destruct ms as [ | m ms ]; [ reflexivity | ].
    simpl print. simpl in Hsz.
    rewrite (parse_value_brace f _ quote_char
               (escape m.1 (String quote_char (colon gap
                 (print gap (S ind) m.2
                    (print_members gap (print gap (S ind)) ind k ms))))))
      by (rewrite ?skip_ws_newline; done).
    rewrite (parse_members_print gap f ind k ms m f); [ reflexivity | | | | ].
    + exact IH.
    + simpl. lia.
    + simpl. clear -Hsz.
      pose proof (length_le_sizes (fun m : string * json => json_size m.2)
                    (fun m => json_size_pos m.2) ms).
      pose proof (json_size_pos m.2). lia.
    + reflexivity.
Qed.

Lemma escape_length s k : String.length k <= String.length (escape s k).
Proof.
  induction s as [ | c s IH ]; simpl; [ lia | ].
  unfold escape_char. repeat case_decide; try case_match; simpl; lia.
Qed.

Lemma print_uint_length d k : String.length k <= String.length (print_uint d k).
Proof. induction d; simpl; lia. Qed.

Lemma tabs_length n k : String.length k <= String.length (tabs n k).
Proof. induction n; simpl; lia. Qed.

Lemma newline_length gap n k :
  String.length k <= String.length (newline gap n k).
Proof. destruct gap; simpl; [ pose proof (tabs_length n k) | ]; lia. Qed.

Lemma colon_length gap k :
  S (String.length k) <= String.length (colon gap k).
Proof. destruct gap; simpl; lia. Qed.

Lemma quote_length s k : 2 + String.length k <= String.length (quote s k).
Proof.
  unfold quote. pose proof (escape_length s (String quote_char k)).
  simpl in *. lia.
Qed.

Lemma length_String c r : String.length (String c r) = S (String.length r).
Proof. reflexivity. Qed.

Section container_lengths.
Variable gap : bool.
Variable pr : json -> string -> string.

Lemma print_items_length ind k l :
  Forall (fun y => forall k, json_size y + String.length k
                             <= String.length (pr y k)) l ->
  sum_list_with json_size l + String.length k
  <= String.length (print_items gap pr ind k l).
Proof.
  induction 1 as [ | y l Hy _ IHl ]; cbn [print_items sum_list_with].
  - pose proof (newline_length gap ind (String "]" k)) as Hn.
    rewrite length_String in Hn. lia.
  - rewrite length_String.
    pose proof (newline_length gap (S ind)
                  (pr y (print_items gap pr ind k l))).
    pose proof (Hy (print_items gap pr ind k l)). lia.
Qed.

Lemma print_members_length ind k l :
  Forall (fun m : string * json =>
            forall k, json_size m.2 + String.length k
                      <= String.length (pr m.2 k)) l ->
  sum_list_with (fun m => json_size m.2) l + String.length k
  <= String.length (print_members gap pr ind k l).
Proof.
  induction 1 as [ | y l Hy _ IHl ]; cbn [print_members sum_list_with].
  - pose proof (newline_length gap ind (String "}" k)) as Hn.
    rewrite length_String in Hn. lia.
  - rewrite length_String.
    match goal with |- context [ newline gap ?n ?r ] =>
      pose proof (newline_length gap n r) as Hn end.
    match type of Hn with context [ quote ?a ?r ] =>
      pose proof (quote_length a r) as Hq end.
    match type of Hq with context [ colon gap ?r ] =>
      pose proof (colon_length gap r) as Hc end.
    pose proof (Hy (print_members gap pr ind k l)). lia.
Qed.
End container_lengths.

Lemma print_length gap v : forall ind k,
  json_size v + String.length k <= String.length (print gap ind v k).
Proof.
  induction v as [ | b | n | s | xs IH | ms IH ] using json_ind'; intros ind k.
  - simpl. lia.
  - destruct b; simpl; lia.
  - destruct n as [ | p | p ]; simpl.
    + lia.
    + pose proof (DecimalPos.Unsigned.to_uint_nonnil p).
      destruct (Pos.to_uint p) as [ | d | d | d | d | d | d | d | d | d | d ];
        [ congruence | simpl; pose proof (print_uint_length d k); lia .. ].
    + pose proof (print_uint_length (Pos.to_uint p) k). lia.
  - cbn [print json_size]. pose proof (quote_length s k). lia.
  - destruct xs as [ | x xs ]; [ simpl; lia | ].
    apply Forall_cons in IH as [Hx IH].
    cbn [print json_size sum_list_with]. rewrite length_String.
    match goal with |- context [ newline gap ?n ?r ] =>
      pose proof (newline_length gap n r) as Hn end.
    pose proof (Hx (S ind) (print_items gap (print gap (S ind)) ind k xs)).
    pose proof (print_items_length gap (print gap (S ind)) ind k xs) as Hi.
    specialize (Hi ltac:(eapply Forall_impl;
                           [ exact IH | intros y Hy k'; apply Hy ])).
    lia.
  - destruct ms as [ | m ms ]; [ simpl; lia | ].
    apply Forall_cons in IH as [Hx IH].
    cbn [print json_size sum_list_with]. rewrite length_String.
    match goal with |- context [ newline gap ?n ?r ] =>
      pose proof (newline_length gap n r) as Hn end.
    match type of Hn with context [ quote ?a ?r ] =>
      pose proof (quote_length a r) as Hq end.
    match type of Hq with context [ colon gap ?r ] =>
      pose proof (colon_length gap r) as Hc end.
    pose proof (Hx (S ind)
                  (print_members gap (print gap (S ind)) ind k ms)).
    pose proof (print_members_length gap (print gap (S ind)) ind k ms) as Hi.
    specialize (Hi ltac:(eapply Forall_impl;
                           [ exact IH | intros y Hy k'; apply Hy ])).
    lia.
Qed.

(** [JSON.parse (JSON.stringify v)] is [v], indented or not. *)
Theorem parse_stringify gap v : parse (stringify gap v) = Some v.
Proof.
  unfold parse, stringify.
  rewrite (reads_back_all v); [ reflexivity | | reflexivity ].
  pose proof (print_length gap v 0 ""). simpl in *. lia.
Qed.

End JSONRoundTrip.

(** ** Properties of objects *)

Section objects.
Context {V : Type}.
Implicit Types (ps ms acc : list (string * V)) (k : string) (v : V).

Lemma obj_set_fresh k v ps :
  k ∉ ps.*1 -> obj_set k v ps = ps ++ [(k, v)].
Proof.
  induction ps as [ | [k' v'] ps IH ]; intros Hk; [ reflexivity | ].
  simpl in *. apply not_elem_of_cons in Hk as [Hne Hk].
  destruct (decide (k = k')); [ congruence | ].
  rewrite IH by exact Hk. reflexivity.
Qed.

Lemma obj_set_keys_present k v ps :
  k ∈ ps.*1 -> (obj_set k v ps).*1 = ps.*1.
Proof.
  induction ps as [ | [k' v'] ps IH ]; intros Hk; simpl in *.
  - inversion Hk.
  - destruct (decide (k = k')) as [ -> | Hne ]; [ reflexivity | ].
    simpl. f_equal. apply IH.
    apply elem_of_cons in Hk as [ ? | ? ]; [ congruence | assumption ].
Qed.

Lemma obj_set_NoDup k v ps : NoDup ps.*1 -> NoDup (obj_set k v ps).*1.
Proof.
  intros Hnd. destruct (decide (k ∈ ps.*1)) as [ Hin | Hout ].
  - rewrite obj_set_keys_present by exact Hin. exact Hnd.
  - rewrite obj_set_fresh by exact Hout. rewrite fmap_app. simpl.
    apply NoDup_app. split_and!; [ exact Hnd | | apply NoDup_singleton ].
    intros x Hx Hx'. apply list_elem_of_singleton in Hx'. congruence.
Qed.

Lemma obj_get_set_eq k v ps : obj_get k (obj_set k v ps) = Some v.
Proof.
  induction ps as [ | [k' v'] ps IH ]; simpl.
  - destruct (decide (k = k)); congruence.
  - destruct (decide (k = k')) as [ -> | Hne ]; simpl.
    + destruct (decide (k' = k')); congruence.
    + destruct (decide (k = k')); [ congruence | exact IH ].
Qed.


Lemma obj_get_None k ps : k ∉ ps.*1 -> obj_get k ps = None.
Proof.
  induction ps as [ | [k' v'] ps IH ]; intros Hk; [ reflexivity | ].
  simpl in *. apply not_elem_of_cons in Hk as [Hne Hk].
  destruct (decide (k = k')); [ congruence | auto ].
Qed.

Lemma obj_assign_cons acc k v ms :
  obj_assign acc ((k, v) :: ms) = obj_assign (obj_set k v acc) ms.
Proof. reflexivity. Qed.

Lemma obj_assign_NoDup ms : forall acc,
  NoDup acc.*1 -> NoDup (obj_assign acc ms).*1.
Proof.
  induction ms as [ | [k v] ms IH ]; intros acc Hacc; [ exact Hacc | ].
  rewrite obj_assign_cons. apply IH, obj_set_NoDup, Hacc.
Qed.

Lemma obj_of_entries_NoDup ms : NoDup (obj_of_entries ms).*1.
Proof. apply obj_assign_NoDup. constructor. Qed.

Lemma obj_assign_fresh ms : forall acc,
  NoDup (acc.*1 ++ ms.*1) -> obj_assign acc ms = acc ++ ms.
Proof.
  induction ms as [ | [k v] ms IH ]; intros acc Hnd.
  - unfold obj_assign. simpl. rewrite app_nil_r. reflexivity.
  - rewrite obj_assign_cons.
    simpl in Hnd. apply NoDup_app in Hnd as (Hacc & Hdisj & Hms).
    apply NoDup_cons in Hms as [Hk Hms].
    rewrite obj_set_fresh by (intros Hin; apply (Hdisj _ Hin); left).
    rewrite IH.
    + rewrite <- app_assoc. reflexivity.
    + rewrite fmap_app, <- app_assoc. simpl.
      apply NoDup_app. split_and!;
        [ exact Hacc | exact Hdisj | apply NoDup_cons; split; assumption ].
Qed.

Lemma obj_of_entries_nodup ms : NoDup ms.*1 -> obj_of_entries ms = ms.
Proof.
  intros Hnd. unfold obj_of_entries.
  rewrite obj_assign_fresh; [ reflexivity | exact Hnd ].
Qed.

End objects.

(** ** Properties of the heap *)

Lemma reify_ref n h l :
  reify (S n) h (VRef l) =
  match h !! l with
  | Some (CObj props) =>
      JObj <$> mapM (fun p => pair p.1 <$> reify n h p.2) props
  | Some (CArr elems _) => JArr <$> mapM (reify n h) elems
  | None => None
  end.
Proof. reflexivity. Qed.

(** More fuel and more cells do not change the tree of a value. *)
Lemma reify_mono fuel : forall fuel' h h2 v t,
  reify fuel h v = Some t ->
  fuel <= fuel' ->
  (forall l c, h !! l = Some c -> h2 !! l = Some c) ->
  reify fuel' h2 v = Some t.
Proof.
  induction fuel as [ | n IH ]; intros fuel' h h2 v t Hr Hle Hsub;
    destruct v as [ | b | z | s | l ];
    try (destruct fuel'; exact Hr); try discriminate.
  destruct fuel' as [ | n' ]; [ lia | ]. rewrite reify_ref in Hr |- *.
  destruct (h !! l) as [ c | ] eqn:Hl; [ | discriminate ].
  rewrite (Hsub _ _ Hl). destruct c as [ props | elems props ].
  - apply fmap_Some in Hr as (ms & Hms & ->).
    apply fmap_Some. exists ms. split; [ | reflexivity ].
    apply mapM_Some in Hms. apply mapM_Some.
    eapply Forall2_impl; [ exact Hms | ].
    intros p m Hp. simpl in *.
    apply fmap_Some in Hp as (x & Hx & ->).
    rewrite (IH n' h h2 _ _ Hx); [ reflexivity | lia | exact Hsub ].
  - apply fmap_Some in Hr as (xs & Hxs & ->).
    apply fmap_Some. exists xs. split; [ | reflexivity ].
    apply mapM_Some in Hxs. apply mapM_Some.
    eapply Forall2_impl; [ exact Hxs | ].
    intros x y Hx. simpl in *. apply (IH n' h h2 _ _ Hx); [ lia | exact Hsub ].
Qed.

(** The tree of a value in a well-formed heap is well formed. *)
Lemma reify_wf h : heap_wf h -> forall fuel v t,
  reify fuel h v = Some t -> json_wf t.
Proof.
  intros Hh. induction fuel as [ | n IH ]; intros v t Hr;
    destruct v as [ | b | z | s | l ];
    try (injection Hr as <-; constructor); try discriminate.
  rewrite reify_ref in Hr.
  destruct (h !! l) as [ c | ] eqn:Hl; [ | discriminate ].
  pose proof (Forall_lookup_1 _ _ _ _ Hh Hl) as Hc.
  destruct c as [ props | elems props ].
  - apply fmap_Some in Hr as (ms & Hms & ->). apply mapM_Some in Hms.
    simpl in Hc. constructor.
    + replace (ms.*1) with (props.*1); [ exact Hc | ].
      clear -Hms. induction Hms as [ | p m ps ms' Hp _ IHl ]; [ reflexivity | ].
      simpl. apply fmap_Some in Hp as (x & _ & ->). simpl. f_equal. exact IHl.
    + clear -Hms IH. induction Hms as [ | p m ps ms' Hp _ IHl ]; constructor;
        [ | exact IHl ].
      apply fmap_Some in Hp as (x & Hx & ->). simpl. eapply IH, Hx.
  - apply fmap_Some in Hr as (xs & Hxs & ->). apply mapM_Some in Hxs.
    constructor. clear -Hxs IH.
    induction Hxs as [ | p m ps ms' Hp _ IHl ]; constructor;
      [ eapply IH, Hp | exact IHl ].
Qed.

Lemma alloc_items_ok xs :
  Forall alloc_ok xs ->
  forall h vs h', alloc_items alloc xs h = (vs, h') ->
    exists new, h' = h ++ new /\ max_list_with json_depth xs <= length new /\
      heap_wf new /\
      forall h2 fuel,
        (forall l, length h <= l < length h' -> h2 !! l = h' !! l) ->
        max_list_with json_depth xs <= fuel -> Forall json_wf xs ->
        mapM (reify fuel h2) vs = Some xs.
Proof.
  induction 1 as [ | x xs Hx _ IH ]; intros h vs h' Ha; simpl in Ha.
  - injection Ha as <- <-. exists []. rewrite app_nil_r.
    split_and!; [ reflexivity | simpl; lia | constructor | reflexivity ].
  - destruct (alloc x h) as [v h1] eqn:Hv.
    destruct (alloc_items alloc xs h1) as [vs' h2'] eqn:Hvs.
    injection Ha as <- <-.
    destruct (Hx _ _ _ Hv) as (new1 & -> & Hd1 & Hwf1 & Hr1).
    destruct (IH _ _ _ Hvs) as (new2 & -> & Hd2 & Hwf2 & Hr2).
    exists (new1 ++ new2). rewrite app_assoc.
    split_and!; [ reflexivity | simpl; rewrite length_app; lia
                | apply Forall_app; split; assumption | ].
    intros h2 fuel Hagree Hfuel Hwf. simpl in Hfuel.
    apply Forall_cons in Hwf as [Hwx Hwxs].
    simpl. rewrite (Hr1 h2 fuel); [ | | lia | exact Hwx ].
    + simpl. rewrite (Hr2 h2 fuel); [ reflexivity | | lia | exact Hwxs ].
      intros l Hl. apply Hagree. rewrite !length_app in *. lia.
    + intros l Hl. rewrite Hagree by (rewrite !length_app in *; lia).
      apply lookup_app_l. rewrite !length_app in *. lia.
Qed.

Lemma alloc_members_ok ms :
  Forall (fun m => alloc_ok m.2) ms ->
  forall h ps h', alloc_members alloc ms h = (ps, h') ->
    ps.*1 = ms.*1 /\
    exists new, h' = h ++ new /\
      max_list_with (fun m => json_depth m.2) ms <= length new /\
      heap_wf new /\
      forall h2 fuel,
        (forall l, length h <= l < length h' -> h2 !! l = h' !! l) ->
        max_list_with (fun m => json_depth m.2) ms <= fuel ->
        Forall (fun m => json_wf m.2) ms ->
        mapM (fun p => pair p.1 <$> reify fuel h2 p.2) ps = Some ms.
Proof.
  induction 1 as [ | [k x] ms Hx _ IH ]; intros h ps h' Ha; simpl in Ha.
  - injection Ha as <- <-. split; [ reflexivity | ].
    exists []. rewrite app_nil_r.
    split_and!; [ reflexivity | simpl; lia | constructor | reflexivity ].
  - destruct (alloc x h) as [v h1] eqn:Hv.
    destruct (alloc_members alloc ms h1) as [ps' h2'] eqn:Hps.
    injection Ha as <- <-. simpl in Hx.
    destruct (Hx _ _ _ Hv) as (new1 & -> & Hd1 & Hwf1 & Hr1).
    destruct (IH _ _ _ Hps) as (Hkeys & new2 & -> & Hd2 & Hwf2 & Hr2).
    split; [ simpl; f_equal; exact Hkeys | ].
    exists (new1 ++ new2). rewrite app_assoc.
    split_and!; [ reflexivity | simpl; rewrite length_app; lia
                | apply Forall_app; split; assumption | ].
    intros h2 fuel Hagree Hfuel Hwf. simpl in Hfuel.
    apply Forall_cons in Hwf as [Hwx Hwxs]. simpl in Hwx.
    simpl. rewrite (Hr1 h2 fuel); [ | | lia | exact Hwx ].
    + simpl. rewrite (Hr2 h2 fuel); [ reflexivity | | lia | exact Hwxs ].
      intros l Hl. apply Hagree. rewrite !length_app in *. lia.
    + intros l Hl. rewrite Hagree by (rewrite !length_app in *; lia).
      apply lookup_app_l. rewrite !length_app in *. lia.
Qed.

Lemma alloc_spec t : alloc_ok t.
Proof.
  induction t as [ | b | n | s | xs IH | ms IH ] using json_ind';
    intros h v h' Ha; simpl in Ha.
  1-4: injection Ha as <- <-; exists []; rewrite app_nil_r;
    split_and!; [ reflexivity | simpl; lia | constructor
                | intros h2 [ | fuel ] _ _ _; reflexivity ].
  - destruct (alloc_items alloc xs h) as [vs h1] eqn:Hvs.
    injection Ha as <- <-.
    destruct (alloc_items_ok xs IH _ _ _ Hvs) as (new & -> & Hd & Hwf & Hr).
    exists (new ++ [CArr vs []]). rewrite app_assoc.
    split_and!; [ reflexivity | rewrite length_app; simpl; lia | | ].
    { apply Forall_app. split; [ exact Hwf | ].
      constructor; [ simpl; constructor | constructor ]. }
    intros h2 fuel Hagree Hfuel Hwft.
    destruct fuel as [ | fuel ]; [ simpl in Hfuel; lia | ].
    rewrite reify_ref.
    rewrite Hagree by (rewrite !length_app; simpl; lia).
    rewrite lookup_app_r by lia. rewrite Nat.sub_diag. simpl.
    inversion Hwft as [ | | | | xs' Hall | ]; subst.
    rewrite (Hr h2 fuel); [ reflexivity | | simpl in Hfuel; lia | exact Hall ].
    intros l Hl. rewrite Hagree by (rewrite !length_app in *; simpl; lia).
    apply lookup_app_l. lia.
  - destruct (alloc_members alloc ms h) as [ps h1] eqn:Hps.
    injection Ha as <- <-.
    destruct (alloc_members_ok ms IH _ _ _ Hps)
      as (Hkeys & new & -> & Hd & Hwf & Hr).
    exists (new ++ [CObj (obj_of_entries ps)]). rewrite app_assoc.
    split_and!; [ reflexivity | rewrite length_app; simpl; lia | | ].
    { apply Forall_app. split; [ exact Hwf | ].
      constructor; [ simpl; apply obj_of_entries_NoDup | constructor ]. }
    intros h2 fuel Hagree Hfuel Hwft.
    destruct fuel as [ | fuel ]; [ simpl in Hfuel; lia | ].
    rewrite reify_ref.
    rewrite Hagree by (rewrite !length_app; simpl; lia).
    rewrite lookup_app_r by lia. rewrite Nat.sub_diag. simpl.
    inversion Hwft as [ | | | | | ms' Hnd Hall ]; subst.
    rewrite obj_of_entries_nodup by (rewrite Hkeys; exact Hnd).
    rewrite (Hr h2 fuel); [ reflexivity | | simpl in Hfuel; lia | exact Hall ].
    intros l Hl. rewrite Hagree by (rewrite !length_app in *; simpl; lia).
    apply lookup_app_l. lia.
Qed.

(** *** The fuel of [reify_in] is enough

    A reference whose tree exists sits above trees of smaller depth only, so
    the references along a chain are distinct cells; the depth of a tree is
    therefore bounded by the size of the heap. *)

Lemma max_list_with_le {A} (f : A -> nat) l x :
  x ∈ l -> f x <= max_list_with f l.
Proof.
  induction l as [ | y l IH ]; intros Hx; [ inversion Hx | ].
  simpl. apply elem_of_cons in Hx as [ -> | Hx ]; [ lia | ].
  specialize (IH Hx). lia.
Qed.

Lemma max_list_with_attained {A} (f : A -> nat) l :
  0 < max_list_with f l -> exists x, x ∈ l /\ f x = max_list_with f l.
Proof.
  induction l as [ | y l IH ]; simpl; [ lia | ]. intros Hpos.
  destruct (decide (max_list_with f l <= f y)) as [ Hle | Hgt ].
  - exists y. split; [ left | lia ].
  - destruct IH as (x & Hx & Hfx); [ lia | ].
    exists x. split; [ right; exact Hx | lia ].
Qed.

(** Fuel equal to the depth of the tree is enough to build it again. *)
Lemma reify_fuel_depth n : forall h v t m,
  reify n h v = Some t -> json_depth t <= m -> reify m h v = Some t.
Proof.
  induction n as [ | n IH ]; intros h v t m Hr Hm;
    destruct v as [ | b | z | s | l ];
    try (destruct m; exact Hr); try discriminate.
  rewrite reify_ref in Hr.
  destruct (h !! l) as [ c | ] eqn:Hl; [ | discriminate ].
  destruct c as [ props | elems props ].
  - apply fmap_Some in Hr as (ms & Hms & ->). simpl in Hm.
    destruct m as [ | m ]; [ lia | ]. rewrite reify_ref, Hl.
    apply fmap_Some. exists ms. split; [ | reflexivity ].
    apply mapM_Some in Hms. apply mapM_Some.
    assert (Hall : Forall (fun x : string * json => json_depth x.2 <= m) ms).
    { apply Forall_forall. intros x Hx.
      pose proof (max_list_with_le (fun x : string * json => json_depth x.2)
                    ms x Hx). simpl in *. lia. }
    clear Hm Hl. induction Hms as [ | p x ps xs Hp _ IHl ]; constructor.
    + apply Forall_cons in Hall as [Hx _].
      apply fmap_Some in Hp as (y & Hy & ->). simpl in *.
      rewrite (IH h _ _ m Hy Hx). reflexivity.
    + apply IHl. apply Forall_cons in Hall as [_ Hall]. exact Hall.
  - apply fmap_Some in Hr as (xs & Hxs & ->). simpl in Hm.
    destruct m as [ | m ]; [ lia | ]. rewrite reify_ref, Hl.
    apply fmap_Some. exists xs. split; [ | reflexivity ].
    apply mapM_Some in Hxs. apply mapM_Some.
    assert (Hall : Forall (fun x => json_depth x <= m) xs).
    { apply Forall_forall. intros x Hx.
      pose proof (max_list_with_le json_depth xs x Hx). lia. }
    clear Hm Hl. induction Hxs as [ | p x ps xs' Hp _ IHl ]; constructor.
    + apply Forall_cons in Hall as [Hx _]. exact (IH h _ _ m Hp Hx).
    + apply IHl. apply Forall_cons in Hall as [_ Hall]. exact Hall.
Qed.

Lemma reify_deterministic n m h v t t' :
  reify n h v = Some t -> reify m h v = Some t' -> t = t'.
Proof.
  intros Hn Hm.
  pose proof (reify_mono n (n `max` m) h h v t Hn ltac:(lia)
                ltac:(auto)) as H1.
  pose proof (reify_mono m (n `max` m) h h v t' Hm ltac:(lia)
                ltac:(auto)) as H2.
  congruence.
Qed.

(** Under a tree of depth [d] there is a chain of [d] distinct cells. *)
Lemma reify_chain n : forall h v t,
  reify n h v = Some t ->
  exists ls,
    length ls = json_depth t /\ NoDup ls /\
    Forall (fun l => l < length h /\
                     exists k t', reify k h (VRef l) = Some t' /\
                                  json_depth t' <= json_depth t) ls.
Proof.
  induction n as [ | n IH ]; intros h v t Hr;
    destruct v as [ | b | z | s | l ];
    try (injection Hr as <-; exists []; split_and!; constructor);
    try discriminate.
  pose proof Hr as Hfull. rewrite reify_ref in Hr.
  destruct (h !! l) as [ c | ] eqn:Hl; [ | discriminate ].
  pose proof (lookup_lt_Some _ _ _ Hl) as Hlt.
  assert (Hstep : forall d v' t',
            json_depth t = S d -> reify n h v' = Some t' ->
            json_depth t' = d ->
            exists ls,
              length ls = json_depth t /\ NoDup ls /\
              Forall (fun l => l < length h /\
                        exists k t', reify k h (VRef l) = Some t' /\
                                     json_depth t' <= json_depth t) ls).
  { intros d v' t' Hd Hv' Hd'.
    destruct (IH h v' t' Hv') as (ls & Hlen & Hnd & Hall).
    exists (l :: ls). split_and!.
    - simpl. lia.
    - constructor; [ | exact Hnd ]. intros Hin.
      pose proof (proj1 (Forall_forall _ _) Hall l Hin)
        as (_ & k & t'' & Hk & Hle).
      pose proof (reify_deterministic _ _ _ _ _ _ Hfull Hk) as <-. lia.
    - constructor.
      + split; [ exact Hlt | ]. exists (S n), t. auto.
      + eapply Forall_impl; [ exact Hall | ].
        intros l' (Hl' & k & t'' & Hk & Hle). split; [ exact Hl' | ].
        exists k, t''. split; [ exact Hk | lia ]. }
  assert (Hleaf : json_depth t = 1 ->
            exists ls,
              length ls = json_depth t /\ NoDup ls /\
              Forall (fun l => l < length h /\
                        exists k t', reify k h (VRef l) = Some t' /\
                                     json_depth t' <= json_depth t) ls).
  { intros Hd. exists [l]. split_and!; [ simpl; lia | apply NoDup_singleton | ].
    constructor; [ | constructor ]. split; [ exact Hlt | ].
    exists (S n), t. auto. }
  destruct c as [ props | elems props ].
  - apply fmap_Some in Hr as (ms & Hms & ->). apply mapM_Some in Hms.
    destruct (decide (max_list_with (fun m : string * json => json_depth m.2) ms
                      = 0)) as [ Hz | Hnz ].
    + apply Hleaf. simpl. lia.
    + destruct (max_list_with_attained
                  (fun m : string * json => json_depth m.2) ms)
        as (x & Hx & Hdx); [ lia | ].
      apply list_elem_of_lookup in Hx as (i & Hi).
      destruct (Forall2_lookup_r _ _ _ _ _ Hms Hi) as (p & _ & Hp).
      apply fmap_Some in Hp as (y & Hy & ->). simpl in Hdx.
      eapply (Hstep _ p.2 y); [ reflexivity | exact Hy | exact Hdx ].
  - apply fmap_Some in Hr as (xs & Hxs & ->). apply mapM_Some in Hxs.
    destruct (decide (max_list_with json_depth xs = 0)) as [ Hz | Hnz ].
    + apply Hleaf. simpl. lia.
    + destruct (max_list_with_attained json_depth xs)
        as (x & Hx & Hdx); [ lia | ].
      apply list_elem_of_lookup in Hx as (i & Hi).
      destruct (Forall2_lookup_r _ _ _ _ _ Hxs Hi) as (p & _ & Hp).
      eapply (Hstep _ p x); [ reflexivity | exact Hp | exact Hdx ].
Qed.

(** [reify_in] finds the tree of a value whenever some fuel does: it fails
    on cyclic structures and dangling references only. *)
Lemma reify_in_complete n h v t :
  reify n h v = Some t -> reify_in h v = Some t.
Proof.
  intros Hr. unfold reify_in.
  apply (reify_fuel_depth n h v t _ Hr).
  destruct (reify_chain n h v t Hr) as (ls & Hlen & Hnd & Hall).
  rewrite <- Hlen.
  assert (Hsub : ls ⊆+ seq 0 (length h)).
  { apply NoDup_submseteq; [ exact Hnd | ]. intros x Hx.
    apply elem_of_seq.
    pose proof (proj1 (Forall_forall _ _) Hall x Hx) as (Hlt & _). lia. }
  apply submseteq_length in Hsub. rewrite length_seq in Hsub. lia.
Qed.

(** ** Running computations *)

Section monad_facts.
Context {A B : Type}.
Implicit Types (m : M A) (k : A -> M B) (w : World).

Lemma bind_returned m k w b w' :
  bind m k w = (Returned b, w') <->
  exists a w1, m w = (Returned a, w1) /\ k a w1 = (Returned b, w').
Proof.
  unfold bind. destruct (m w) as [[a | e] w1]; split.
  - intros Hk. exists a, w1. auto.
  - intros (a' & w1' & [= <- <-] & Hk). exact Hk.
  - discriminate.
  - intros (a' & w1' & [=] & _).
Qed.

Lemma bind_fail m k w e w1 :
  m w = (Thrown e, w1) -> bind m k w = (Thrown e, w1).
Proof. intros Hm. unfold bind. rewrite Hm. reflexivity. Qed.
End monad_facts.

Lemma try_catch_run {A} (m : M A) handler w a w1 :
  m w = (Returned a, w1) -> try_catch m handler w = (Returned a, w1).
Proof. intros Hm. unfold try_catch. rewrite Hm. reflexivity. Qed.

Lemma try_catch_fail {A} (m : M A) handler w e w1 :
  m w = (Thrown e, w1) -> try_catch m handler w = handler e w1.
Proof. intros Hm. unfold try_catch. rewrite Hm. reflexivity. Qed.

Lemma writes_app l1 l2 : writes (l1 ++ l2) = writes l1 + writes l2.
Proof.
  induction l1 as [ | c l1 IH ]; [ reflexivity | ].
  destruct c; simpl; rewrite IH; reflexivity.
Qed.

Section fs_facts.
Context `{PathApi}.

Lemma fsAccess_found p w :
  is_Some (disk w !! p) -> fsAccess p w = (Returned tt, logged (FsAccess p) w).
Proof.
  intros [n Hn]. unfold fsAccess, bind, log_call, update, read. simpl.
  rewrite Hn. reflexivity.
Qed.

Lemma fsAccess_missing p w :
  disk w !! p = None ->
  fsAccess p w
  = (Thrown (SystemError "ENOENT" "access" p), logged (FsAccess p) w).
Proof.
  intros Hn. unfold fsAccess, bind, log_call, update, read. simpl.
  rewrite Hn. reflexivity.
Qed.

Lemma fsReadFile_file p w content :
  disk w !! p = Some (File content) ->
  fsReadFile p w = (Returned content, logged (FsReadFile p) w).
Proof.
  intros Hn. unfold fsReadFile, bind, log_call, update, read. simpl.
  rewrite Hn. reflexivity.
Qed.

Lemma fsReadFile_dir p w :
  disk w !! p = Some Dir ->
  fsReadFile p w =
  (Thrown (SystemError "EISDIR" "read" p), logged (FsReadFile p) w).
Proof.
  intros Hn. unfold fsReadFile, bind, log_call, update, read. simpl.
  rewrite Hn. reflexivity.
Qed.

Lemma fsMkdir_created p w :
  disk w !! p = None -> disk w !! path_dirname p = Some Dir ->
  fsMkdir p w
  = (Returned tt,
     with_disk (<[p := Dir]> (disk w)) (logged (FsMkdir p) w)).
Proof.
  intros Hp Hd. unfold fsMkdir, bind, log_call, update, read. simpl.
  rewrite Hp, Hd. reflexivity.
Qed.

Lemma fsMkdir_no_parent p w :
  disk w !! p = None -> disk w !! path_dirname p = None ->
  fsMkdir p w = (Thrown (SystemError "ENOENT" "mkdir" p), logged (FsMkdir p) w).
Proof.
  intros Hp Hd. unfold fsMkdir, bind, log_call, update, read. simpl.
  rewrite Hp, Hd. reflexivity.
Qed.

Lemma fsMkdir_returned p w w' :
  fsMkdir p w = (Returned tt, w') ->
  disk w !! p = None /\ disk w !! path_dirname p = Some Dir /\
  w' = with_disk (<[p := Dir]> (disk w)) (logged (FsMkdir p) w).
Proof.
  unfold fsMkdir, bind, log_call, update, read. simpl.
  destruct (disk w !! p); [ discriminate | ].
  destruct (disk w !! path_dirname p) as [ [ c | ] | ]; try discriminate.
  intros [= <-]. auto.
Qed.

Lemma fsWriteFile_written p data w :
  disk w !! p <> Some Dir -> disk w !! path_dirname p = Some Dir ->
  fsWriteFile p data w =
  (Returned tt,
   with_disk (<[p := File data]> (disk w)) (logged (FsWriteFile p data) w)).
Proof.
  intros Hp Hd. unfold fsWriteFile, bind, log_call, update, read. simpl.
  rewrite Hd. destruct (disk w !! p) as [ [ c | ] | ];
    first [ reflexivity | congruence ].
Qed.

Lemma fsWriteFile_returned p data w w' :
  fsWriteFile p data w = (Returned tt, w') ->
  disk w !! p <> Some Dir /\ disk w !! path_dirname p = Some Dir /\
  w' = with_disk (<[p := File data]> (disk w)) (logged (FsWriteFile p data) w).
Proof.
  unfold fsWriteFile, bind, log_call, update, read. simpl.
  destruct (disk w !! p) as [ [ c | ] | ];
    destruct (disk w !! path_dirname p) as [ [ c' | ] | ];
    try discriminate; intros [= <-]; auto.
Qed.
End fs_facts.

(** ** Deep copies *)

Lemma reify_in_app h new v t :
  reify_in h v = Some t -> reify_in (h ++ new) v = Some t.
Proof.
  intros Hr. unfold reify_in in *.
  eapply reify_mono; [ exact Hr | rewrite length_app; lia | ].
  intros l c Hl. apply lookup_app_l_Some. exact Hl.
Qed.

Lemma reify_in_wf h v t : heap_wf h -> reify_in h v = Some t -> json_wf t.
Proof. intros Hh Hr. eapply reify_wf; [ exact Hh | exact Hr ]. Qed.

(** [alloc] makes a deep copy: the tree of the copy is the tree allocated,
    the heap is extended by well-formed cells, and the copy depends on the
    new cells only. *)
Lemma alloc_copy t h c h' :
  json_wf t -> alloc t h = (c, h') ->
  exists new, h' = h ++ new /\ heap_wf new /\
    reify_in h' c = Some t /\
    forall h2,
      length h' <= length h2 ->
      (forall l, length h <= l < length h' -> h2 !! l = h' !! l) ->
      reify_in h2 c = Some t.
Proof.
  intros Hwf Ha.
  destruct (alloc_spec t h c h' Ha) as (new & -> & Hd & Hnew & Hr).
  exists new. split_and!; [ reflexivity | exact Hnew | | ].
  - apply Hr; [ auto | rewrite length_app; lia | exact Hwf ].
  - intros h2 Hlen Hagree. apply Hr; [ exact Hagree | | exact Hwf ].
    rewrite length_app in Hlen. lia.
Qed.

Lemma heap_wf_app h new : heap_wf h -> heap_wf new -> heap_wf (h ++ new).
Proof. intros Hh Hn. apply Forall_app. split; assumption. Qed.

Lemma heap_wf_insert h l c :
  heap_wf h -> NoDup (cell_props c).*1 -> heap_wf (<[l := c]> h).
Proof. intros Hh Hc. apply Forall_insert; assumption. Qed.

(** ** The primitives on heap values *)

Lemma JSON_stringify_ok gap v w t :
  reify_in (heap w) v = Some t ->
  JSON_stringify gap v w = (Returned (JSON.stringify gap t), w).
Proof.
  intros Hr. unfold JSON_stringify, bind, read. rewrite Hr. reflexivity.
Qed.

Lemma JSON_stringify_returned gap v w s w' :
  JSON_stringify gap v w = (Returned s, w') ->
  w' = w /\
  exists t, reify_in (heap w) v = Some t /\ s = JSON.stringify gap t.
Proof.
  unfold JSON_stringify, bind, read.
  destruct (reify_in (heap w) v) as [ t | ]; [ | discriminate ].
  intros [= <- <-]. eauto.
Qed.

Lemma JSON_parse_ok text t w :
  JSON.parse text = Some t ->
  JSON_parse text w =
  (Returned (alloc t (heap w)).1, with_heap (alloc t (heap w)).2 w).
Proof.
  intros Hp. unfold JSON_parse. rewrite Hp.
  destruct (alloc t (heap w)) as [v h']. reflexivity.
Qed.

Lemma JSON_parse_invalid text w :
  JSON.parse text = None ->
  JSON_parse text w = (Thrown (SyntaxError "Unexpected token in JSON"), w).
Proof. intros Hp. unfold JSON_parse. rewrite Hp. reflexivity. Qed.

Lemma get_property_world v k w r w' :
  get_property v k w = (r, w') -> w' = w.
Proof.
  destruct v as [ | b | n | s | l ]; simpl;
    unfold throw, ret, bind, read; try (intros [= _ <-]; reflexivity).
  destruct (heap w !! l); intros [= _ <-]; reflexivity.
Qed.

Lemma get_property_ref l k w c :
  heap w !! l = Some c ->
  get_property (VRef l) k w = (Returned (obj_get k (cell_props c)), w).
Proof. intros Hl. simpl. unfold bind, read. rewrite Hl. reflexivity. Qed.

(** ** [writeUserSettings] and [getUserSettings], case by case *)

Section store_facts.
Context `{Index} `{PathApi}.

Lemma resolve_path_run p w :
  resolve_path p w = (Returned (resolved p w), w).
Proof. destruct p; reflexivity. Qed.

Lemma ensure_parent_returned d w u w1 :
  try_catch (fsAccess d) (fun _ => fsMkdir d) w = (Returned u, w1) ->
  parent_ready d w w1.
Proof.
  destruct (disk w !! d) as [ n | ] eqn:Hd.
  - rewrite (try_catch_run _ _ _ _ _ (fsAccess_found d w (mk_is_Some _ _ Hd))).
    intros [= _ <-]. left. split; [ eauto | reflexivity ].
  - rewrite (try_catch_fail _ _ _ _ _ (fsAccess_missing d w Hd)).
    destruct u. intros Hm. apply fsMkdir_returned in Hm as (_ & Hg & ->).
    right. split_and!; [ exact Hd | exact Hg | reflexivity ].
Qed.

Lemma parent_ready_heap d w w1 :
  parent_ready d w w1 ->
  heap w1 = heap w /\ settingsCache w1 = settingsCache w /\
  process w1 = process w /\ entropy w1 = entropy w /\
  entropy_pos w1 = entropy_pos w /\ console w1 = console w /\
  writes (fs_log w1) = writes (fs_log w) /\
  disk w1 !! d = (if disk w !! d is Some n then Some n else Some Dir).
Proof.
  intros [ ([n Hn] & ->) | (Hd & Hg & ->) ]; simpl;
    rewrite ?writes_app; simpl; split_and!; try reflexivity; try lia.
  - rewrite Hn. reflexivity.
  - rewrite Hd. apply lookup_insert_eq.
Qed.

Lemma writeUserSettings_some s p w :
  writeUserSettings (Some s) p w =
  bind (try_catch (fsAccess (path_dirname (resolved p w)))
                  (fun _ => fsMkdir (path_dirname (resolved p w))))
    (fun _ =>
       let* text := JSON_stringify true s in
       let* _ := fsWriteFile (resolved p w) text in
       let* text' := JSON_stringify false s in
       let* copy := JSON_parse text' in
       let* _ := update (with_settingsCache (Some copy)) in
       ret s) w.
Proof.
  unfold writeUserSettings. run_first (resolve_path_run p w).
  reflexivity.
Qed.

Lemma writeUserSettings_none p w :
  writeUserSettings None p w =
  writeUserSettings (Some (VRef (length (heap w)))) (Some (resolved p w))
    (with_heap (heap w ++ [CObj []]) w).
Proof.
  unfold writeUserSettings, bind. rewrite !resolve_path_run. reflexivity.
Qed.

(** After the folder is ready: serialise, write, cache a copy. *)
Lemma write_tail_run s path t w1 :
  reify_in (heap w1) s = Some t ->
  disk w1 !! path <> Some Dir ->
  disk w1 !! path_dirname path = Some Dir ->
  (let* text := JSON_stringify true s in
   let* _ := fsWriteFile path text in
   let* text' := JSON_stringify false s in
   let* copy := JSON_parse text' in
   let* _ := update (with_settingsCache (Some copy)) in
   ret s) w1 = (Returned s, written path t w1).
Proof.
  intros Hr Hp Hd.
  run_first (JSON_stringify_ok true s w1 t Hr).
  run_first (fsWriteFile_written path (JSON.stringify true t) w1 Hp Hd).
  run_first (JSON_stringify_ok false s
    (with_disk (<[path := File (JSON.stringify true t)]> (disk w1))
       (logged (FsWriteFile path (JSON.stringify true t)) w1)) t Hr).
  run_first (JSON_parse_ok (JSON.stringify false t) t
    (with_disk (<[path := File (JSON.stringify true t)]> (disk w1))
       (logged (FsWriteFile path (JSON.stringify true t)) w1))
    (JSONRoundTrip.parse_stringify false t)).
  reflexivity.
Qed.

Lemma write_tail_returned s path w1 r w' :
  (let* text := JSON_stringify true s in
   let* _ := fsWriteFile path text in
   let* text' := JSON_stringify false s in
   let* copy := JSON_parse text' in
   let* _ := update (with_settingsCache (Some copy)) in
   ret s) w1 = (Returned r, w') ->
  exists t,
    reify_in (heap w1) s = Some t /\
    disk w1 !! path <> Some Dir /\
    disk w1 !! path_dirname path = Some Dir /\
    r = s /\ w' = written path t w1.
Proof.
  intros Hrun. pose proof Hrun as Hfull.
  apply bind_returned in Hrun as (text & w2 & Hs & Hrun).
  apply JSON_stringify_returned in Hs as (-> & t & Hr & ->).
  apply bind_returned in Hrun as ([] & w3 & Hw & Hrun).
  apply fsWriteFile_returned in Hw as (Hp & Hd & ->).
  exists t. rewrite (write_tail_run s path t w1 Hr Hp Hd) in Hfull.
  injection Hfull as <- <-. auto.
Qed.

(** Every successful write went through these steps. *)
Lemma writeUserSettings_returned s p w r w' :
  writeUserSettings (Some s) p w = (Returned r, w') ->
  exists t w1,
    parent_ready (path_dirname (resolved p w)) w w1 /\
    reify_in (heap w) s = Some t /\
    disk w1 !! resolved p w <> Some Dir /\
    r = s /\ w' = written (resolved p w) t w1.
Proof.
  rewrite writeUserSettings_some. intros Hrun.
  apply bind_returned in Hrun as (u & w1 & Hparent & Htail).
  apply ensure_parent_returned in Hparent.
  apply write_tail_returned in Htail as (t & Hr & Hp & _ & -> & ->).
  destruct (parent_ready_heap _ _ _ Hparent) as (Hheap & _).
  rewrite Hheap in Hr. eauto 10.
Qed.

Lemma writeUserSettings_run s p w w1 t :
  parent_ready (path_dirname (resolved p w)) w w1 ->
  disk w1 !! path_dirname (resolved p w) = Some Dir ->
  disk w1 !! resolved p w <> Some Dir ->
  reify_in (heap w) s = Some t ->
  writeUserSettings (Some s) p w = (Returned s, written (resolved p w) t w1).
Proof.
  intros Hparent Hd Hp Hr. rewrite writeUserSettings_some.
  assert (Hrun : try_catch (fsAccess (path_dirname (resolved p w)))
                   (fun _ => fsMkdir (path_dirname (resolved p w))) w
                 = (Returned tt, w1)).
  { destruct Hparent as [ (Hsome & ->) | (Hnone & Hg & ->) ].
    - apply try_catch_run, fsAccess_found, Hsome.
    - rewrite (try_catch_fail _ _ _ _ _ (fsAccess_missing _ w Hnone)).
      exact (fsMkdir_created _ (logged (FsAccess _) w) Hnone Hg). }
  run_first Hrun. apply write_tail_run; [ | exact Hp | exact Hd ].
  destruct (parent_ready_heap _ _ _ Hparent) as (-> & _). exact Hr.
Qed.

(** [fs.mkdir] creates one level only. *)
Lemma writeUserSettings_no_grandparent s p w :
  disk w !! path_dirname (resolved p w) = None ->
  disk w !! path_dirname (path_dirname (resolved p w)) = None ->
  writeUserSettings (Some s) p w =
  (Thrown (SystemError "ENOENT" "mkdir" (path_dirname (resolved p w))),
   logged (FsMkdir (path_dirname (resolved p w)))
     (logged (FsAccess (path_dirname (resolved p w))) w)).
Proof.
  intros Hd Hg. rewrite writeUserSettings_some.
  apply bind_fail.
  rewrite (try_catch_fail _ _ _ _ _ (fsAccess_missing _ w Hd)).
  exact (fsMkdir_no_parent _ (logged (FsAccess _) w) Hd Hg).
Qed.

(** *** Loading *)

Lemma getUserSettings_cached p flag w c :
  settingsCache w = Some c -> flag <> Some true ->
  getUserSettings p flag w = (Returned (Some c), w).
Proof.
  intros Hc Hflag. unfold getUserSettings, bind, read. rewrite Hc. simpl.
  rewrite bool_decide_eq_false_2 by exact Hflag. reflexivity.
Qed.

Lemma getUserSettings_uncached p flag w :
  settingsCache w = None \/ flag = Some true ->
  getUserSettings p flag w = load_from_disk (resolved p w) w.
Proof.
  intros Hmiss. unfold getUserSettings. unfold bind at 1. unfold read at 1.
  cbv beta iota.
  assert (Hcond : defined (settingsCache w)
                  && negb (bool_decide (flag = Some true)) = false).
  { destruct Hmiss as [ -> | -> ]; [ reflexivity | ].
    rewrite bool_decide_eq_true_2 by reflexivity. apply andb_false_r. }
  rewrite Hcond.
  run_first (resolve_path_run p w).
  unfold load_from_disk.
  destruct (disk w !! resolved p w) as [ [ text | ] | ] eqn:Hd.
  - unfold bind at 1.
    rewrite (try_catch_run _ _ _ true (logged (FsAccess (resolved p w)) w))
      by (unfold bind; rewrite fsAccess_found by eauto; reflexivity).
    cbv beta iota. change (negb true) with false. cbv iota.
    run_first (fsReadFile_file (resolved p w)
                 (logged (FsAccess (resolved p w)) w) text Hd).
    destruct (JSON.parse text) as [ t | ] eqn:Hparse.
    + unfold bind at 1. unfold try_catch.
      run_first (JSON_parse_ok text t
        (logged (FsReadFile (resolved p w))
           (logged (FsAccess (resolved p w)) w)) Hparse).
      reflexivity.
    + unfold bind at 1. unfold try_catch. unfold bind at 1.
      rewrite (JSON_parse_invalid text _ Hparse). reflexivity.
  - unfold bind at 1.
    rewrite (try_catch_run _ _ _ true (logged (FsAccess (resolved p w)) w))
      by (unfold bind; rewrite fsAccess_found by eauto; reflexivity).
    cbv beta iota. change (negb true) with false. cbv iota.
    apply bind_fail.
    exact (fsReadFile_dir _ (logged (FsAccess _) w) Hd).
  - unfold bind at 1.
    rewrite (try_catch_fail _ _ _
               (SystemError "ENOENT" "access" (resolved p w))
               (logged (FsAccess (resolved p w)) w))
      by (apply bind_fail, fsAccess_missing, Hd).
    reflexivity.
Qed.

End store_facts.

(** ** What a load and a write leave untouched *)

Section frames.
Context `{Index} `{PathApi}.

Lemma alloc_extends t h :
  exists new, (alloc t h).2 = h ++ new /\ heap_wf new.
Proof.
  destruct (alloc t h) as [v h'] eqn:Ha.
  destruct (alloc_spec t h v h' Ha) as (new & -> & _ & Hwf & _).
  exists new. auto.
Qed.

(** A load never writes: it can only log its calls, allocate the parsed
    document and set the cache. *)
Lemma getUserSettings_frame p flag w r w' :
  getUserSettings p flag w = (r, w') ->
  disk w' = disk w /\ process w' = process w /\ entropy w' = entropy w /\
  entropy_pos w' = entropy_pos w /\ console w' = console w /\
  writes (fs_log w') = writes (fs_log w) /\
  (exists new, heap w' = heap w ++ new /\ heap_wf new) /\
  (forall v, r = Returned (Some v) -> settingsCache w' = Some v).
Proof.
  destruct (settingsCache w) as [ c | ] eqn:Hc;
    [ destruct (decide (flag = Some true)) as [ Hflag | Hflag ] | ].
  2: { rewrite (getUserSettings_cached p flag w c Hc Hflag).
       intros [= <- <-]. split_and!; try reflexivity.
       - exists []. rewrite app_nil_r. split; [ reflexivity | constructor ].
       - intros v [= <-]. exact Hc. }
  all: rewrite getUserSettings_uncached by auto; unfold load_from_disk;
    destruct (disk w !! resolved p w) as [ [ text | ] | ];
    [ destruct (JSON.parse text) as [ t | ] | | ];
    intros [= <- <-]; simpl; rewrite ?writes_app; simpl;
    (split_and!; try reflexivity; try lia;
     [ first [ apply alloc_extends
             | exists []; rewrite app_nil_r; split;
               [ reflexivity | constructor ] ]
     | intros v [= <-]; try reflexivity ]).
Qed.

Lemma alloc_members_get k s ms : forall h ps h',
  alloc_members alloc ms h = (ps, h') ->
  obj_get k ms = Some (JStr s) -> obj_get k ps = Some (VStr s).
Proof.
  induction ms as [ | [k0 x] ms IH ]; intros h ps h' Ha Hget;
    [ discriminate | ].
  simpl in Ha. destruct (alloc x h) as [v h1] eqn:Hv.
  destruct (alloc_members alloc ms h1) as [ps' h2] eqn:Hps.
  injection Ha as <- <-. simpl in *.
  destruct (decide (k = k0)) as [ -> | Hne ].
  - injection Hget as ->. simpl in Hv. injection Hv as <- _. reflexivity.
  - eapply IH; [ exact Hps | exact Hget ].
Qed.

Lemma alloc_members_keys ms : forall h ps h',
  alloc_members alloc ms h = (ps, h') -> ps.*1 = ms.*1.
Proof.
  induction ms as [ | [k0 x] ms IH ]; intros h ps h' Ha; simpl in Ha.
  - injection Ha as <- _. reflexivity.
  - destruct (alloc x h) as [v h1].
    destruct (alloc_members alloc ms h1) as [ps' h2] eqn:Hps.
    injection Ha as <- _. simpl. f_equal. eapply IH, Hps.
Qed.

Lemma alloc_object ms h ps h1 :
  alloc_members alloc ms h = (ps, h1) ->
  alloc (JObj ms) h = (VRef (length h1), h1 ++ [CObj (obj_of_entries ps)]).
Proof. intros Hps. simpl. rewrite Hps. reflexivity. Qed.

(** A string property of a freshly allocated object. *)
Lemma alloc_object_get k s ms h w :
  NoDup ms.*1 -> obj_get k ms = Some (JStr s) ->
  heap w = (alloc (JObj ms) h).2 ->
  get_property (alloc (JObj ms) h).1 k w = (Returned (Some (VStr s)), w).
Proof.
  intros Hnd Hget Hw.
  destruct (alloc_members alloc ms h) as [ps h1] eqn:Hps.
  rewrite (alloc_object ms h ps h1 Hps) in Hw |- *. simpl fst. simpl snd in Hw.
  rewrite (get_property_ref (length h1) k w (CObj (obj_of_entries ps))).
  - simpl. rewrite obj_of_entries_nodup
      by (rewrite (alloc_members_keys _ _ _ _ Hps); exact Hnd).
    rewrite (alloc_members_get k s ms _ _ _ Hps Hget). reflexivity.
  - rewrite Hw. rewrite lookup_app_r by lia.
    rewrite Nat.sub_diag. reflexivity.
Qed.
End frames.

Section write_effect.
Context `{Index} `{PathApi}.

(** What a successful write leaves behind, in short:
    the tree [t] of the document written, the cached copy [c], and the
    heap [heap w] extended by the cells of the copy. *)
Lemma writeUserSettings_effect s p w r w' :
  heap_wf (heap w) ->
  writeUserSettings (Some s) p w = (Returned r, w') ->
  exists t c new,
    r = s /\ reify_in (heap w) s = Some t /\ json_wf t /\
    settingsCache w' = Some c /\
    alloc t (heap w) = (c, heap w') /\
    heap w' = heap w ++ new /\ heap_wf new /\
    process w' = process w /\
    disk w' !! resolved p w = Some (File (JSON.stringify true t)) /\
    exists w1,
      parent_ready (path_dirname (resolved p w)) w w1 /\
      fs_log w' = fs_log w1
                  ++ [FsWriteFile (resolved p w) (JSON.stringify true t)].
Proof.
  intros Hwf Hrun.
  apply writeUserSettings_returned in Hrun
    as (t & w1 & Hparent & Hr & Hp & -> & ->).
  destruct (parent_ready_heap _ _ _ Hparent)
    as (Hheap & _ & Hproc & _ & _ & _ & _ & _).
  pose proof (reify_in_wf _ _ _ Hwf Hr) as Hwft.
  destruct (alloc t (heap w)) as [c h'] eqn:Ha.
  destruct (alloc_spec t (heap w) c h' Ha) as (new & -> & _ & Hnew & _).
  exists t, c, new. simpl. rewrite Hheap, Ha. simpl.
  split_and!; try reflexivity; try assumption.
  - apply lookup_insert_eq.
  - exists w1. split; [ exact Hparent | reflexivity ].
Qed.

End write_effect.

(** ** Property assignment, [Object.assign], key generation *)

Section key_facts.
Context `{Index} `{PathApi}.

Lemma set_property_returned v k x w u w' :
  set_property v k x w = (Returned u, w') ->
  exists l c,
    v = VRef l /\ heap w !! l = Some c /\
    w' = with_heap
           (<[l := cell_with_props c (obj_set k x (cell_props c))]> (heap w))
           w.
Proof.
  destruct v as [ | b | n | s | l ]; simpl; try discriminate.
  unfold bind, read.
  destruct (heap w !! l) as [ c | ] eqn:Hl; [ | discriminate ].
  intros [= <-]. exists l, c. auto.
Qed.


(** A string property of an object shows in its tree. *)
Lemma reify_members_get fuel h k s props ms :
  mapM (fun p => pair p.1 <$> reify fuel h p.2) props = Some ms ->
  obj_get k props = Some (VStr s) -> obj_get k ms = Some (JStr s).
Proof.
  intros Hm. apply mapM_Some in Hm.
  induction Hm as [ | [k0 v0] m ps ms' Hp _ IH ]; [ discriminate | ].
  simpl in Hp. apply fmap_Some in Hp as (x & Hx & ->). simpl.
  destruct (decide (k = k0)) as [ -> | Hne ]; [ | exact IH ].
  intros [= ->]. destruct fuel; simpl in Hx; congruence.
Qed.

Lemma reify_in_object h l props t :
  h !! l = Some (CObj props) -> reify_in h (VRef l) = Some t ->
  exists ms,
    t = JObj ms /\
    mapM (fun p => pair p.1 <$> reify (length h) h p.2) props = Some ms.
Proof.
  intros Hl Hr. unfold reify_in in Hr. rewrite reify_ref, Hl in Hr.
  apply fmap_Some in Hr as (ms & Hms & ->). eauto.
Qed.

Lemma randomBytes_run n w :
  randomBytes n w =
  (Returned (entropy w <$> seq (entropy_pos w) n),
   with_entropy_pos (entropy_pos w + n) w).
Proof. reflexivity. Qed.

Lemma console_log_run msg w :
  console_log msg w = (Returned tt, with_console (console w ++ [msg]) w).
Proof. reflexivity. Qed.

(** Every successful [generate_key] went through these steps. *)
Lemma generate_key_returned us path w r w' :
  generate_key us path w = (Returned r, w') ->
  exists l c,
    us = VRef l /\ heap w !! l = Some c /\ r = us /\
    writeUserSettings (Some us) (Some path)
      (with_console (console w ++ [generated_message path])
         (with_heap
            (<[l := cell_with_props c
                      (obj_set "encryptionKey" (VStr (fresh_key w))
                         (cell_props c))]> (heap w))
            (with_entropy_pos (entropy_pos w + 24) w)))
    = (Returned r, w').
Proof.
  unfold generate_key. run_first (randomBytes_run 24 w). intros Hrun.
  apply bind_returned in Hrun as (u & w2 & Hset & Hrun).
  apply set_property_returned in Hset as (l & c & -> & Hl & ->).
  unfold bind at 1 in Hrun. rewrite console_log_run in Hrun.
  cbv beta iota in Hrun.
  exists l, c. split_and!; [ reflexivity | exact Hl | | exact Hrun ].
  apply writeUserSettings_returned in Hrun as (t & w1 & _ & _ & _ & -> & _).
  reflexivity.
Qed.

(** [prepareUserSettings], by what the load returns. *)
Lemma prepareUserSettings_unfold w :
  prepareUserSettings w =
  match getUserSettings (Some (getUserSettingsPath (process w))) None w with
  | (Returned (Some us), w1) =>
      match get_property us "encryptionKey" w1 with
      | (Returned (Some _), w2) => (Returned us, w2)
      | (Returned None, w2) =>
          generate_key us (getUserSettingsPath (process w)) w2
      | (Thrown e, w2) => (Thrown e, w2)
      end
  | (Returned None, w1) =>
      generate_key (VRef (length (heap w1)))
        (getUserSettingsPath (process w))
        (with_heap (heap w1 ++ [CObj []]) w1)
  | (Thrown e, w1) => (Thrown e, w1)
  end.
Proof.
  unfold prepareUserSettings. run_first (resolve_path_run None w).
  unfold resolved. simpl default. unfold bind at 1.
  destruct (getUserSettings _ None w) as [[[us | ] | e] w1]; try reflexivity.
  unfold bind at 1.
  destruct (get_property us "encryptionKey" w1) as [[[key | ] | e] w2];
    reflexivity.
Qed.
End key_facts.

Section provisioning_facts.
Context `{Index} `{PathApi}.


(** A successful [generate_key] on a plain object: the object and the
    cached copy both carry the new key, and one file was written. *)
Lemma generate_key_effect us path w r w' :
  heap_wf (heap w) ->
  generate_key us path w = (Returned r, w') ->
  plain_object (heap w') r ->
  exists c0,
    r = us /\ settingsCache w' = Some c0 /\
    get_property r "encryptionKey" w'
    = (Returned (Some (VStr (fresh_key w))), w') /\
    get_property c0 "encryptionKey" w'
    = (Returned (Some (VStr (fresh_key w))), w') /\
    writes (fs_log w') = S (writes (fs_log w)).
Proof.
  intros Hwf Hrun Hplain.
  apply generate_key_returned in Hrun as (l & c & -> & Hl & -> & Hrun).
  pose proof (lookup_lt_Some _ _ _ Hl) as Hlt.
  pose proof (Forall_lookup_1 _ _ _ _ Hwf Hl) as Hc.
  match type of Hrun with
  | writeUserSettings _ _ ?x = _ => set (w0 := x) in *
  end.
  assert (Hwf0 : heap_wf (heap w0)).
  { simpl. apply heap_wf_insert; [ exact Hwf | ].
    destruct c; simpl in *; apply obj_set_NoDup, Hc. }
  assert (Hl0 : heap w0 !! l
                = Some (cell_with_props c
                          (obj_set "encryptionKey" (VStr (fresh_key w))
                             (cell_props c)))).
  { simpl. apply list_lookup_insert_eq. exact Hlt. }
  destruct (writeUserSettings_effect _ _ w0 _ w' Hwf0 Hrun)
    as (t & c0 & new & _ & Hr & Hwft & Hcache & Ha & Hheap & _ & _ & _
        & w1 & Hparent & Hlog).
  assert (Hl' : heap w' !! l = heap w0 !! l).
  { rewrite Hheap. apply lookup_app_l. simpl. rewrite length_insert.
    exact Hlt. }
  destruct Hplain as (l' & props & [= <-] & Hprops).
  rewrite Hl', Hl0 in Hprops.
  destruct c as [ P0 | elems P0 ]; [ | discriminate ].
  simpl in Hprops, Hl0. injection Hprops as <-.
  exists c0. split_and!; [ reflexivity | exact Hcache | | | ].
  - rewrite (get_property_ref l _ w' _ (eq_trans Hl' Hl0)). simpl.
    rewrite obj_get_set_eq. reflexivity.
  - destruct (reify_in_object _ _ _ _ Hl0 Hr) as (ms & -> & Hms).
    inversion Hwft as [ | | | | | ms' Hnd _ ]; subst ms'.
    replace c0 with (alloc (JObj ms) (heap w0)).1 by (rewrite Ha; reflexivity).
    apply alloc_object_get; [ exact Hnd | | rewrite Ha; reflexivity ].
    eapply reify_members_get; [ exact Hms | apply obj_get_set_eq ].
  - rewrite Hlog, writes_app. simpl.
    destruct (parent_ready_heap _ _ _ Hparent)
      as (_ & _ & _ & _ & _ & _ & -> & _).
    simpl. lia.
Qed.
End provisioning_facts.

Section merge_facts.
Context `{Index} `{PathApi}.

End merge_facts.

(** ** The heap stays well formed

    Every function of the module keeps the keys of every object distinct,
    so [heap_wf] is an invariant of the store. *)

Section heap_invariant.
Context `{Index} `{PathApi}.

Lemma keeps_ret {A} (a : A) : keeps_heap_wf (ret a).
Proof. intros w r w' Hwf [= _ <-]. exact Hwf. Qed.

Lemma keeps_throw {A} e : keeps_heap_wf (@throw A e).
Proof. intros w r w' Hwf [= _ <-]. exact Hwf. Qed.

Lemma keeps_read {A} (f : World -> A) : keeps_heap_wf (read f).
Proof. intros w r w' Hwf [= _ <-]. exact Hwf. Qed.

Lemma keeps_update f :
  (forall w, heap_wf (heap w) -> heap_wf (heap (f w))) ->
  keeps_heap_wf (update f).
Proof. intros Hf w r w' Hwf [= _ <-]. apply Hf, Hwf. Qed.

Lemma keeps_bind {A B} (m : M A) (k : A -> M B) :
  keeps_heap_wf m -> (forall a, keeps_heap_wf (k a)) ->
  keeps_heap_wf (bind m k).
Proof.
  intros Hm Hk w r w' Hwf. unfold bind.
  destruct (m w) as [[a | e] w1] eqn:Hrun.
  - apply (Hk a). exact (Hm _ _ _ Hwf Hrun).
  - intros [= _ <-]. exact (Hm _ _ _ Hwf Hrun).
Qed.

Lemma keeps_try_catch {A} (m : M A) handler :
  keeps_heap_wf m -> (forall e, keeps_heap_wf (handler e)) ->
  keeps_heap_wf (try_catch m handler).
Proof.
  intros Hm Hh w r w' Hwf. unfold try_catch.
  destruct (m w) as [[a | e] w1] eqn:Hrun.
  - intros [= _ <-]. exact (Hm _ _ _ Hwf Hrun).
  - apply (Hh e). exact (Hm _ _ _ Hwf Hrun).
Qed.

Lemma keeps_new_object : keeps_heap_wf new_object.
Proof.
  intros w r w' Hwf [= _ <-]. simpl. apply heap_wf_app; [ exact Hwf | ].
  constructor; [ simpl; constructor | constructor ].
Qed.

Lemma keeps_get_property v k : keeps_heap_wf (get_property v k).
Proof.
  intros w r w' Hwf Hrun.
  rewrite (get_property_world _ _ _ _ _ Hrun). exact Hwf.
Qed.

Lemma keeps_set_property v k x : keeps_heap_wf (set_property v k x).
Proof.
  destruct v as [ | b | n | s | l ]; simpl; try apply keeps_throw.
  intros w r w' Hwf. unfold bind, read.
  destruct (heap w !! l) as [ c | ] eqn:Hl; intros [= _ <-]; [ | exact Hwf ].
  simpl. apply heap_wf_insert; [ exact Hwf | ].
  pose proof (Forall_lookup_1 _ _ _ _ Hwf Hl) as Hc.
  destruct c; simpl in *; apply obj_set_NoDup, Hc.
Qed.

Lemma own_properties_world source w r w' :
  own_properties source w = (r, w') -> w' = w.
Proof.
  destruct source as [ | b | n | s | l ]; simpl;
    try (intros [= _ <-]; reflexivity).
  unfold bind, read.
  destruct (heap w !! l) as [ [ props | elems props ] | ];
    intros [= _ <-]; reflexivity.
Qed.

Lemma keeps_Object_assign target source :
  keeps_heap_wf (Object_assign target source).
Proof.
  destruct target as [ | b | n | s | l ]; simpl; try apply keeps_throw.
  1-2: apply keeps_bind; [ | intros a; apply keeps_ret ];
    intros w r w' Hwf Hrun;
    rewrite (own_properties_world _ _ _ _ Hrun); exact Hwf.
  intros w r w' Hwf. unfold bind at 1.
  destruct (own_properties source w) as [[props | e] w1] eqn:Hown;
    pose proof (own_properties_world _ _ _ _ Hown) as ->;
    [ | intros [= _ <-]; exact Hwf ].
  unfold bind, read.
  destruct (heap w !! l) as [ [ tprops | elems tprops ] | ] eqn:Hl;
    intros [= _ <-]; try exact Hwf.
  simpl. apply heap_wf_insert; [ exact Hwf | ].
  pose proof (Forall_lookup_1 _ _ _ _ Hwf Hl) as Hc.
  simpl in *. apply obj_assign_NoDup, Hc.
Qed.

Lemma keeps_JSON_stringify gap v : keeps_heap_wf (JSON_stringify gap v).
Proof.
  intros w r w' Hwf. unfold JSON_stringify, bind, read.
  destruct (reify_in (heap w) v); intros [= _ <-]; exact Hwf.
Qed.

Lemma keeps_JSON_parse text : keeps_heap_wf (JSON_parse text).
Proof.
  intros w r w' Hwf. unfold JSON_parse.
  destruct (JSON.parse text) as [ t | ]; [ | intros [= _ <-]; exact Hwf ].
  destruct (alloc_extends t (heap w)) as (new & Hnew & Hwfn).
  destruct (alloc t (heap w)) as [v h']. intros [= _ <-].
  simpl in *. rewrite Hnew. apply heap_wf_app; assumption.
Qed.

Lemma keeps_randomBytes n : keeps_heap_wf (randomBytes n).
Proof. intros w r w' Hwf [= _ <-]. exact Hwf. Qed.

Lemma keeps_console_log msg : keeps_heap_wf (console_log msg).
Proof. apply keeps_update. auto. Qed.

Lemma keeps_log_call c : keeps_heap_wf (log_call c).
Proof. apply keeps_update. auto. Qed.

Lemma keeps_fsAccess p : keeps_heap_wf (fsAccess p).
Proof.
  apply keeps_bind; [ apply keeps_log_call | ]. intros _ w r w' Hwf.
  unfold bind, read. destruct (disk w !! p); intros [= _ <-]; exact Hwf.
Qed.

Lemma keeps_fsReadFile p : keeps_heap_wf (fsReadFile p).
Proof.
  apply keeps_bind; [ apply keeps_log_call | ]. intros _ w r w' Hwf.
  unfold bind, read.
  destruct (disk w !! p) as [ [ c | ] | ]; intros [= _ <-]; exact Hwf.
Qed.

Lemma keeps_fsMkdir p : keeps_heap_wf (fsMkdir p).
Proof.
  apply keeps_bind; [ apply keeps_log_call | ]. intros _ w r w' Hwf.
  unfold bind, read. destruct (disk w !! p); [ intros [= _ <-]; exact Hwf | ].
  destruct (disk w !! path_dirname p) as [ [ c | ] | ];
    intros [= _ <-]; exact Hwf.
Qed.

Lemma keeps_fsWriteFile p data : keeps_heap_wf (fsWriteFile p data).
Proof.
  apply keeps_bind; [ apply keeps_log_call | ]. intros _ w r w' Hwf.
  unfold bind, read.
  destruct (disk w !! p) as [ [ c | ] | ];
    destruct (disk w !! path_dirname p) as [ [ c' | ] | ];
    intros [= _ <-]; exact Hwf.
Qed.

Lemma keeps_resolve_path p : keeps_heap_wf (resolve_path p).
Proof. destruct p; [ apply keeps_ret | apply keeps_read ]. Qed.

Lemma keeps_getUserSettings p flag : keeps_heap_wf (getUserSettings p flag).
Proof.
  intros w r w' Hwf Hrun.
  destruct (getUserSettings_frame _ _ _ _ _ Hrun)
    as (_ & _ & _ & _ & _ & _ & (new & -> & Hnew) & _).
  apply heap_wf_app; assumption.
Qed.

Lemma keeps_writeUserSettings s p : keeps_heap_wf (writeUserSettings s p).
Proof.
  unfold writeUserSettings.
  apply keeps_bind; [ apply keeps_resolve_path | intros path ].
  apply keeps_bind;
    [ destruct s; [ apply keeps_ret | apply keeps_new_object ] | intros us ].
  apply keeps_bind;
    [ apply keeps_try_catch;
        [ apply keeps_fsAccess | intros e; apply keeps_fsMkdir ]
    | intros _ ].
  apply keeps_bind; [ apply keeps_JSON_stringify | intros text ].
  apply keeps_bind; [ apply keeps_fsWriteFile | intros _ ].
  apply keeps_bind; [ apply keeps_JSON_stringify | intros text' ].
  apply keeps_bind; [ apply keeps_JSON_parse | intros copy ].
  apply keeps_bind; [ apply keeps_update; auto | intros _ ].
  apply keeps_ret.
Qed.

Lemma keeps_addToUserSettings add p :
  keeps_heap_wf (addToUserSettings add p).
Proof.
  unfold addToUserSettings.
  apply keeps_bind; [ apply keeps_resolve_path | intros path ].
  apply keeps_bind; [ apply keeps_getUserSettings | intros loaded ].
  apply keeps_bind;
    [ destruct loaded; [ apply keeps_ret | apply keeps_new_object ]
    | intros us ].
  apply keeps_bind; [ apply keeps_Object_assign | intros _ ].
  apply keeps_writeUserSettings.
Qed.

Lemma keeps_generate_key us path : keeps_heap_wf (generate_key us path).
Proof.
  unfold generate_key.
  apply keeps_bind; [ apply keeps_randomBytes | intros bytes ].
  apply keeps_bind; [ apply keeps_set_property | intros _ ].
  apply keeps_bind; [ apply keeps_console_log | intros _ ].
  apply keeps_writeUserSettings.
Qed.

Lemma keeps_prepareUserSettings : keeps_heap_wf prepareUserSettings.
Proof.
  unfold prepareUserSettings.
  apply keeps_bind; [ apply keeps_resolve_path | intros path ].
  apply keeps_bind; [ apply keeps_getUserSettings | intros loaded ].
  destruct loaded as [ us | ].
  - apply keeps_bind; [ apply keeps_get_property | intros [ key | ] ];
      [ apply keeps_ret | apply keeps_generate_key ].
  - apply keeps_bind; [ apply keeps_new_object | intros us ].
    apply keeps_generate_key.
Qed.

Lemma keeps_getEncryptionKey : keeps_heap_wf getEncryptionKey.
Proof.
  unfold getEncryptionKey.
  apply keeps_bind; [ apply keeps_read | intros proc ].
  destruct (env proc !! ENCRYPTION_KEY_ENV_OVERWRITE);
    [ apply keeps_ret | ].
  apply keeps_bind; [ apply keeps_getUserSettings | intros [ s | ] ];
    [ apply keeps_get_property | apply keeps_ret ].
Qed.
End heap_invariant.

(** ** The claims about the store *)

Section path_claims.
Context `{Index} `{PathApi}.

(** C1, as the code has it: the data-folder override stands in for the home
    folder.  When the override variable is set, [getUserN8nFolderPath]
    returns the override joined with the fixed subfolder; when it is unset,
    [getUserHome] joined with the same subfolder. *)
Theorem getUserN8nFolderPath_override_joined (proc : Process) :
  (forall folder,
     env proc !! USER_FOLDER_ENV_OVERWRITE = Some folder ->
     getUserN8nFolderPath proc = path_join folder USER_SETTINGS_SUBFOLDER) /\
  (env proc !! USER_FOLDER_ENV_OVERWRITE = None ->
   getUserN8nFolderPath proc
   = path_join (getUserHome proc) USER_SETTINGS_SUBFOLDER).
Proof.
  unfold getUserN8nFolderPath. split.
  - intros folder ->. reflexivity.
  - intros ->. reflexivity.
Qed.
End path_claims.

(** With the override set to [/data], the folder is [/data/.n8n]. *)
Lemma getUserN8nFolderPath_override_joined_witness :
  @getUserN8nFolderPath example_index posix
    {| env := {[ "N8N_USER_FOLDER" := "/data"; "HOME" := "/home/u" ]};
       platform := "linux"; cwd := "/" |}
  = "/data/.n8n".
Proof.
  rewrite (proj1 (@getUserN8nFolderPath_override_joined example_index posix _)
             "/data"); [ reflexivity | ].
  vm_compute. reflexivity.
Defined.

(** C1 as stated does not hold: with the override set, the value returned is
    not the override itself. *)
Lemma getUserN8nFolderPath_override_not_verbatim :
  ~ (forall (proc : Process) (folder : string),
       env proc !! (@USER_FOLDER_ENV_OVERWRITE example_index) = Some folder ->
       @getUserN8nFolderPath example_index posix proc = folder).
Proof.
  intros Hclaim.
  specialize (Hclaim
    {| env := {[ "N8N_USER_FOLDER" := "/data"; "HOME" := "/home/u" ]};
       platform := "linux"; cwd := "/" |} "/data").
  vm_compute in Hclaim. specialize (Hclaim eq_refl). discriminate Hclaim.
Qed.

Section store_claims.
Context `{Index} `{PathApi}.



(** C8: [writeUserSettings] creates a missing parent folder, one level
    only.  When the folder of the settings path is missing, the write
    succeeds if the folder above it exists (the folder is created and the
    file written), and fails if the folder above it is missing too. *)
Theorem writeUserSettings_one_level_mkdir s p w t :
  disk w !! path_dirname (resolved p w) = None ->
  disk w !! resolved p w = None ->
  reify_in (heap w) s = Some t ->
  (disk w !! path_dirname (path_dirname (resolved p w)) = Some Dir ->
   exists w',
     writeUserSettings (Some s) p w = (Returned s, w') /\
     disk w' !! path_dirname (resolved p w) = Some Dir /\
     disk w' !! resolved p w = Some (File (JSON.stringify true t))) /\
  (disk w !! path_dirname (path_dirname (resolved p w)) = None ->
   exists e w',
     writeUserSettings (Some s) p w = (Thrown e, w') /\
     disk w' = disk w).
Proof.
  intros Hd Hp Hr. split; intros Hg.
  - assert (Hne : path_dirname (resolved p w) <> resolved p w).
    { intros Heq. rewrite Heq in Hg, Hd. rewrite Heq in Hg. congruence. }
    exists (written (resolved p w) t
              (with_disk (<[path_dirname (resolved p w) := Dir]> (disk w))
                 (logged (FsMkdir (path_dirname (resolved p w)))
                    (logged (FsAccess (path_dirname (resolved p w))) w)))).
    split.
    + apply writeUserSettings_run;
        [ right; split_and!; [ exact Hd | exact Hg | reflexivity ]
        | simpl; apply lookup_insert_eq
        | simpl; rewrite lookup_insert_ne by exact Hne; congruence
        | exact Hr ].
    + simpl. split; [ | apply lookup_insert_eq ].
      rewrite lookup_insert_ne by congruence. apply lookup_insert_eq.
  - rewrite (writeUserSettings_no_grandparent s p w Hd Hg).
    eexists _, _. split; reflexivity.
Qed.

(** C6: when the encryption-key override variable is set,
    [getEncryptionKey] returns its value and leaves the world as it was:
    no call to [fs], no change of the cache, the heap or the disk.  So
    with a key [Y] persisted on disk, a load that bypasses the cache still
    shows [Y] afterwards. *)
Theorem getEncryptionKey_override_frame w X :
  env (process w) !! ENCRYPTION_KEY_ENV_OVERWRITE = Some X ->
  getEncryptionKey w = (Returned (Some (VStr X)), w) /\
  forall p text ms Y,
    disk w !! resolved p w = Some (File text) ->
    JSON.parse text = Some (JObj ms) -> NoDup ms.*1 ->
    obj_get "encryptionKey" ms = Some (JStr Y) ->
    exists v w2,
      getUserSettings p (Some true) (getEncryptionKey w).2
      = (Returned (Some v), w2) /\
      get_property v "encryptionKey" w2 = (Returned (Some (VStr Y)), w2).
Proof.
  intros Henv.
  assert (Hrun : getEncryptionKey w = (Returned (Some (VStr X)), w)).
  { unfold getEncryptionKey, bind, read. rewrite Henv. reflexivity. }
  split; [ exact Hrun | ].
  intros p text ms Y Hfile Hparse Hnd Hkey. rewrite Hrun. simpl.
  rewrite getUserSettings_uncached by auto. unfold load_from_disk.
  rewrite Hfile, Hparse. eexists _, _. split; [ reflexivity | ].
  apply alloc_object_get; [ exact Hnd | exact Hkey | reflexivity ].
Qed.

End store_claims.

Section cache_claims.
Context `{Index} `{PathApi}.

(** C5: after a successful write of the document [s], a load that does not
    bypass the cache returns the cached copy, whose tree is the tree of
    [s] as it was written, and it leaves the world as it was: no call to
    [fs] is made. *)
Theorem writeUserSettings_then_cached_load s p w r w' p' flag :
  heap_wf (heap w) ->
  writeUserSettings (Some s) p w = (Returned r, w') ->
  flag <> Some true ->
  exists c t,
    getUserSettings p' flag w' = (Returned (Some c), w') /\
    reify_in (heap w') c = Some t /\
    reify_in (heap w) s = Some t /\
    fs_log (getUserSettings p' flag w').2 = fs_log w'.
Proof.
  intros Hwf Hrun Hflag.
  destruct (writeUserSettings_effect s p w r w' Hwf Hrun)
    as (t & c & new & -> & Hr & Hwft & Hcache & Ha & _).
  exists c, t.
  rewrite (getUserSettings_cached p' flag w' c Hcache Hflag).
  split_and!; [ reflexivity | | exact Hr | reflexivity ].
  destruct (alloc_copy t (heap w) c (heap w') Hwft Ha)
    as (new' & _ & _ & Hc & _).
  exact Hc.
Qed.


(** C9: a successful write sets the cache, whatever it held, to a deep
    copy of the document written.  The copy has the tree of the document
    and lives in cells allocated by the write: in every later heap that
    keeps those cells, however the cells that existed before (the caller's
    object among them) were changed, the cached document is the same. *)
Theorem writeUserSettings_caches_deep_copy s p w r w' :
  heap_wf (heap w) ->
  writeUserSettings (Some s) p w = (Returned r, w') ->
  exists c t,
    settingsCache w' = Some c /\
    reify_in (heap w) s = Some t /\
    reify_in (heap w') c = Some t /\
    forall h2,
      length (heap w') <= length h2 ->
      (forall l, length (heap w) <= l < length (heap w') ->
                 h2 !! l = heap w' !! l) ->
      reify_in h2 c = Some t.
Proof.
  intros Hwf Hrun.
  destruct (writeUserSettings_effect s p w r w' Hwf Hrun)
    as (t & c & new & -> & Hr & Hwft & Hcache & Ha & _).
  destruct (alloc_copy t (heap w) c (heap w') Hwft Ha)
    as (new' & _ & _ & Hc & Hframe).
  exists c, t.
  split_and!; [ exact Hcache | exact Hr | exact Hc | exact Hframe ].
Qed.

End cache_claims.

Section provisioning_claims.
Context `{Index} `{PathApi}.


End provisioning_claims.


(** ** The claims on the worked examples *)

Lemma merge_example_heap_wf : heap_wf (heap merge_example_world).
Proof. unfold heap_wf. by_evaluation. Defined.



Lemma written_example_run :
  @writeUserSettings example_index posix (Some (VRef 0)) None
    merge_example_world
  = (Returned (VRef 0), written_example_world).
Proof. vm_compute. reflexivity. Defined.


(** C5 on the scenario: [{a:1}] is written, then loaded from the cache. *)
Lemma writeUserSettings_then_cached_load_witness :
  exists c t,
    @getUserSettings example_index posix None None written_example_world
    = (Returned (Some c), written_example_world) /\
    reify_in (heap written_example_world) c = Some t /\
    reify_in (heap merge_example_world) (VRef 0) = Some t /\
    fs_log (@getUserSettings example_index posix None None
              written_example_world).2
    = fs_log written_example_world.
Proof.
  apply (@writeUserSettings_then_cached_load example_index posix (VRef 0) None
           merge_example_world (VRef 0) written_example_world None None
           merge_example_heap_wf written_example_run).
  discriminate.
Defined.

(** C9 on the scenario: the cache after [{a:1}] is written. *)
Lemma writeUserSettings_caches_deep_copy_witness :
  exists c t,
    settingsCache written_example_world = Some c /\
    reify_in (heap merge_example_world) (VRef 0) = Some t /\
    reify_in (heap written_example_world) c = Some t /\
    forall h2,
      length (heap written_example_world) <= length h2 ->
      (forall l,
         length (heap merge_example_world) <= l
         < length (heap written_example_world) ->
         h2 !! l = heap written_example_world !! l) ->
      reify_in h2 c = Some t.
Proof.
  exact (@writeUserSettings_caches_deep_copy example_index posix (VRef 0) None
           merge_example_world (VRef 0) written_example_world
           merge_example_heap_wf written_example_run).
Defined.

(** C6 on a store with the key [Y] on disk and the override [X]. *)
Lemma getEncryptionKey_override_frame_witness :
  @getEncryptionKey example_index posix override_example_world
  = (Returned (Some (VStr "X")), override_example_world) /\
  exists v w2,
    @getUserSettings example_index posix None (Some true)
      (@getEncryptionKey example_index posix override_example_world).2
    = (Returned (Some v), w2) /\
    get_property v "encryptionKey" w2 = (Returned (Some (VStr "Y")), w2).
Proof.
  destruct (@getEncryptionKey_override_frame example_index posix
              override_example_world "X") as [Hkey Hload].
  - vm_compute. reflexivity.
  - split; [ exact Hkey | ].
    apply (Hload None
             (JSON.stringify true (JObj [("encryptionKey", JStr "Y")]))
             [("encryptionKey", JStr "Y")] "Y").
    + vm_compute. reflexivity.
    + vm_compute. reflexivity.
    + by_evaluation.
    + vm_compute. reflexivity.
Defined.



(** C8 on the scenario: the default path needs [/home/u/.n8n], which is
    created; the path [/x/y/config] needs [/x/y] and [/x], and the write
    fails. *)
Lemma writeUserSettings_one_level_mkdir_witness :
  (exists w',
     @writeUserSettings example_index posix (Some (VRef 0)) None
       merge_example_world = (Returned (VRef 0), w') /\
     disk w' !! "/home/u/.n8n" = Some Dir /\
     disk w' !! "/home/u/.n8n/config"
     = Some (File (JSON.stringify true (JObj [("a", JNum 1)])))) /\
  (exists e w',
     @writeUserSettings example_index posix (Some (VRef 0))
       (Some "/x/y/config") merge_example_world = (Thrown e, w') /\
     disk w' = disk merge_example_world).
Proof.
  split.
  - apply (proj1 (@writeUserSettings_one_level_mkdir example_index posix
                    (VRef 0) None merge_example_world
                    (JObj [("a", JNum 1)])
                    ltac:(vm_compute; reflexivity)
                    ltac:(vm_compute; reflexivity)
                    ltac:(vm_compute; reflexivity))).
    vm_compute. reflexivity.
  - apply (proj2 (@writeUserSettings_one_level_mkdir example_index posix
                    (VRef 0) (Some "/x/y/config") merge_example_world
                    (JObj [("a", JNum 1)])
                    ltac:(vm_compute; reflexivity)
                    ltac:(vm_compute; reflexivity)
                    ltac:(vm_compute; reflexivity))).
    vm_compute. reflexivity.
Defined.

(** * Further properties of the store

    ** Loading *)

Section load_properties.
Context `{Index} `{PathApi}.

(** X1: when a load goes to the disk (the cache is empty or bypassed) and
    nothing exists at the resolved path, the result is [undefined].  The
    only effect is one call of [fs.access]: the file is not read, and the
    cache keeps what it held. *)
Theorem getUserSettings_missing_file p flag w :
  settingsCache w = None \/ flag = Some true ->
  disk w !! resolved p w = None ->
  getUserSettings p flag w
  = (Returned None, logged (FsAccess (resolved p w)) w) /\
  settingsCache (getUserSettings p flag w).2 = settingsCache w.
Proof.
  intros Hmiss Hnone.
  rewrite (getUserSettings_uncached p flag w Hmiss). unfold load_from_disk.
  rewrite Hnone. split; reflexivity.
Qed.


(** X3: a load is read-only, whatever it returns or throws.  The disk, the
    environment, the random source and the console are as before; the
    calls made to [fs] are none, one [fs.access], or one [fs.access] and one
    [fs.readFile], of the resolved path; and no object that existed before
    is changed. *)
Theorem getUserSettings_read_only p flag w r w' :
  getUserSettings p flag w = (r, w') ->
  disk w' = disk w /\ process w' = process w /\
  entropy_pos w' = entropy_pos w /\ console w' = console w /\
  (fs_log w' = fs_log w \/
   fs_log w' = fs_log w ++ [FsAccess (resolved p w)] \/
   fs_log w' = fs_log w ++ [FsAccess (resolved p w);
                            FsReadFile (resolved p w)]) /\
  forall l c, heap w !! l = Some c -> heap w' !! l = Some c.
Proof.
  intros Hrun.
  destruct (getUserSettings_frame p flag w r w' Hrun)
    as (Hdisk & Hproc & _ & Hpos & Hcon & _ & (new & Hheap & _) & _).
  split_and!; try assumption.
  - destruct (settingsCache w) as [ c | ] eqn:Hc;
      [ destruct (decide (flag = Some true)) as [ Hflag | Hflag ] | ].
    2: { rewrite (getUserSettings_cached p flag w c Hc Hflag) in Hrun.
         injection Hrun as _ <-. left. reflexivity. }
    all: rewrite getUserSettings_uncached in Hrun by auto;
      unfold load_from_disk in Hrun;
      destruct (disk w !! resolved p w) as [ [ text | ] | ];
      [ destruct (JSON.parse text) as [ t | ] | | ];
      injection Hrun as _ <-; simpl; rewrite <- ?app_assoc; auto.
  - intros l c Hl. rewrite Hheap. apply lookup_app_l_Some. exact Hl.
Qed.

(** X4: the document a load returns is the cached object itself, not a
    copy of it.  A property the caller then assigns on it is a property of
    the document every later load returns from the cache. *)
Theorem getUserSettings_returns_cached_object p flag w v w1 k x w2 p' flag' :
  getUserSettings p flag w = (Returned (Some v), w1) ->
  set_property v k x w1 = (Returned tt, w2) ->
  flag' <> Some true ->
  settingsCache w1 = Some v /\
  getUserSettings p' flag' w2 = (Returned (Some v), w2) /\
  get_property v k w2 = (Returned (Some x), w2).
Proof.
  intros Hload Hset Hflag.
  destruct (getUserSettings_frame p flag w _ w1 Hload)
    as (_ & _ & _ & _ & _ & _ & _ & Hcache).
  specialize (Hcache v eq_refl).
  apply set_property_returned in Hset as (l & c & -> & Hl & ->).
  split_and!; [ exact Hcache | | ].
  - apply getUserSettings_cached; [ exact Hcache | exact Hflag ].
  - erewrite get_property_ref;
      [ | simpl; apply list_lookup_insert_eq; eapply lookup_lt_Some, Hl ].
    destruct c; simpl; rewrite obj_get_set_eq; reflexivity.
Qed.

(** X5: when the resolved path names a directory, the error of
    [fs.readFile] leaves the load as [fs] threw it: it is not turned into
    the parse error, and the cache, the heap and the disk are as before. *)
Theorem getUserSettings_directory p flag w :
  settingsCache w = None \/ flag = Some true ->
  disk w !! resolved p w = Some Dir ->
  getUserSettings p flag w
  = (Thrown (SystemError "EISDIR" "read" (resolved p w)),
     logged (FsReadFile (resolved p w)) (logged (FsAccess (resolved p w)) w)).
Proof.
  intros Hmiss Hdir.
  rewrite (getUserSettings_uncached p flag w Hmiss). unfold load_from_disk.
  rewrite Hdir. reflexivity.
Qed.

End load_properties.

(** ** Writing *)

Section write_facts.
Context `{Index} `{PathApi}.

Lemma ensure_parent_thrown d w e w1 :
  try_catch (fsAccess d) (fun _ => fsMkdir d) w = (Thrown e, w1) ->
  disk w !! d = None /\ disk w !! path_dirname d <> Some Dir /\
  w1 = logged (FsMkdir d) (logged (FsAccess d) w).
Proof.
  destruct (disk w !! d) as [ n | ] eqn:Hd.
  - rewrite (try_catch_run _ _ _ _ _ (fsAccess_found d w (mk_is_Some _ _ Hd))).
    discriminate.
  - rewrite (try_catch_fail _ _ _ _ _ (fsAccess_missing d w Hd)).
    unfold fsMkdir, bind, log_call, update, read, throw. simpl. rewrite Hd.
    destruct (disk w !! path_dirname d) as [ [ c | ] | ];
      intros [= <- <-]; split_and!; try reflexivity; discriminate.
Qed.

(** A write that throws after the folder was dealt with has written no
    file and has not touched the cache. *)
Lemma write_tail_thrown s path w1 e w' :
  (let* text := JSON_stringify true s in
   let* _ := fsWriteFile path text in
   let* text' := JSON_stringify false s in
   let* copy := JSON_parse text' in
   let* _ := update (with_settingsCache (Some copy)) in
   ret s) w1 = (Thrown e, w') ->
  disk w' = disk w1 /\ heap w' = heap w1 /\
  settingsCache w' = settingsCache w1 /\
  (reify_in (heap w1) s = None /\ w' = w1 /\
   e = TypeError "Converting circular structure to JSON" \/
   exists t, reify_in (heap w1) s = Some t /\
     w' = logged (FsWriteFile path (JSON.stringify true t)) w1 /\
     (disk w1 !! path = Some Dir \/ disk w1 !! path_dirname path <> Some Dir)).
Proof.
  destruct (reify_in (heap w1) s) as [ t | ] eqn:Hr.
  - destruct (disk w1 !! path) as [ [ c | ] | ] eqn:Hp;
      destruct (disk w1 !! path_dirname path) as [ [ c' | ] | ] eqn:Hd;
      try (rewrite (write_tail_run s path t w1 Hr) by congruence;
           discriminate);
      run_first (JSON_stringify_ok true s w1 t Hr);
      unfold bind at 1;
      unfold fsWriteFile, bind, log_call, update, read, throw; simpl;
      rewrite Hp, ?Hd; intros [= <- <-]; split_and!; try reflexivity;
      right; exists t; split_and!; try reflexivity;
      first [ left; reflexivity | right; discriminate ].
  - unfold bind at 1. unfold JSON_stringify, bind, read, throw. simpl.
    rewrite Hr. intros [= <- <-]. split_and!; try reflexivity. left. auto.
Qed.

(** What a write that throws leaves behind. *)
Lemma writeUserSettings_thrown s p w e w' :
  writeUserSettings (Some s) p w = (Thrown e, w') ->
  heap w' = heap w /\ settingsCache w' = settingsCache w /\
  process w' = process w /\ entropy_pos w' = entropy_pos w /\
  console w' = console w /\
  (disk w' = disk w \/
   disk w !! path_dirname (resolved p w) = None /\
   disk w' = <[path_dirname (resolved p w) := Dir]> (disk w)).
Proof.
  rewrite writeUserSettings_some. unfold bind at 1.
  destruct (try_catch _ _ w) as [[ u | e1 ] w1] eqn:Hpar.
  - intros Htail.
    destruct (write_tail_thrown _ _ _ _ _ Htail) as (Hd & Hh & Hc & Hw).
    apply ensure_parent_returned in Hpar.
    rewrite Hd, Hh, Hc.
    assert (Hrest : process w' = process w1 /\
                    entropy_pos w' = entropy_pos w1 /\ console w' = console w1)
      by (destruct Hw as [ (_ & -> & _) | (t & _ & -> & _) ]; auto).
    destruct Hrest as (-> & -> & ->).
    destruct Hpar as [ (_ & ->) | (Hnone & _ & ->) ]; simpl; split_and!; auto.
  - intros [= <- <-].
    apply ensure_parent_thrown in Hpar as (_ & _ & ->). simpl.
    split_and!; auto.
Qed.



End write_facts.

Section write_properties.
Context `{Index} `{PathApi}.

(** X6: when the folder of the settings path exists, the write of a
    document that has a JSON tree succeeds.  It returns the caller's
    object, replaces the content of the file, whatever it held, by the
    tab-indented text of the document, changes no other path, and calls
    [fs] twice: [fs.access] on the folder and [fs.writeFile]; no folder is
    created. *)
Theorem writeUserSettings_existing_folder s p w t :
  reify_in (heap w) s = Some t ->
  disk w !! path_dirname (resolved p w) = Some Dir ->
  disk w !! resolved p w <> Some Dir ->
  exists w',
    writeUserSettings (Some s) p w = (Returned s, w') /\
    disk w' = <[resolved p w := File (JSON.stringify true t)]> (disk w) /\
    fs_log w'
    = fs_log w ++ [FsAccess (path_dirname (resolved p w));
                   FsWriteFile (resolved p w) (JSON.stringify true t)].
Proof.
  intros Hr Hd Hp. eexists. split.
  - apply (writeUserSettings_run s p w
             (logged (FsAccess (path_dirname (resolved p w))) w) t);
      [ left; split; [ rewrite Hd; eauto | reflexivity ]
      | exact Hd | exact Hp | exact Hr ].
  - simpl. rewrite <- app_assoc. split; reflexivity.
Qed.

(** X7: a write without a document writes the empty document.  When it
    succeeds, the object returned is a new empty object, the file holds the
    text [{}], and the cache holds an empty object of its own. *)
Theorem writeUserSettings_undefined_document p w r w' :
  writeUserSettings None p w = (Returned r, w') ->
  r = VRef (length (heap w)) /\
  heap w' !! length (heap w) = Some (CObj []) /\
  disk w' !! resolved p w = Some (File "{}") /\
  exists c, settingsCache w' = Some c /\ c <> r /\
            reify_in (heap w') c = Some (JObj []).
Proof.
  rewrite writeUserSettings_none. intros Hrun.
  apply writeUserSettings_returned in Hrun
    as (t & w1 & Hpar & Hr & _ & -> & ->).
  assert (Ht : t = JObj []).
  { simpl in Hr. unfold reify_in in Hr. rewrite reify_ref in Hr.
    rewrite lookup_app_r in Hr by lia. rewrite Nat.sub_diag in Hr.
    simpl in Hr. congruence. }
  subst t.
  destruct (parent_ready_heap _ _ _ Hpar) as (Hheap & _). simpl in Hheap.
  split_and!; [ reflexivity | | | ].
  - simpl. rewrite Hheap, <- app_assoc.
    rewrite lookup_app_r by lia. rewrite Nat.sub_diag. reflexivity.
  - simpl. apply lookup_insert_eq.
  - simpl. rewrite Hheap. eexists. split; [ reflexivity | ]. split.
    + rewrite length_app. simpl. intros [= Heq]. lia.
    + unfold reify_in. rewrite reify_ref.
      rewrite lookup_app_r by lia. rewrite Nat.sub_diag. reflexivity.
Qed.


(** X9: a write touches two paths at most, the settings path and its
    folder, whatever it returns or throws.  Every other path holds what it
    held, and the environment, the random source and the console are left
    alone. *)
Theorem writeUserSettings_disk_frame s p w r w' :
  writeUserSettings s p w = (r, w') ->
  (forall q, q <> resolved p w -> q <> path_dirname (resolved p w) ->
             disk w' !! q = disk w !! q) /\
  process w' = process w /\ entropy_pos w' = entropy_pos w /\
  console w' = console w.
Proof.
  assert (Hsome : forall s0 w0,
    writeUserSettings (Some s0) p w0 = (r, w') ->
    (forall q, q <> resolved p w0 -> q <> path_dirname (resolved p w0) ->
               disk w' !! q = disk w0 !! q) /\
    process w' = process w0 /\ entropy_pos w' = entropy_pos w0 /\
    console w' = console w0).
  { intros s0 w0 Hrun. destruct r as [ r | e ].
    - apply writeUserSettings_returned in Hrun
        as (t & w1 & Hpar & _ & _ & _ & ->).
      destruct (parent_ready_heap _ _ _ Hpar) as (_ & _ & Hp & _ & He & Hc & _).
      simpl. split_and!; try assumption.
      intros q Hq Hqd. rewrite lookup_insert_ne by congruence.
      destruct Hpar as [ (_ & ->) | (_ & _ & ->) ]; simpl;
        [ reflexivity | apply lookup_insert_ne; congruence ].
    - destruct (writeUserSettings_thrown _ _ _ _ _ Hrun)
        as (_ & _ & Hp & He & Hc & Hd).
      split_and!; try assumption.
      intros q Hq Hqd. destruct Hd as [ -> | (_ & ->) ];
        [ reflexivity | apply lookup_insert_ne; congruence ]. }
  destruct s as [ s | ]; [ apply Hsome | ].
  rewrite writeUserSettings_none. intros Hrun.
  assert (Hrun' : writeUserSettings (Some (VRef (length (heap w)))) p
                    (with_heap (heap w ++ [CObj []]) w) = (r, w')).
  { rewrite <- Hrun. rewrite !writeUserSettings_some. reflexivity. }
  exact (Hsome _ _ Hrun').
Qed.

(** X10: a document that has no JSON tree, such as one that contains
    itself, cannot be written.  With the folder of the settings path in
    place the write throws the [TypeError] of [JSON.stringify] before any
    call of [fs.writeFile]: the disk, the cache and the heap are as
    before. *)
Theorem writeUserSettings_circular_document s p w :
  reify_in (heap w) s = None ->
  is_Some (disk w !! path_dirname (resolved p w)) ->
  writeUserSettings (Some s) p w
  = (Thrown (TypeError "Converting circular structure to JSON"),
     logged (FsAccess (path_dirname (resolved p w))) w).
Proof.
  intros Hr Hd. rewrite writeUserSettings_some.
  run_first (try_catch_run _ (fun _ => fsMkdir (path_dirname (resolved p w)))
               _ _ _ (fsAccess_found (path_dirname (resolved p w)) w Hd)).
  unfold bind at 1. unfold JSON_stringify, bind, read, throw. simpl.
  rewrite Hr. reflexivity.
Qed.

End write_properties.

(** ** Merging *)

Section merge_properties.
Context `{Index} `{PathApi}.

(** [Object.assign] changes the target and nothing else. *)
Lemma Object_assign_frame target source w r w' :
  Object_assign target source w = (r, w') ->
  forall l, target <> VRef l -> heap w' !! l = heap w !! l.
Proof.
  intros Hrun l Hl.
  destruct target as [ | b | n | s | lt ]; simpl in Hrun.
  - injection Hrun as _ <-. reflexivity.
  - unfold bind in Hrun.
    destruct (own_properties source w) as [[ ps | e ] w1] eqn:Hown;
      pose proof (own_properties_world _ _ _ _ Hown) as ->;
      injection Hrun as _ <-; reflexivity.
  - unfold bind in Hrun.
    destruct (own_properties source w) as [[ ps | e ] w1] eqn:Hown;
      pose proof (own_properties_world _ _ _ _ Hown) as ->;
      injection Hrun as _ <-; reflexivity.
  - injection Hrun as _ <-. reflexivity.
  - unfold bind at 1 in Hrun.
    destruct (own_properties source w) as [[ ps | e ] w1] eqn:Hown;
      pose proof (own_properties_world _ _ _ _ Hown) as ->;
      [ | injection Hrun as _ <-; reflexivity ].
    unfold bind, read, update, throw in Hrun.
    destruct (heap w !! lt) as [ [ tprops | elems tprops ] | ];
      injection Hrun as _ <-; try reflexivity.
    simpl. apply list_lookup_insert_ne. congruence.
Qed.

(** A write never changes an object that exists. *)
Lemma writeUserSettings_heap_frame s p w r w' :
  writeUserSettings (Some s) p w = (r, w') ->
  forall l c, heap w !! l = Some c -> heap w' !! l = Some c.
Proof.
  intros Hrun l c Hl. destruct r as [ r | e ].
  - apply writeUserSettings_returned in Hrun
      as (t & w1 & Hpar & _ & _ & _ & ->).
    destruct (parent_ready_heap _ _ _ Hpar) as (Hheap & _).
    simpl. destruct (alloc_extends t (heap w1)) as (new & -> & _).
    rewrite Hheap. apply lookup_app_l_Some. exact Hl.
  - destruct (writeUserSettings_thrown _ _ _ _ _ Hrun) as (-> & _).
    exact Hl.
Qed.


(** X12: a merge changes one object that existed before at most: the
    loaded document.  Every other object that existed, the settings given
    among them, is as before, whatever the merge returns or throws. *)
Theorem addToUserSettings_heap_frame add p w loaded wl r w' :
  getUserSettings (Some (resolved p w)) None w = (Returned loaded, wl) ->
  addToUserSettings add p w = (r, w') ->
  forall l c, heap w !! l = Some c -> loaded <> Some (VRef l) ->
              heap w' !! l = Some c.
Proof.
  intros Hload Hrun l c Hl Hne.
  destruct (getUserSettings_frame _ _ _ _ _ Hload)
    as (_ & _ & _ & _ & _ & _ & (new & Hheap & _) & _).
  assert (Hll : heap wl !! l = Some c)
    by (rewrite Hheap; apply lookup_app_l_Some; exact Hl).
  unfold addToUserSettings in Hrun.
  run_first_in (resolve_path_run p w) Hrun.
  run_first_in Hload Hrun.
  assert (Hgo : forall us w0,
    heap w0 !! l = Some c -> us <> VRef l ->
    (let* _ := Object_assign us add in
     writeUserSettings (Some us) (Some (resolved p w))) w0 = (r, w') ->
    heap w' !! l = Some c).
  { intros us w0 Hl0 Hus Hgo. unfold bind at 1 in Hgo.
    destruct (Object_assign us add w0) as [[ [] | e ] w1] eqn:Has.
    - eapply writeUserSettings_heap_frame; [ exact Hgo | ].
      rewrite (Object_assign_frame _ _ _ _ _ Has l Hus). exact Hl0.
    - injection Hgo as _ <-.
      rewrite (Object_assign_frame _ _ _ _ _ Has l Hus). exact Hl0. }
  destruct loaded as [ v | ].
  - unfold bind at 1 in Hrun. unfold ret at 1 in Hrun. cbv beta iota in Hrun.
    apply (Hgo v wl Hll); [ congruence | exact Hrun ].
  - unfold bind at 1 in Hrun. unfold new_object at 1 in Hrun.
    cbv beta iota in Hrun.
    apply (Hgo (VRef (length (heap wl)))
             (with_heap (heap wl ++ [CObj []]) wl));
      [ simpl; apply lookup_app_l_Some; exact Hll | | exact Hrun ].
    intros [= Heq]. apply lookup_lt_Some in Hll. lia.
Qed.

End merge_properties.

(** ** Provisioning the key *)

Lemma string_get_elem s : forall i c,
  String.get i s = Some c -> c ∈ list_ascii_of_string s.
Proof.
  induction s as [ | a s IH ]; intros i c; [ discriminate | ].
  destruct i as [ | i ]; simpl.
  - intros [= ->]. apply list_elem_of_here.
  - intros Hget. apply list_elem_of_further. exact (IH i c Hget).
Qed.

Lemma string_get_is_Some s : forall i,
  i < String.length s -> is_Some (String.get i s).
Proof.
  induction s as [ | a s IH ]; intros i Hi; simpl in Hi; [ lia | ].
  destruct i as [ | i ]; simpl; [ eauto | apply IH; lia ].
Qed.

Lemma base64_char_alphabet n :
  base64_char n ∈ list_ascii_of_string base64_alphabet.
Proof.
  unfold base64_char.
  destruct (string_get_is_Some base64_alphabet (N.to_nat (n mod 64)))
    as [c Hc].
  - change (String.length base64_alphabet) with 64.
    pose proof (N.mod_lt n 64 ltac:(discriminate)). lia.
  - rewrite Hc. exact (string_get_elem _ _ _ Hc).
Qed.

(** The base64 text of [3 * n] bytes: [4 * n] characters of the alphabet,
    no padding. *)
Lemma base64_triples n : forall bs,
  length bs = 3 * n ->
  String.length (base64 bs) = 4 * n /\
  forall c, c ∈ list_ascii_of_string (base64 bs) ->
            c ∈ list_ascii_of_string base64_alphabet.
Proof.
  induction n as [ | n IH ]; intros bs Hlen.
  - destruct bs; [ | discriminate ]. split; [ reflexivity | ].
    intros c Hc. inversion Hc.
  - destruct bs as [ | a [ | b [ | c0 rest ] ] ]; simpl in Hlen; try lia.
    destruct (IH rest ltac:(lia)) as [Hl Hin].
    change (base64 (a :: b :: c0 :: rest)) with
      (let n :=
         (N_of_ascii a * 65536 + N_of_ascii b * 256 + N_of_ascii c0)%N in
       String (base64_char (n / 262144)) (String (base64_char (n / 4096))
         (String (base64_char (n / 64))
            (String (base64_char n) (base64 rest))))).
    cbv zeta. split.
    + simpl String.length. rewrite Hl. lia.
    + intros c Hc. simpl in Hc.
      rewrite !elem_of_cons in Hc.
      destruct Hc as [ -> | [ -> | [ -> | [ -> | Hc ] ] ] ];
        first [ apply base64_char_alphabet | exact (Hin c Hc) ].
Qed.

Lemma fresh_key_format w :
  String.length (fresh_key w) = 32 /\
  forall c, c ∈ list_ascii_of_string (fresh_key w) ->
            c ∈ list_ascii_of_string base64_alphabet.
Proof.
  apply (base64_triples 8). rewrite length_fmap, length_seq. reflexivity.
Qed.

Lemma reify_str fuel h s : reify fuel h (VStr s) = Some (JStr s).
Proof. destruct fuel; reflexivity. Qed.

Section provisioning_properties.
Context `{Index} `{PathApi}.

Lemma generate_key_run l c path w :
  heap w !! l = Some c ->
  generate_key (VRef l) path w =
  writeUserSettings (Some (VRef l)) (Some path)
    (with_console (console w ++ [generated_message path])
       (with_heap
          (<[l := cell_with_props c
                    (obj_set "encryptionKey" (VStr (fresh_key w))
                       (cell_props c))]> (heap w))
          (with_entropy_pos (entropy_pos w + 24) w))).
Proof.
  intros Hl. unfold generate_key. run_first (randomBytes_run 24 w).
  unfold bind at 1. unfold set_property, bind, read, update. simpl.
  rewrite Hl. reflexivity.
Qed.

(** X13: the first run on a fresh store.  With an empty cache, no
    settings file, and the folder of the settings path in place or missing
    under an existing folder, [prepareUserSettings] succeeds: the document
    returned and the file hold exactly one property, [encryptionKey], the
    base64 text of the next 24 bytes of the random source; the folder
    exists afterwards; one message naming the path is logged. *)
Theorem prepareUserSettings_first_run w :
  settingsCache w = None ->
  disk w !! getUserSettingsPath (process w) = None ->
  (disk w !! path_dirname (getUserSettingsPath (process w)) = Some Dir \/
   disk w !! path_dirname (getUserSettingsPath (process w)) = None /\
   disk w !! path_dirname (path_dirname (getUserSettingsPath (process w)))
   = Some Dir) ->
  exists r w',
    prepareUserSettings w = (Returned r, w') /\
    reify_in (heap w') r
    = Some (JObj [("encryptionKey", JStr (fresh_key w))]) /\
    disk w' !! getUserSettingsPath (process w)
    = Some (File (JSON.stringify true
                    (JObj [("encryptionKey", JStr (fresh_key w))]))) /\
    disk w' !! path_dirname (getUserSettingsPath (process w)) = Some Dir /\
    console w'
    = console w ++ [generated_message (getUserSettingsPath (process w))] /\
    entropy_pos w' = entropy_pos w + 24.
Proof.
  intros Hc Hp Hpar.
  set (path := getUserSettingsPath (process w)) in *.
  set (t := JObj [("encryptionKey", JStr (fresh_key w))]).
  rewrite prepareUserSettings_unfold. fold path.
  rewrite getUserSettings_uncached by auto. unfold load_from_disk.
  change (resolved (Some path) w) with path. rewrite Hp.
  rewrite (generate_key_run (length (heap w)) (CObj []))
    by (simpl; rewrite lookup_app_r by lia; rewrite Nat.sub_diag; reflexivity).
  match goal with
  | |- context [ writeUserSettings _ _ ?x ] => set (w0 := x)
  end.
  assert (Hr : reify_in (heap w0) (VRef (length (heap w))) = Some t).
  { unfold reify_in. rewrite reify_ref. simpl.
    rewrite list_lookup_insert_eq by (rewrite length_app; simpl; lia).
    simpl. rewrite reify_str. reflexivity. }
  assert (Hne : disk w !! path_dirname path = None ->
                disk w !! path_dirname (path_dirname path) = Some Dir ->
                path_dirname path <> path).
  { intros Hd Hg Heq. rewrite Heq in Hg. rewrite Heq in Hg. congruence. }
  assert (Hrun : exists w1,
    parent_ready (path_dirname path) w0 w1 /\
    disk w1 !! path_dirname path = Some Dir /\
    disk w1 !! path = None).
  { destruct Hpar as [ Hd | [Hd Hg] ].
    - exists (logged (FsAccess (path_dirname path)) w0). split_and!.
      + left. split; [ simpl; rewrite Hd; eauto | reflexivity ].
      + exact Hd.
      + exact Hp.
    - exists (with_disk (<[path_dirname path := Dir]> (disk w0))
                (logged (FsMkdir (path_dirname path))
                   (logged (FsAccess (path_dirname path)) w0))).
      split_and!.
      + right. split_and!; [ exact Hd | exact Hg | reflexivity ].
      + simpl. apply lookup_insert_eq.
      + simpl. rewrite lookup_insert_ne by (apply Hne; assumption).
        exact Hp. }
  destruct Hrun as (w1 & Hready & Hd1 & Hp1).
  exists (VRef (length (heap w))), (written path t w1). split.
  - apply (writeUserSettings_run _ (Some path) w0 w1 t);
      [ exact Hready | exact Hd1 | | exact Hr ].
    change (resolved (Some path) w0) with path. congruence.
  - destruct (parent_ready_heap _ _ _ Hready)
      as (Hheap & _ & _ & _ & Hpos & Hcon & _).
    split_and!.
    + change (heap (written path t w1)) with (alloc t (heap w1)).2.
      destruct (alloc_extends t (heap w1)) as (new & -> & _).
      apply reify_in_app. rewrite Hheap. exact Hr.
    + apply lookup_insert_eq.
    + destruct (decide (path = path_dirname path)) as [ Heq | Hneq ];
        [ rewrite <- Heq in Hd1; congruence | ].
      change (disk (written path t w1))
        with (<[path := File (JSON.stringify true t)]> (disk w1)).
      rewrite lookup_insert_ne by exact Hneq. exact Hd1.
    + change (console (written path t w1)) with (console w1).
      rewrite Hcon. reflexivity.
    + change (entropy_pos (written path t w1)) with (entropy_pos w1).
      rewrite Hpos. reflexivity.
Qed.

(** X14: whenever [prepareUserSettings] generates the key, that is, when
    the loaded document had none, the key of the document returned is the
    base64 text of the next 24 bytes of the random source: 32 characters
    of the base64 alphabet, with no padding. *)
Theorem prepareUserSettings_key_format w r w' :
  heap_wf (heap w) ->
  (forall v wl,
     getUserSettings (Some (getUserSettingsPath (process w))) None w
     = (Returned (Some v), wl) ->
     get_property v "encryptionKey" wl = (Returned None, wl)) ->
  prepareUserSettings w = (Returned r, w') ->
  plain_object (heap w') r ->
  get_property r "encryptionKey" w'
  = (Returned (Some (VStr (fresh_key w))), w') /\
  String.length (fresh_key w) = 32 /\
  forall c, c ∈ list_ascii_of_string (fresh_key w) ->
            c ∈ list_ascii_of_string base64_alphabet.
Proof.
  intros Hwf Hnokey Hrun Hplain.
  split; [ | apply fresh_key_format ].
  rewrite prepareUserSettings_unfold in Hrun.
  destruct (getUserSettings (Some (getUserSettingsPath (process w))) None w)
    as [[[us | ] | e] wl] eqn:Hload; [ | | discriminate ];
    destruct (getUserSettings_frame _ _ _ _ _ Hload)
      as (_ & _ & Hent & Hpos & _ & _ & (new & Hheap & Hnew) & _);
    assert (Hkey : fresh_key wl = fresh_key w)
      by (unfold fresh_key; rewrite Hent, Hpos; reflexivity);
    assert (Hwfl : heap_wf (heap wl))
      by (rewrite Hheap; apply heap_wf_app; assumption).
  - rewrite (Hnokey us wl eq_refl) in Hrun.
    destruct (generate_key_effect _ _ _ _ _ Hwfl Hrun Hplain)
      as (c0 & _ & _ & Hk & _).
    rewrite <- Hkey. exact Hk.
  - assert (Hwf0 : heap_wf (heap (with_heap (heap wl ++ [CObj []]) wl))).
    { simpl. apply heap_wf_app; [ exact Hwfl | ].
      constructor; [ simpl; constructor | constructor ]. }
    destruct (generate_key_effect _ _ _ _ _ Hwf0 Hrun Hplain)
      as (c0 & _ & _ & Hk & _).
    rewrite <- Hkey. exact Hk.
Qed.


End provisioning_properties.

Section provisioning_documents.
Context `{Index} `{PathApi}.


End provisioning_documents.

(** ** Reading the key *)

Lemma obj_get_None_inv {V} k (ps : list (string * V)) :
  obj_get k ps = None -> k ∉ ps.*1.
Proof.
  induction ps as [ | [k' v] ps IH ]; simpl;
    [ intros _; apply not_elem_of_nil | ].
  destruct (decide (k = k')) as [ -> | Hne ]; [ discriminate | ].
  intros Hget. apply not_elem_of_cons. split; [ exact Hne | exact (IH Hget) ].
Qed.

Section key_properties.
Context `{Index} `{PathApi}.

(** [getEncryptionKey] without the override, by what the load returns. *)
Lemma getEncryptionKey_unset w :
  env (process w) !! ENCRYPTION_KEY_ENV_OVERWRITE = None ->
  getEncryptionKey w =
  match getUserSettings None None w with
  | (Returned (Some s), w1) => get_property s "encryptionKey" w1
  | (Returned None, w1) => (Returned None, w1)
  | (Thrown e, w1) => (Thrown e, w1)
  end.
Proof.
  intros Henv. unfold getEncryptionKey. unfold bind at 1. unfold read at 1.
  cbv beta iota. rewrite Henv. unfold bind.
  destruct (getUserSettings None None w) as [[[s | ] | e] w1]; reflexivity.
Qed.

(** X17: without the override and without settings (empty cache, nothing
    at the settings path), [getEncryptionKey] returns [undefined].  It
    probes the path once and does nothing else: no key is generated and no
    file is created. *)
Theorem getEncryptionKey_no_settings w :
  env (process w) !! ENCRYPTION_KEY_ENV_OVERWRITE = None ->
  settingsCache w = None ->
  disk w !! getUserSettingsPath (process w) = None ->
  getEncryptionKey w
  = (Returned None, logged (FsAccess (getUserSettingsPath (process w))) w).
Proof.
  intros Henv Hc Hnone. rewrite (getEncryptionKey_unset w Henv).
  rewrite getUserSettings_uncached by auto. unfold load_from_disk.
  change (resolved None w) with (getUserSettingsPath (process w)).
  rewrite Hnone. reflexivity.
Qed.

(** X18: without the override and with an empty cache, [getEncryptionKey]
    reads the settings file: it returns the [encryptionKey] the file holds,
    [undefined] when the document has none.  The document read becomes the
    cache and the disk is as before. *)
Theorem getEncryptionKey_persisted w text ms :
  env (process w) !! ENCRYPTION_KEY_ENV_OVERWRITE = None ->
  settingsCache w = None ->
  disk w !! getUserSettingsPath (process w) = Some (File text) ->
  JSON.parse text = Some (JObj ms) -> NoDup ms.*1 ->
  exists r w',
    getEncryptionKey w = (Returned r, w') /\
    (forall Y, obj_get "encryptionKey" ms = Some (JStr Y) ->
               r = Some (VStr Y)) /\
    (obj_get "encryptionKey" ms = None -> r = None) /\
    is_Some (settingsCache w') /\ disk w' = disk w.
Proof.
  intros Henv Hc Hfile Hparse Hnd. rewrite (getEncryptionKey_unset w Henv).
  rewrite getUserSettings_uncached by auto. unfold load_from_disk.
  change (resolved None w) with (getUserSettingsPath (process w)).
  rewrite Hfile, Hparse.
  destruct (alloc_members alloc ms (heap w)) as [ps h1] eqn:Hps.
  rewrite (alloc_object ms (heap w) ps h1 Hps).
  pose proof (alloc_members_keys ms _ _ _ Hps) as Hkeys.
  rewrite (obj_of_entries_nodup ps) by (rewrite Hkeys; exact Hnd).
  cbn [fst snd].
  match goal with
  | |- context [ get_property _ _ ?x ] => set (wl := x)
  end.
  assert (Hl : heap wl !! length h1 = Some (CObj ps)).
  { simpl. rewrite lookup_app_r by lia. rewrite Nat.sub_diag. reflexivity. }
  rewrite (get_property_ref _ "encryptionKey" wl _ Hl). simpl cell_props.
  eexists _, _. split; [ reflexivity | ]. split_and!.
  - intros Y HY. exact (alloc_members_get _ _ _ _ _ _ Hps HY).
  - intros Hnone. apply obj_get_None. rewrite Hkeys.
    apply obj_get_None_inv. exact Hnone.
  - simpl. eauto.
  - reflexivity.
Qed.

(** X19: [getEncryptionKey] never provisions.  Whatever it returns or
    throws, the disk is as before, no [fs.writeFile] was called, no byte of
    the random source was drawn and nothing was logged. *)
Theorem getEncryptionKey_read_only w r w' :
  getEncryptionKey w = (r, w') ->
  disk w' = disk w /\ writes (fs_log w') = writes (fs_log w) /\
  entropy_pos w' = entropy_pos w /\ console w' = console w /\
  process w' = process w.
Proof.
  destruct (env (process w) !! ENCRYPTION_KEY_ENV_OVERWRITE) as [ key | ]
    eqn:Henv.
  - unfold getEncryptionKey, bind, read, ret. rewrite Henv.
    intros [= _ <-]. auto.
  - rewrite (getEncryptionKey_unset w Henv).
    destruct (getUserSettings None None w) as [[[s | ] | e] w1] eqn:Hload;
      destruct (getUserSettings_frame _ _ _ _ _ Hload)
        as (Hdisk & Hproc & _ & Hpos & Hcon & Hwrites & _);
      intros Hrun;
      try (apply get_property_world in Hrun as ->);
      try (injection Hrun as _ <-); auto.
Qed.

(** X20: the key provisioned is the key served.  After
    [prepareUserSettings] returned a plain object, and without the
    override, [getEncryptionKey] returns the [encryptionKey] of that
    document, from the cache: the world is as it was. *)
Theorem prepareUserSettings_then_getEncryptionKey w v1 w1 :
  heap_wf (heap w) ->
  prepareUserSettings w = (Returned v1, w1) ->
  plain_object (heap w1) v1 ->
  env (process w1) !! ENCRYPTION_KEY_ENV_OVERWRITE = None ->
  exists key,
    get_property v1 "encryptionKey" w1 = (Returned (Some key), w1) /\
    getEncryptionKey w1 = (Returned (Some key), w1).
Proof.
  intros Hwf Hrun Hplain Henv.
  assert (Hcached : exists key c0,
    settingsCache w1 = Some c0 /\
    get_property v1 "encryptionKey" w1 = (Returned (Some key), w1) /\
    get_property c0 "encryptionKey" w1 = (Returned (Some key), w1)).
  { rewrite prepareUserSettings_unfold in Hrun.
    destruct (getUserSettings (Some (getUserSettingsPath (process w))) None w)
      as [[[us | ] | e] wl] eqn:Hload; [ | | discriminate ];
      destruct (getUserSettings_frame _ _ _ _ _ Hload)
        as (_ & _ & _ & _ & _ & _ & (new & Hheap & Hnew) & Hcache);
      assert (Hwfl : heap_wf (heap wl))
        by (rewrite Hheap; apply heap_wf_app; assumption).
    - destruct (get_property us "encryptionKey" wl)
        as [[[key | ] | e] w2] eqn:Hkey; [ | | discriminate ];
        pose proof (get_property_world _ _ _ _ _ Hkey) as ->.
      + injection Hrun as <- <-. exists key, us. auto.
      + destruct (generate_key_effect _ _ _ _ _ Hwfl Hrun Hplain)
          as (c0 & -> & Hc0 & Hk1 & Hk2 & _).
        eexists _, c0. eauto.
    - assert (Hwf0 : heap_wf (heap (with_heap (heap wl ++ [CObj []]) wl))).
      { simpl. apply heap_wf_app; [ exact Hwfl | ].
        constructor; [ simpl; constructor | constructor ]. }
      destruct (generate_key_effect _ _ _ _ _ Hwf0 Hrun Hplain)
        as (c0 & -> & Hc0 & Hk1 & Hk2 & _).
      eexists _, c0. eauto. }
  destruct Hcached as (key & c0 & Hc0 & Hk1 & Hk2).
  exists key. split; [ exact Hk1 | ].
  rewrite (getEncryptionKey_unset w1 Henv).
  rewrite (getUserSettings_cached None None w1 c0 Hc0) by discriminate.
  exact Hk2.
Qed.

(** X21: a settings file that holds the JSON text [null] is read as a
    document, and reading [encryptionKey] of it throws.  With an empty
    cache and without the override, both [getEncryptionKey] and
    [prepareUserSettings] throw a [TypeError]; the disk is as before. *)
Theorem null_document_throws w text :
  env (process w) !! ENCRYPTION_KEY_ENV_OVERWRITE = None ->
  settingsCache w = None ->
  disk w !! getUserSettingsPath (process w) = Some (File text) ->
  JSON.parse text = Some JNull ->
  (exists msg w',
     getEncryptionKey w = (Thrown (TypeError msg), w') /\ disk w' = disk w) /\
  (exists msg w',
     prepareUserSettings w = (Thrown (TypeError msg), w') /\
     disk w' = disk w).
Proof.
  intros Henv Hc Hfile Hparse. split.
  - rewrite (getEncryptionKey_unset w Henv).
    rewrite getUserSettings_uncached by auto. unfold load_from_disk.
    change (resolved None w) with (getUserSettingsPath (process w)).
    rewrite Hfile, Hparse. eexists _, _. split; reflexivity.
  - rewrite prepareUserSettings_unfold.
    rewrite getUserSettings_uncached by auto. unfold load_from_disk.
    change (resolved (Some (getUserSettingsPath (process w))) w)
      with (getUserSettingsPath (process w)).
    rewrite Hfile, Hparse. eexists _, _. split; reflexivity.
Qed.

End key_properties.

(** ** What the module never undoes *)

Section stable_properties.
Context `{Index} `{PathApi}.
Variable P : World -> Prop.
Hypothesis P_stable : stable P.

Lemma preserves_ret {A} (a : A) : preserves P (ret a).
Proof. intros w r w' HP [= _ <-]. exact HP. Qed.

Lemma preserves_throw {A} e : preserves P (@throw A e).
Proof. intros w r w' HP [= _ <-]. exact HP. Qed.

Lemma preserves_read {A} (f : World -> A) : preserves P (read f).
Proof. intros w r w' HP [= _ <-]. exact HP. Qed.

Lemma preserves_update f :
  (forall w, P w -> P (f w)) -> preserves P (update f).
Proof. intros Hf w r w' HP [= _ <-]. apply Hf, HP. Qed.

Lemma preserves_bind {A B} (m : M A) (k : A -> M B) :
  preserves P m -> (forall a, preserves P (k a)) -> preserves P (bind m k).
Proof.
  intros Hm Hk w r w' HP. unfold bind.
  destruct (m w) as [[a | e] w1] eqn:Hrun.
  - apply (Hk a). exact (Hm _ _ _ HP Hrun).
  - intros [= _ <-]. exact (Hm _ _ _ HP Hrun).
Qed.

Lemma preserves_try_catch {A} (m : M A) handler :
  preserves P m -> (forall e, preserves P (handler e)) ->
  preserves P (try_catch m handler).
Proof.
  intros Hm Hh w r w' HP. unfold try_catch.
  destruct (m w) as [[a | e] w1] eqn:Hrun.
  - intros [= _ <-]. exact (Hm _ _ _ HP Hrun).
  - apply (Hh e). exact (Hm _ _ _ HP Hrun).
Qed.

Lemma preserves_new_object : preserves P new_object.
Proof. intros w r w' HP [= _ <-]. apply P_stable, HP. Qed.

Lemma preserves_get_property v k : preserves P (get_property v k).
Proof.
  intros w r w' HP Hrun.
  rewrite (get_property_world _ _ _ _ _ Hrun). exact HP.
Qed.

Lemma preserves_set_property v k x : preserves P (set_property v k x).
Proof.
  destruct v as [ | b | n | s | l ]; simpl; try apply preserves_throw.
  intros w r w' HP. unfold bind, read.
  destruct (heap w !! l) as [ c | ]; intros [= _ <-]; [ | exact HP ].
  apply P_stable, HP.
Qed.

Lemma preserves_Object_assign target source :
  preserves P (Object_assign target source).
Proof.
  destruct target as [ | b | n | s | l ]; simpl; try apply preserves_throw.
  1-2: apply preserves_bind; [ | intros a; apply preserves_ret ];
    intros w r w' HP Hrun;
    rewrite (own_properties_world _ _ _ _ Hrun); exact HP.
  intros w r w' HP. unfold bind at 1.
  destruct (own_properties source w) as [[props | e] w1] eqn:Hown;
    pose proof (own_properties_world _ _ _ _ Hown) as ->;
    [ | intros [= _ <-]; exact HP ].
  unfold bind, read.
  destruct (heap w !! l) as [ [ tprops | elems tprops ] | ];
    intros [= _ <-]; try exact HP.
  apply P_stable, HP.
Qed.

Lemma preserves_JSON_stringify gap v : preserves P (JSON_stringify gap v).
Proof.
  intros w r w' HP. unfold JSON_stringify, bind, read.
  destruct (reify_in (heap w) v); intros [= _ <-]; exact HP.
Qed.

Lemma preserves_JSON_parse text : preserves P (JSON_parse text).
Proof.
  intros w r w' HP. unfold JSON_parse.
  destruct (JSON.parse text) as [ t | ]; [ | intros [= _ <-]; exact HP ].
  destruct (alloc t (heap w)) as [v h']. intros [= _ <-].
  apply P_stable, HP.
Qed.

Lemma preserves_randomBytes n : preserves P (randomBytes n).
Proof. intros w r w' HP [= _ <-]. apply P_stable, HP. Qed.

Lemma preserves_console_log msg : preserves P (console_log msg).
Proof. apply preserves_update. intros w HP. apply P_stable, HP. Qed.

Lemma preserves_log_call c : preserves P (log_call c).
Proof. apply preserves_update. intros w HP. apply P_stable, HP. Qed.

Lemma preserves_fsAccess p : preserves P (fsAccess p).
Proof.
  apply preserves_bind; [ apply preserves_log_call | ]. intros _ w r w' HP.
  unfold bind, read. destruct (disk w !! p); intros [= _ <-]; exact HP.
Qed.

Lemma preserves_fsReadFile p : preserves P (fsReadFile p).
Proof.
  apply preserves_bind; [ apply preserves_log_call | ]. intros _ w r w' HP.
  unfold bind, read.
  destruct (disk w !! p) as [ [ c | ] | ]; intros [= _ <-]; exact HP.
Qed.

Lemma preserves_fsMkdir p : preserves P (fsMkdir p).
Proof.
  apply preserves_bind; [ apply preserves_log_call | ]. intros _ w r w' HP.
  unfold bind, read. destruct (disk w !! p); [ intros [= _ <-]; exact HP | ].
  destruct (disk w !! path_dirname p) as [ [ c | ] | ];
    intros [= _ <-]; try exact HP.
  apply P_stable, HP.
Qed.

Lemma preserves_fsWriteFile p data : preserves P (fsWriteFile p data).
Proof.
  apply preserves_bind; [ apply preserves_log_call | ]. intros _ w r w' HP.
  unfold bind, read.
  destruct (disk w !! p) as [ [ c | ] | ];
    destruct (disk w !! path_dirname p) as [ [ c' | ] | ];
    intros [= _ <-]; try exact HP; apply P_stable, HP.
Qed.

Lemma preserves_resolve_path p : preserves P (resolve_path p).
Proof. destruct p; [ apply preserves_ret | apply preserves_read ]. Qed.

Lemma preserves_getUserSettings p flag : preserves P (getUserSettings p flag).
Proof.
  unfold getUserSettings.
  apply preserves_bind; [ apply preserves_read | intros cache ].
  destruct (defined cache && negb (bool_decide (flag = Some true)));
    [ apply preserves_ret | ].
  apply preserves_bind; [ apply preserves_resolve_path | intros path ].
  apply preserves_bind;
    [ apply preserves_try_catch;
        [ apply preserves_bind;
            [ apply preserves_fsAccess | intros _; apply preserves_ret ]
        | intros e; apply preserves_ret ]
    | intros exists_ ].
  destruct (negb exists_); [ apply preserves_ret | ].
  apply preserves_bind; [ apply preserves_fsReadFile | intros text ].
  apply preserves_bind; [ | intros _; apply preserves_read ].
  apply preserves_try_catch; [ | intros e; apply preserves_throw ].
  apply preserves_bind; [ apply preserves_JSON_parse | intros parsed ].
  apply preserves_update. intros w HP. apply P_stable, HP.
Qed.

Lemma preserves_writeUserSettings s p : preserves P (writeUserSettings s p).
Proof.
  unfold writeUserSettings.
  apply preserves_bind; [ apply preserves_resolve_path | intros path ].
  apply preserves_bind;
    [ destruct s; [ apply preserves_ret | apply preserves_new_object ]
    | intros us ].
  apply preserves_bind;
    [ apply preserves_try_catch;
        [ apply preserves_fsAccess | intros e; apply preserves_fsMkdir ]
    | intros _ ].
  apply preserves_bind; [ apply preserves_JSON_stringify | intros text ].
  apply preserves_bind; [ apply preserves_fsWriteFile | intros _ ].
  apply preserves_bind; [ apply preserves_JSON_stringify | intros text' ].
  apply preserves_bind; [ apply preserves_JSON_parse | intros copy ].
  apply preserves_bind; [ | intros _; apply preserves_ret ].
  apply preserves_update. intros w HP. apply P_stable, HP.
Qed.

Lemma preserves_addToUserSettings add p :
  preserves P (addToUserSettings add p).
Proof.
  unfold addToUserSettings.
  apply preserves_bind; [ apply preserves_resolve_path | intros path ].
  apply preserves_bind; [ apply preserves_getUserSettings | intros loaded ].
  apply preserves_bind;
    [ destruct loaded; [ apply preserves_ret | apply preserves_new_object ]
    | intros us ].
  apply preserves_bind; [ apply preserves_Object_assign | intros _ ].
  apply preserves_writeUserSettings.
Qed.

Lemma preserves_generate_key us path : preserves P (generate_key us path).
Proof.
  unfold generate_key.
  apply preserves_bind; [ apply preserves_randomBytes | intros bytes ].
  apply preserves_bind; [ apply preserves_set_property | intros _ ].
  apply preserves_bind; [ apply preserves_console_log | intros _ ].
  apply preserves_writeUserSettings.
Qed.

Lemma preserves_prepareUserSettings : preserves P prepareUserSettings.
Proof.
  unfold prepareUserSettings.
  apply preserves_bind; [ apply preserves_resolve_path | intros path ].
  apply preserves_bind; [ apply preserves_getUserSettings | intros loaded ].
  destruct loaded as [ us | ].
  - apply preserves_bind; [ apply preserves_get_property | intros [ key | ] ];
      [ apply preserves_ret | apply preserves_generate_key ].
  - apply preserves_bind; [ apply preserves_new_object | intros us ].
    apply preserves_generate_key.
Qed.

Lemma preserves_getEncryptionKey : preserves P getEncryptionKey.
Proof.
  unfold getEncryptionKey.
  apply preserves_bind; [ apply preserves_read | intros proc ].
  destruct (env proc !! ENCRYPTION_KEY_ENV_OVERWRITE);
    [ apply preserves_ret | ].
  apply preserves_bind; [ apply preserves_getUserSettings | intros [ s | ] ];
    [ apply preserves_get_property | apply preserves_ret ].
Qed.

End stable_properties.

Lemma cache_set_stable : stable (fun w => is_Some (settingsCache w)).
Proof. unfold stable. split_and!; intros; simpl; eauto. Qed.

Lemma path_present_stable q : stable (fun w => is_Some (disk w !! q)).
Proof.
  unfold stable. split_and!; intros; simpl; try assumption.
  destruct (decide (p = q)) as [ -> | Hne ];
    [ rewrite lookup_insert_eq; eauto
    | rewrite lookup_insert_ne by exact Hne; assumption ].
Qed.

Section module_invariants.
Context `{Index} `{PathApi}.

(** X22: once the cache holds a document, it holds one for the rest of
    the process.  No function of the module resets [settingsCache] to
    [undefined], whatever it returns or throws: a function leaves the
    cached document in place or puts another in its place. *)
Theorem settingsCache_never_cleared w :
  is_Some (settingsCache w) ->
  (forall p flag, is_Some (settingsCache (getUserSettings p flag w).2)) /\
  (forall s p, is_Some (settingsCache (writeUserSettings s p w).2)) /\
  (forall add p, is_Some (settingsCache (addToUserSettings add p w).2)) /\
  is_Some (settingsCache (prepareUserSettings w).2) /\
  is_Some (settingsCache (getEncryptionKey w).2).
Proof.
  intros Hc. split_and!; intros;
    match goal with
    | |- is_Some (settingsCache (?m w).2) =>
        destruct (m w) as [r w'] eqn:Hrun
    end; revert Hrun; simpl.
  - exact (preserves_getUserSettings _ cache_set_stable _ _ w r w' Hc).
  - exact (preserves_writeUserSettings _ cache_set_stable _ _ w r w' Hc).
  - exact (preserves_addToUserSettings _ cache_set_stable _ _ w r w' Hc).
  - exact (preserves_prepareUserSettings _ cache_set_stable w r w' Hc).
  - exact (preserves_getEncryptionKey _ cache_set_stable w r w' Hc).
Qed.

(** X23: the module never deletes.  A path that names a file or a folder
    before a call of any function of the module names one after it,
    whatever the call returns or throws. *)
Theorem disk_never_shrinks w q :
  is_Some (disk w !! q) ->
  (forall p flag, is_Some (disk (getUserSettings p flag w).2 !! q)) /\
  (forall s p, is_Some (disk (writeUserSettings s p w).2 !! q)) /\
  (forall add p, is_Some (disk (addToUserSettings add p w).2 !! q)) /\
  is_Some (disk (prepareUserSettings w).2 !! q) /\
  is_Some (disk (getEncryptionKey w).2 !! q).
Proof.
  intros Hq. split_and!; intros;
    match goal with
    | |- is_Some (disk (?m w).2 !! q) =>
        destruct (m w) as [r w'] eqn:Hrun
    end; revert Hrun; simpl.
  - exact (preserves_getUserSettings _ (path_present_stable q) _ _ w r w' Hq).
  - exact (preserves_writeUserSettings _ (path_present_stable q) _ _ w r w' Hq).
  - exact (preserves_addToUserSettings _ (path_present_stable q) _ _ w r w' Hq).
  - exact (preserves_prepareUserSettings _ (path_present_stable q) w r w' Hq).
  - exact (preserves_getEncryptionKey _ (path_present_stable q) w r w' Hq).
Qed.

End module_invariants.

(** ** Paths *)

Section posix_facts.
Import PosixPath.

Lemma list_ascii_of_string_app a b :
  list_ascii_of_string (a +:+ b)
  = list_ascii_of_string a ++ list_ascii_of_string b.
Proof. induction a as [ | c a IH ]; simpl; [ | rewrite IH ]; reflexivity. Qed.

Lemma split_acc_app cur a b :
  split_acc cur (a ++ slash :: b) = split_acc cur a ++ split_acc [] b.
Proof.
  revert cur. induction a as [ | c a IH ]; intros cur; simpl.
  - reflexivity.
  - destruct (is_slash c); simpl; rewrite IH; reflexivity.
Qed.

Lemma split_acc_plain cur b :
  Forall (fun c => is_slash c = false) b -> split_acc cur b = [rev cur ++ b].
Proof.
  revert cur. induction b as [ | c b IH ]; intros cur Hb; simpl.
  - rewrite app_nil_r. reflexivity.
  - inversion Hb as [ | ? ? Hc Hb' ]; subst. rewrite Hc, (IH _ Hb'). simpl.
    rewrite <- app_assoc. reflexivity.
Qed.

Lemma split_acc_slash_free cs : forall cur,
  Forall (fun c => is_slash c = false) cur ->
  Forall (Forall (fun c => is_slash c = false)) (split_acc cur cs).
Proof.
  induction cs as [ | c cs IH ]; intros cur Hcur; simpl.
  - constructor; [ apply Forall_rev, Hcur | constructor ].
  - destruct (is_slash c) eqn:Hc.
    + constructor; [ apply Forall_rev, Hcur | apply IH; constructor ].
    + apply IH. constructor; assumption.
Qed.

Lemma simple_name_proper s :
  simple_name s = true -> proper_segment (list_ascii_of_string s).
Proof.
  unfold simple_name, seg_eqb. cbv zeta. rewrite !andb_true_iff.
  rewrite !negb_true_iff, !bool_decide_eq_false.
  intros [[[H1 H2] H3] H4]. split_and!; try assumption.
  apply Forall_forall. intros c Hc.
  rewrite forallb_forall in H4. apply negb_true_iff, H4.
  apply list_elem_of_In. exact Hc.
Qed.

Lemma push_proper allow res seg :
  proper_segment seg -> push_segment allow res seg = seg :: res.
Proof.
  intros (H1 & H2 & H3 & _). unfold push_segment, seg_eqb.
  rewrite !bool_decide_eq_false_2 by assumption. reflexivity.
Qed.

Lemma push_normal allow st seg :
  Forall (fun c => is_slash c = false) seg ->
  normal_stack allow st -> normal_stack allow (push_segment allow st seg).
Proof.
  intros Hseg (names & n & -> & Hnames & Hn).
  unfold push_segment, seg_eqb.
  destruct (decide (seg = [])) as [ -> | H1 ];
    [ exists names, n; auto | ].
  destruct (decide (seg = dot)) as [ -> | H2 ];
    [ exists names, n; auto | ].
  rewrite (bool_decide_eq_false_2 _ H1), (bool_decide_eq_false_2 _ H2).
  simpl orb. cbv iota.
  destruct (decide (seg = dotdot)) as [ -> | H3 ].
  - rewrite bool_decide_eq_true_2 by reflexivity.
    destruct names as [ | x names ].
    + destruct n as [ | n ]; simpl.
      * destruct allow; [ exists [], 1 | exists [], 0 ];
          (split_and!; [ reflexivity | constructor | ]);
          first [ discriminate | reflexivity ].
      * destruct allow; [ exists [], (S (S n)) | exists [], (S n) ];
          (split_and!; [ reflexivity | constructor | ]);
          first [ discriminate | exact Hn ].
    + inversion Hnames as [ | ? ? Hx Hnames' ]; subst. simpl.
      destruct Hx as (_ & _ & Hx & _).
      rewrite (bool_decide_eq_false_2 _ Hx). exists names, n. auto.
  - rewrite (bool_decide_eq_false_2 _ H3).
    exists (seg :: names), n. split_and!; [ reflexivity | | exact Hn ].
    constructor; [ | exact Hnames ]. split_and!; assumption.
Qed.

Lemma fold_push_normal allow segs : forall st,
  Forall (Forall (fun c => is_slash c = false)) segs ->
  normal_stack allow st ->
  normal_stack allow (fold_left (push_segment allow) segs st).
Proof.
  induction segs as [ | seg segs IH ]; intros st Hsegs Hst; simpl;
    [ exact Hst | ].
  inversion Hsegs; subst. apply IH; [ assumption | ].
  apply push_normal; assumption.
Qed.

Lemma normal_stack_nil allow : normal_stack allow [].
Proof. exists [], 0. split_and!; [ reflexivity | constructor | auto ]. Qed.

Lemma normal_stack_cons allow seg st :
  proper_segment seg -> normal_stack allow st -> normal_stack allow (seg :: st).
Proof.
  intros Hseg (names & n & -> & Hnames & Hn).
  exists (seg :: names), n. split_and!; [ reflexivity | | exact Hn ].
  constructor; assumption.
Qed.

Lemma normal_stack_slash_free allow st :
  normal_stack allow st ->
  Forall (fun seg => seg <> [] /\ Forall (fun c => is_slash c = false) seg) st.
Proof.
  intros (names & n & -> & Hnames & _). apply Forall_app. split.
  - eapply Forall_impl; [ exact Hnames | ].
    intros seg (H1 & _ & _ & H4). auto.
  - apply Forall_replicate. split; [ discriminate | ].
    repeat constructor.
Qed.

(** Pushing the segments of a normal stack again, oldest first, builds the
    same stack. *)
Lemma fold_push_names allow names : forall base,
  Forall proper_segment names ->
  fold_left (push_segment allow) names base = rev names ++ base.
Proof.
  induction names as [ | seg names IH ]; intros base Hnames; simpl;
    [ reflexivity | ].
  inversion Hnames; subst. rewrite push_proper by assumption.
  rewrite IH by assumption. rewrite <- app_assoc. reflexivity.
Qed.

Lemma fold_push_dotdots n : forall k,
  fold_left (push_segment true) (replicate n dotdot) (replicate k dotdot)
  = replicate (n + k) dotdot.
Proof.
  induction n as [ | n IH ]; intros k; simpl; [ reflexivity | ].
  replace (push_segment true (replicate k dotdot) dotdot)
    with (replicate (S k) dotdot)
    by (destruct k; reflexivity).
  rewrite IH. replace (n + S k) with (S (n + k)) by lia. reflexivity.
Qed.

Lemma rev_replicate {A} n (x : A) : rev (replicate n x) = replicate n x.
Proof.
  induction n as [ | n IH ]; simpl; [ reflexivity | ].
  rewrite IH. symmetry. apply (replicate_S_end n x).
Qed.

Lemma fold_push_replay allow st :
  normal_stack allow st ->
  fold_left (push_segment allow) (rev st) [] = st.
Proof.
  intros (names & n & -> & Hnames & Hn).
  rewrite rev_app_distr, fold_left_app.
  assert (Hdots : fold_left (push_segment allow) (rev (replicate n dotdot)) []
                  = replicate n dotdot).
  { destruct allow.
    - rewrite rev_replicate.
      change (@nil (list ascii)) with (replicate 0 dotdot).
      rewrite (fold_push_dotdots n 0), Nat.add_0_r. reflexivity.
    - rewrite (Hn eq_refl). reflexivity. }
  rewrite Hdots. rewrite fold_push_names by (apply Forall_rev, Hnames).
  rewrite rev_involutive. reflexivity.
Qed.

Lemma split_acc_join_segments l :
  l <> [] -> Forall (Forall (fun c => is_slash c = false)) l ->
  split_acc [] (join_segments l) = l.
Proof.
  induction l as [ | s l IH ]; intros Hne Hl; [ congruence | ].
  inversion Hl as [ | ? ? Hs Hl' ]; subst.
  destruct l as [ | s' l ].
  - simpl. rewrite (split_acc_plain [] s Hs). reflexivity.
  - change (join_segments (s :: s' :: l))
      with (s ++ slash :: join_segments (s' :: l)).
    rewrite split_acc_app, (split_acc_plain [] s Hs), IH
      by (congruence || assumption).
    reflexivity.
Qed.

Lemma join_segments_snoc l x :
  l <> [] -> join_segments (l ++ [x]) = join_segments l ++ slash :: x.
Proof.
  induction l as [ | s l IH ]; intros Hne; [ congruence | ].
  destruct l as [ | s' l ]; [ reflexivity | ].
  change (join_segments ((s :: s' :: l) ++ [x]))
    with (s ++ slash :: join_segments ((s' :: l) ++ [x])).
  rewrite IH by congruence.
  change (join_segments (s :: s' :: l))
    with (s ++ slash :: join_segments (s' :: l)).
  rewrite <- app_assoc. reflexivity.
Qed.

Lemma join_segments_ends l x :
  x <> [] -> join_segments (l ++ [x]) <> [].
Proof.
  intros Hx. destruct l as [ | s l ]; [ exact Hx | ].
  rewrite join_segments_snoc by congruence.
  intros Heq. apply app_eq_nil in Heq as [_ Heq]. discriminate.
Qed.

Lemma last_not_slash x b :
  b <> [] -> Forall (fun c => is_slash c = false) b ->
  match rev (x ++ b) with
  | c :: _ => is_slash c
  | [] => false
  end = false.
Proof.
  intros Hne Hb. rewrite rev_app_distr.
  destruct (rev b) as [ | c rb ] eqn:Hrev.
  - apply (f_equal (@rev ascii)) in Hrev. rewrite rev_involutive in Hrev.
    simpl in Hrev. congruence.
  - simpl. apply Forall_rev in Hb. rewrite Hrev in Hb.
    inversion Hb; subst. assumption.
Qed.

Lemma normalize_shape p :
  p <> "" -> join_segments (rev (stack_of p)) <> [] ->
  last_is_slash p = false ->
  list_ascii_of_string (normalize p)
  = root_of p ++ join_segments (rev (stack_of p)).
Proof.
  intros Hp Hres Hlast. destruct p as [ | c0 tl ]; [ congruence | ].
  unfold normalize. rewrite Hlast. unfold normalizeString.
  change (fold_left (push_segment (negb (is_slash c0)))
            (segments (String c0 tl)) [])
    with (stack_of (String c0 tl)).
  unfold root_of. simpl is_absolute.
  destruct (join_segments (rev (stack_of (String c0 tl)))) as [ | r0 res ];
    [ congruence | ].
  destruct (is_slash c0); apply list_ascii_of_string_of_list_ascii.
Qed.

Lemma stack_of_child a b :
  a <> "" -> proper_segment (list_ascii_of_string b) ->
  is_absolute (a +:+ "/" +:+ b) = is_absolute a /\
  stack_of (a +:+ "/" +:+ b) = list_ascii_of_string b :: stack_of a.
Proof.
  intros Ha Hb. destruct a as [ | a0 a' ]; [ congruence | ].
  split; [ reflexivity | ].
  unfold stack_of, segments.
  change (is_absolute (String a0 a' +:+ "/" +:+ b)) with (is_slash a0).
  simpl is_absolute.
  rewrite list_ascii_of_string_app.
  change (list_ascii_of_string ("/" +:+ b))
    with (slash :: list_ascii_of_string b).
  rewrite split_acc_app, fold_left_app.
  rewrite (split_acc_plain [] (list_ascii_of_string b))
    by (destruct Hb as (_ & _ & _ & Hs); exact Hs).
  simpl. apply push_proper. exact Hb.
Qed.

Lemma stack_of_name b :
  proper_segment (list_ascii_of_string b) ->
  is_absolute b = false /\ stack_of b = [list_ascii_of_string b].
Proof.
  intros Hb. pose proof Hb as (Hne & _ & _ & Hs).
  assert (Habs : is_absolute b = false).
  { destruct b as [ | b0 b' ]; [ reflexivity | ].
    simpl in *. inversion Hs; subst. assumption. }
  split; [ exact Habs | ].
  unfold stack_of, segments. rewrite Habs.
  rewrite (split_acc_plain [] (list_ascii_of_string b) Hs). simpl.
  apply push_proper. exact Hb.
Qed.

Lemma stack_of_normal a : normal_stack (negb (is_absolute a)) (stack_of a).
Proof.
  unfold stack_of, segments. apply fold_push_normal.
  - apply split_acc_slash_free. constructor.
  - apply normal_stack_nil.
Qed.

Lemma join_segments_head l :
  l <> [] ->
  Forall (fun seg => seg <> [] /\ Forall (fun c => is_slash c = false) seg) l ->
  exists c r, join_segments l = c :: r /\ is_slash c = false.
Proof.
  intros Hne Hl. destruct l as [ | s l ]; [ congruence | ].
  inversion Hl as [ | ? ? [Hs Hfree] _ ]; subst.
  destruct s as [ | c s ]; [ congruence | ].
  inversion Hfree; subst.
  destruct l; simpl; eauto.
Qed.

Lemma is_absolute_list s :
  is_absolute s = match list_ascii_of_string s with
                  | c :: _ => is_slash c
                  | [] => false
                  end.
Proof. destruct s; reflexivity. Qed.

(** [path.join] with a plain name: the name is put on the stack of the
    first argument. *)
Lemma join_name a b :
  simple_name b = true ->
  is_absolute (join a b) = is_absolute a /\
  list_ascii_of_string (join a b)
  = root_of a ++ join_segments (rev (list_ascii_of_string b :: stack_of a)).
Proof.
  intros Hb. apply simple_name_proper in Hb.
  pose proof Hb as (Hbne & _ & _ & Hbs).
  assert (Hjoin : join a b = normalize (if decide (a = "") then b
                                        else a +:+ "/" +:+ b)).
  { destruct a as [ | a0 a' ]; destruct b as [ | b0 b' ];
      try reflexivity; simpl in Hbne; congruence. }
  assert (Hshape : forall p,
    p <> "" -> is_absolute p = is_absolute a ->
    stack_of p = list_ascii_of_string b :: stack_of a ->
    last_is_slash p = false ->
    is_absolute (normalize p) = is_absolute a /\
    list_ascii_of_string (normalize p)
    = root_of a ++ join_segments
                     (rev (list_ascii_of_string b :: stack_of a))).
  { intros p Hp Habs Hst Hlast.
    assert (Hlist : list_ascii_of_string (normalize p)
                    = root_of a ++ join_segments
                        (rev (list_ascii_of_string b :: stack_of a))).
    { rewrite normalize_shape; [ | exact Hp | | exact Hlast ].
      - unfold root_of. rewrite Habs, Hst. reflexivity.
      - rewrite Hst. simpl rev. apply join_segments_ends. exact Hbne. }
    split; [ | exact Hlist ].
    rewrite is_absolute_list, Hlist. unfold root_of.
    destruct (is_absolute a) eqn:Ha; [ reflexivity | ].
    destruct (join_segments_head
                (rev (list_ascii_of_string b :: stack_of a)))
      as (c & r & -> & Hc); [ | | exact Hc ].
    - simpl. intros Heq. apply app_eq_nil in Heq as [_ Heq]. discriminate.
    - apply Forall_rev.
      apply (normal_stack_slash_free (negb (is_absolute a))).
      apply normal_stack_cons; [ exact Hb | apply stack_of_normal ]. }
  rewrite Hjoin. destruct (decide (a = "")) as [ -> | Ha ].
  - destruct (stack_of_name b Hb) as [Habs Hst].
    apply Hshape; [ | exact Habs | rewrite Hst; reflexivity | ].
    + destruct b; [ simpl in Hbne; congruence | discriminate ].
    + unfold last_is_slash. apply (last_not_slash [] _ Hbne Hbs).
  - destruct (stack_of_child a b Ha Hb) as [Habs Hst].
    apply Hshape; [ | exact Habs | exact Hst | ].
    + destruct a; [ congruence | discriminate ].
    + unfold last_is_slash. rewrite list_ascii_of_string_app.
      rewrite list_ascii_of_string_app, app_assoc.
      apply (last_not_slash _ _ Hbne Hbs).
Qed.

Lemma join_name_stack a b :
  simple_name b = true ->
  stack_of (join a b) = list_ascii_of_string b :: stack_of a.
Proof.
  intros Hb. destruct (join_name a b Hb) as [Habs Hlist].
  apply simple_name_proper in Hb.
  assert (Hnormal : normal_stack (negb (is_absolute a))
                      (list_ascii_of_string b :: stack_of a))
    by (apply normal_stack_cons; [ exact Hb | apply stack_of_normal ]).
  assert (Hsegs : split_acc []
                    (join_segments
                       (rev (list_ascii_of_string b :: stack_of a)))
                  = rev (list_ascii_of_string b :: stack_of a)).
  { apply split_acc_join_segments.
    - simpl. intros Heq. apply app_eq_nil in Heq as [_ Heq]. discriminate.
    - apply Forall_rev.
      eapply Forall_impl;
        [ exact (normal_stack_slash_free _ _ Hnormal) | ].
      intros seg [_ Hfree]. exact Hfree. }
  unfold stack_of at 1. unfold segments. rewrite Habs, Hlist.
  unfold root_of. destruct (is_absolute a).
  - change (split_acc [] ([slash] ++ ?l)) with ([] :: split_acc [] l).
    rewrite Hsegs. change (fold_left ?f ([] :: ?l) []) with (fold_left f l []).
    apply (fold_push_replay _ _ Hnormal).
  - change ([] ++ ?l) with l. rewrite Hsegs.
    apply (fold_push_replay _ _ Hnormal).
Qed.

Lemma join_join_name a b c :
  simple_name b = true -> simple_name c = true ->
  join (join a b) c = join a b +:+ "/" +:+ c.
Proof.
  intros Hb Hc.
  rewrite <- (string_of_list_ascii_of_string (join (join a b) c)).
  rewrite <- (string_of_list_ascii_of_string (join a b +:+ "/" +:+ c)).
  f_equal. rewrite list_ascii_of_string_app.
  destruct (join_name (join a b) c Hc) as [_ ->].
  rewrite (join_name_stack a b Hb).
  destruct (join_name a b Hb) as [Habs ->].
  unfold root_of. rewrite Habs.
  change (rev (list_ascii_of_string c :: ?l))
    with (rev l ++ [list_ascii_of_string c]).
  rewrite join_segments_snoc
    by (simpl; intros Heq; apply app_eq_nil in Heq as [_ Heq]; discriminate).
  rewrite <- app_assoc. reflexivity.
Qed.

Lemma drop_while_plain b rest :
  Forall (fun c => is_slash c = false) b ->
  drop_while (fun c => negb (is_slash c)) (b ++ slash :: rest)
  = slash :: rest.
Proof.
  induction b as [ | c b IH ]; intros Hb; [ reflexivity | ].
  inversion Hb as [ | ? ? Hc Hb' ]; subst. simpl. rewrite Hc. simpl.
  exact (IH Hb').
Qed.

(** [path.dirname] of a plain name under a folder is the folder. *)
Lemma dirname_child c0 xt b :
  proper_segment (list_ascii_of_string b) ->
  xt <> "" \/ is_slash c0 = false ->
  dirname (String c0 xt +:+ "/" +:+ b) = String c0 xt.
Proof.
  intros (Hne & _ & _ & Hfree) Hx.
  change (String c0 xt +:+ "/" +:+ b) with (String c0 (xt +:+ "/" +:+ b)).
  unfold dirname. rewrite list_ascii_of_string_app.
  change (list_ascii_of_string ("/" +:+ b))
    with (slash :: list_ascii_of_string b).
  rewrite rev_app_distr.
  change (rev (slash :: list_ascii_of_string b))
    with (rev (list_ascii_of_string b) ++ [slash]).
  rewrite <- app_assoc.
  change ([slash] ++ rev (list_ascii_of_string xt))
    with (slash :: rev (list_ascii_of_string xt)).
  assert (Hrev : Forall (fun c => is_slash c = false)
                   (rev (list_ascii_of_string b)))
    by (apply Forall_rev, Hfree).
  destruct (rev (list_ascii_of_string b)) as [ | r0 rb ] eqn:Hrb.
  { apply (f_equal (@rev ascii)) in Hrb. rewrite rev_involutive in Hrb.
    simpl in Hrb. congruence. }
  inversion Hrev as [ | ? ? Hr0 Hrb' ]; subst.
  change ((r0 :: rb) ++ ?l) with (r0 :: (rb ++ l)).
  change (drop_while is_slash (r0 :: ?l))
    with (if is_slash r0 then drop_while is_slash l else r0 :: l).
  rewrite Hr0.
  change (drop_while ?f (r0 :: ?l))
    with (if f r0 then drop_while f l else r0 :: l).
  cbv beta. rewrite Hr0. simpl negb. cbv iota.
  rewrite (drop_while_plain rb _ Hrb').
  destruct (rev (list_ascii_of_string xt)) as [ | x0 xr ] eqn:Hxt.
  - apply (f_equal (@rev ascii)) in Hxt. rewrite rev_involutive in Hxt.
    simpl in Hxt. destruct xt; [ | discriminate ].
    destruct Hx as [ Hx | -> ]; [ congruence | reflexivity ].
  - rewrite <- Hxt, rev_involutive, string_of_list_ascii_of_string.
    reflexivity.
Qed.

(** The folder a plain name was joined to is the parent of the result. *)
Lemma dirname_join_join a b c :
  simple_name b = true -> simple_name c = true ->
  dirname (join (join a b) c) = join a b.
Proof.
  intros Hb Hc. rewrite (join_join_name a b c Hb Hc).
  destruct (join_name a b Hb) as [Habs Hlist].
  pose proof (simple_name_proper b Hb) as Hpb.
  destruct (join_segments_head (rev (list_ascii_of_string b :: stack_of a)))
    as (j0 & jr & Hj & Hj0).
  { simpl. intros Heq. apply app_eq_nil in Heq as [_ Heq]. discriminate. }
  { apply Forall_rev.
    apply (normal_stack_slash_free (negb (is_absolute a))).
    apply normal_stack_cons; [ exact Hpb | apply stack_of_normal ]. }
  rewrite Hj in Hlist.
  destruct (join a b) as [ | c0 xt ] eqn:HF.
  - unfold root_of in Hlist. destruct (is_absolute a); discriminate.
  - apply dirname_child; [ apply simple_name_proper, Hc | ].
    unfold root_of in Hlist. simpl in Hlist.
    destruct (is_absolute a).
    + left. injection Hlist as _ Hxt. destruct xt; discriminate.
    + right. injection Hlist as -> _. exact Hj0.
Qed.

End posix_facts.

Section path_properties.
Context `{Index} `{PathApi}.

(** X24: with the data-folder override set, the three paths depend on
    the value of the override alone: the platform, the home variables and
    the working directory play no part. *)
Theorem paths_under_override proc proc' folder :
  env proc !! USER_FOLDER_ENV_OVERWRITE = Some folder ->
  env proc' !! USER_FOLDER_ENV_OVERWRITE = Some folder ->
  getUserN8nFolderPath proc' = getUserN8nFolderPath proc /\
  getUserSettingsPath proc' = getUserSettingsPath proc /\
  getUserN8nFolderCustomExtensionPath proc'
  = getUserN8nFolderCustomExtensionPath proc.
Proof.
  intros Hproc Hproc'.
  unfold getUserSettingsPath, getUserN8nFolderCustomExtensionPath,
    getUserN8nFolderPath.
  rewrite Hproc, Hproc'. auto.
Qed.

(** X25: without the override, the paths start from the home variable of
    the platform, [USERPROFILE] on [win32] and [HOME] elsewhere, and from
    the working directory only when that variable is unset.  Two processes
    that agree on the platform and on that variable, and on the working
    directory when the variable is unset, have the same home folder and
    the same settings path, whatever else their environments hold. *)
Theorem paths_from_home proc proc' :
  env proc !! USER_FOLDER_ENV_OVERWRITE = None ->
  env proc' !! USER_FOLDER_ENV_OVERWRITE = None ->
  platform proc' = platform proc ->
  env proc' !! (if decide (platform proc = "win32")
                then "USERPROFILE" else "HOME")
  = env proc !! (if decide (platform proc = "win32")
                 then "USERPROFILE" else "HOME") ->
  (env proc !! (if decide (platform proc = "win32")
                then "USERPROFILE" else "HOME") = None ->
   cwd proc' = cwd proc) ->
  getUserHome proc' = getUserHome proc /\
  getUserSettingsPath proc' = getUserSettingsPath proc.
Proof.
  intros Hproc Hproc' Hplat Hvar Hcwd.
  assert (Hhome : getUserHome proc' = getUserHome proc).
  { unfold getUserHome. rewrite Hplat, Hvar.
    destruct (env proc !! (if decide (platform proc = "win32")
                           then "USERPROFILE" else "HOME"))
      as [ home | ]; [ reflexivity | ].
    apply Hcwd. reflexivity. }
  split; [ exact Hhome | ].
  unfold getUserSettingsPath, getUserN8nFolderPath.
  rewrite Hproc, Hproc', Hhome. reflexivity.
Qed.

End path_properties.

Section posix_path_properties.
Context `{Index}.

(** X26: on a POSIX system, when the subfolder, the file name and the
    extensions subdirectory are plain names, the settings file and the
    extensions folder lie directly in the n8n folder: [path.dirname] of
    either path is [getUserN8nFolderPath].  So the folder
    [writeUserSettings] probes and creates for the default path is the n8n
    folder. *)
Theorem settings_path_parent proc :
  simple_name USER_SETTINGS_SUBFOLDER = true ->
  simple_name USER_SETTINGS_FILE_NAME = true ->
  simple_name EXTENSIONS_SUBDIRECTORY = true ->
  @path_dirname posix (@getUserSettingsPath _ posix proc)
  = @getUserN8nFolderPath _ posix proc /\
  @path_dirname posix (@getUserN8nFolderCustomExtensionPath _ posix proc)
  = @getUserN8nFolderPath _ posix proc.
Proof.
  intros Hsub Hfile Hext.
  unfold getUserSettingsPath, getUserN8nFolderCustomExtensionPath,
    getUserN8nFolderPath. simpl path_join. simpl path_dirname.
  split; apply dirname_join_join; assumption.
Qed.

(** X27: on a POSIX system with plain names, the settings path is
    absolute exactly when the folder it starts from, the override or the
    home folder, is; so is the n8n folder. *)
Theorem paths_absolute proc :
  simple_name USER_SETTINGS_SUBFOLDER = true ->
  simple_name USER_SETTINGS_FILE_NAME = true ->
  is_absolute (@getUserN8nFolderPath _ posix proc)
  = is_absolute (default (getUserHome proc)
                   (env proc !! USER_FOLDER_ENV_OVERWRITE)) /\
  is_absolute (@getUserSettingsPath _ posix proc)
  = is_absolute (default (getUserHome proc)
                   (env proc !! USER_FOLDER_ENV_OVERWRITE)).
Proof.
  intros Hsub Hfile.
  unfold getUserSettingsPath, getUserN8nFolderPath. simpl path_join.
  destruct (env proc !! USER_FOLDER_ENV_OVERWRITE) as [ folder | ];
    simpl default.
  - destruct (join_name folder _ Hsub) as [Habs _].
    destruct (join_name (PosixPath.join folder USER_SETTINGS_SUBFOLDER)
                _ Hfile) as [Habs' _].
    rewrite Habs', Habs. auto.
  - destruct (join_name (getUserHome proc) _ Hsub) as [Habs _].
    destruct (join_name
                (PosixPath.join (getUserHome proc) USER_SETTINGS_SUBFOLDER)
                _ Hfile) as [Habs' _].
    rewrite Habs', Habs. auto.
Qed.

(** X28: on a POSIX system with plain names, a home folder or an override
    that is set to the empty string is not replaced by the working
    directory: the n8n folder is then the relative path made of the
    subfolder name alone, and the settings file is the file name under
    it. *)
Theorem paths_from_empty_folder proc :
  simple_name USER_SETTINGS_SUBFOLDER = true ->
  simple_name USER_SETTINGS_FILE_NAME = true ->
  default (getUserHome proc) (env proc !! USER_FOLDER_ENV_OVERWRITE) = "" ->
  @getUserN8nFolderPath _ posix proc = USER_SETTINGS_SUBFOLDER /\
  @getUserSettingsPath _ posix proc
  = USER_SETTINGS_SUBFOLDER +:+ "/" +:+ USER_SETTINGS_FILE_NAME.
Proof.
  intros Hsub Hfile Hempty.
  assert (Hfolder : @getUserN8nFolderPath _ posix proc
                    = PosixPath.join "" USER_SETTINGS_SUBFOLDER).
  { unfold getUserN8nFolderPath. simpl path_join.
    destruct (env proc !! USER_FOLDER_ENV_OVERWRITE); simpl in Hempty;
      rewrite Hempty; reflexivity. }
  assert (Hjoin : PosixPath.join "" USER_SETTINGS_SUBFOLDER
                  = USER_SETTINGS_SUBFOLDER).
  { rewrite <- (string_of_list_ascii_of_string (PosixPath.join "" _)).
    destruct (join_name "" _ Hsub) as [_ ->].
    apply string_of_list_ascii_of_string. }
  split; [ rewrite Hfolder; exact Hjoin | ].
  change (@getUserSettingsPath _ posix proc)
    with (PosixPath.join (@getUserN8nFolderPath _ posix proc)
            USER_SETTINGS_FILE_NAME).
  rewrite Hfolder.
  rewrite (join_join_name "" _ _ Hsub Hfile), Hjoin. reflexivity.
Qed.

End posix_path_properties.

(** ** Merging, from file to file *)

Section related_objects.
Context {V W : Type} (R : V -> W -> Prop).


End related_objects.


Section merge_documents.
Context `{Index} `{PathApi}.




End merge_documents.

(** ** The further properties on the worked examples *)


(** X1 on the empty store. *)
Lemma getUserSettings_missing_file_witness :
  @getUserSettings example_index posix None None example_world
  = (Returned None,
     logged (FsAccess (@resolved example_index posix None example_world))
       example_world) /\
  settingsCache
    (@getUserSettings example_index posix None None example_world).2
  = settingsCache example_world.
Proof.
  apply (@getUserSettings_missing_file example_index posix None None
           example_world).
  - left. reflexivity.
  - vm_compute. reflexivity.
Defined.


(** X3 on the same store. *)
Lemma getUserSettings_read_only_witness :
  disk loaded_example_world = disk stored_example_world /\
  process loaded_example_world = process stored_example_world /\
  entropy_pos loaded_example_world = entropy_pos stored_example_world /\
  console loaded_example_world = console stored_example_world /\
  (fs_log loaded_example_world = fs_log stored_example_world \/
   fs_log loaded_example_world
   = fs_log stored_example_world
     ++ [FsAccess (@resolved example_index posix None stored_example_world)]
   \/
   fs_log loaded_example_world
   = fs_log stored_example_world
     ++ [FsAccess (@resolved example_index posix None stored_example_world);
         FsReadFile
           (@resolved example_index posix None stored_example_world)]) /\
  forall l c, heap stored_example_world !! l = Some c ->
              heap loaded_example_world !! l = Some c.
Proof.
  apply (@getUserSettings_read_only example_index posix None None
           stored_example_world (Returned (Some (VRef 0)))
           loaded_example_world).
  vm_compute. reflexivity.
Defined.

(** X4 on the same store: the caller assigns [b] on the document loaded. *)
Lemma getUserSettings_returns_cached_object_witness :
  settingsCache loaded_example_world = Some (VRef 0) /\
  @getUserSettings example_index posix (Some "/elsewhere") None
    edited_example_world
  = (Returned (Some (VRef 0)), edited_example_world) /\
  get_property (VRef 0) "b" edited_example_world
  = (Returned (Some (VNum 2)), edited_example_world).
Proof.
  apply (@getUserSettings_returns_cached_object example_index posix
           None None stored_example_world (VRef 0) loaded_example_world
           "b" (VNum 2) edited_example_world (Some "/elsewhere") None).
  - vm_compute. reflexivity.
  - vm_compute. reflexivity.
  - discriminate.
Defined.

(** X5 on a store whose settings path is a directory. *)
Lemma getUserSettings_directory_witness :
  @getUserSettings example_index posix None None directory_example_world
  = (Thrown (SystemError "EISDIR" "read"
               (@resolved example_index posix None directory_example_world)),
     logged
       (FsReadFile (@resolved example_index posix None directory_example_world))
       (logged
          (FsAccess
             (@resolved example_index posix None directory_example_world))
          directory_example_world)).
Proof.
  apply (@getUserSettings_directory example_index posix None None
           directory_example_world).
  - left. reflexivity.
  - vm_compute. reflexivity.
Defined.

(** X6 on the store after [{a:1}] was written: [{b:2}] is written over
    it. *)
Lemma writeUserSettings_existing_folder_witness :
  exists w',
    @writeUserSettings example_index posix (Some (VRef 1)) None
      written_example_world = (Returned (VRef 1), w') /\
    disk w'
    = <[@resolved example_index posix None written_example_world :=
          File (JSON.stringify true (JObj [("b", JNum 2)]))]>
        (disk written_example_world) /\
    fs_log w'
    = fs_log written_example_world
      ++ [FsAccess
            (@path_dirname posix
               (@resolved example_index posix None written_example_world));
          FsWriteFile
            (@resolved example_index posix None written_example_world)
            (JSON.stringify true (JObj [("b", JNum 2)]))].
Proof.
  apply (@writeUserSettings_existing_folder example_index posix (VRef 1)
           None written_example_world (JObj [("b", JNum 2)])).
  - vm_compute. reflexivity.
  - vm_compute. reflexivity.
  - vm_compute. discriminate.
Defined.

(** X7 on the store whose settings folder exists. *)
Lemma writeUserSettings_undefined_document_witness :
  VRef 0 = VRef (length (heap stored_example_world)) /\
  heap (@writeUserSettings example_index posix None None
          stored_example_world).2
    !! length (heap stored_example_world) = Some (CObj []) /\
  disk (@writeUserSettings example_index posix None None
          stored_example_world).2
    !! @resolved example_index posix None stored_example_world
  = Some (File "{}") /\
  exists c,
    settingsCache (@writeUserSettings example_index posix None None
                     stored_example_world).2 = Some c /\
    c <> VRef 0 /\
    reify_in (heap (@writeUserSettings example_index posix None None
                      stored_example_world).2) c = Some (JObj []).
Proof.
  apply (@writeUserSettings_undefined_document example_index posix None
           stored_example_world).
  vm_compute. reflexivity.
Defined.


(** X9 on the merge store, for the write of [{a:1}] to the default
    path. *)
Lemma writeUserSettings_disk_frame_witness :
  (forall q,
     q <> @resolved example_index posix None merge_example_world ->
     q <> @path_dirname posix
            (@resolved example_index posix None merge_example_world) ->
     disk written_example_world !! q = disk merge_example_world !! q) /\
  process written_example_world = process merge_example_world /\
  entropy_pos written_example_world = entropy_pos merge_example_world /\
  console written_example_world = console merge_example_world.
Proof.
  exact (@writeUserSettings_disk_frame example_index posix (Some (VRef 0))
           None merge_example_world (Returned (VRef 0))
           written_example_world written_example_run).
Defined.

(** X10 on a store whose one object contains itself. *)
Lemma writeUserSettings_circular_document_witness :
  @writeUserSettings example_index posix (Some (VRef 0)) None
    circular_example_world
  = (Thrown (TypeError "Converting circular structure to JSON"),
     logged
       (FsAccess
          (@path_dirname posix
             (@resolved example_index posix None circular_example_world)))
       circular_example_world).
Proof.
  apply (@writeUserSettings_circular_document example_index posix (VRef 0)
           None circular_example_world).
  - vm_compute. reflexivity.
  - exists Dir. vm_compute. reflexivity.
Defined.


(** X12 on the same store, for the merge of [{b:2}] to the default
    path: the settings given are as before. *)
Lemma addToUserSettings_heap_frame_witness :
  heap (@addToUserSettings example_index posix (VRef 1) None
          cached_example_world).2 !! 1
  = Some (CObj [("b", VNum 2)]).
Proof.
  apply (@addToUserSettings_heap_frame example_index posix (VRef 1) None
           cached_example_world (Some (VRef 0)) cached_example_world
           (@addToUserSettings example_index posix (VRef 1) None
              cached_example_world).1).
  - vm_compute. reflexivity.
  - apply surjective_pairing.
  - vm_compute. reflexivity.
  - discriminate.
Defined.

(** X13 on the empty store: the folder [/home/u/.n8n] is missing under
    [/home/u]. *)
Lemma prepareUserSettings_first_run_witness :
  exists r w',
    @prepareUserSettings example_index posix example_world
    = (Returned r, w') /\
    reify_in (heap w') r
    = Some (JObj [("encryptionKey", JStr (fresh_key example_world))]) /\
    disk w' !! @getUserSettingsPath example_index posix
                  (process example_world)
    = Some (File (JSON.stringify true
                    (JObj [("encryptionKey",
                            JStr (fresh_key example_world))]))) /\
    disk w' !! @path_dirname posix
                  (@getUserSettingsPath example_index posix
                     (process example_world)) = Some Dir /\
    console w'
    = console example_world
      ++ [generated_message
            (@getUserSettingsPath example_index posix
               (process example_world))] /\
    entropy_pos w' = entropy_pos example_world + 24.
Proof.
  apply (@prepareUserSettings_first_run example_index posix example_world).
  - reflexivity.
  - vm_compute. reflexivity.
  - right. split; vm_compute; reflexivity.
Defined.

(** X14 on the empty store. *)
Lemma prepareUserSettings_key_format_witness :
  get_property (VRef 0) "encryptionKey" provisioned_example_world
  = (Returned (Some (VStr (fresh_key example_world))),
     provisioned_example_world) /\
  String.length (fresh_key example_world) = 32 /\
  forall c, c ∈ list_ascii_of_string (fresh_key example_world) ->
            c ∈ list_ascii_of_string base64_alphabet.
Proof.
  apply (@prepareUserSettings_key_format example_index posix example_world
           (VRef 0) provisioned_example_world).
  - unfold heap_wf. by_evaluation.
  - intros v wl Hload. vm_compute in Hload. discriminate Hload.
  - vm_compute. reflexivity.
  - exists 0, [("encryptionKey", VStr "AwoRGB8mLTQ7QklQV15lbHN6gYiPlp2k")].
    split; vm_compute; reflexivity.
Defined.



(** X17 on the empty store. *)
Lemma getEncryptionKey_no_settings_witness :
  @getEncryptionKey example_index posix example_world
  = (Returned None,
     logged (FsAccess (@getUserSettingsPath example_index posix
                         (process example_world))) example_world).
Proof.
  apply (@getEncryptionKey_no_settings example_index posix example_world).
  - vm_compute. reflexivity.
  - reflexivity.
  - vm_compute. reflexivity.
Defined.

(** X18 on the store whose file holds the key [Y]. *)
Lemma getEncryptionKey_persisted_witness :
  exists r w',
    @getEncryptionKey example_index posix keyed_example_world
    = (Returned r, w') /\
    (forall Y, obj_get "encryptionKey" [("encryptionKey", JStr "Y")]
               = Some (JStr Y) -> r = Some (VStr Y)) /\
    (obj_get "encryptionKey" [("encryptionKey", JStr "Y")] = None ->
     r = None) /\
    is_Some (settingsCache w') /\ disk w' = disk keyed_example_world.
Proof.
  apply (@getEncryptionKey_persisted example_index posix keyed_example_world
           (JSON.stringify true (JObj [("encryptionKey", JStr "Y")]))).
  - vm_compute. reflexivity.
  - reflexivity.
  - vm_compute. reflexivity.
  - vm_compute. reflexivity.
  - apply NoDup_singleton.
Defined.

(** X19 on the same store. *)
Lemma getEncryptionKey_read_only_witness :
  disk (@getEncryptionKey example_index posix keyed_example_world).2
  = disk keyed_example_world /\
  writes (fs_log (@getEncryptionKey example_index posix
                    keyed_example_world).2)
  = writes (fs_log keyed_example_world) /\
  entropy_pos (@getEncryptionKey example_index posix keyed_example_world).2
  = entropy_pos keyed_example_world /\
  console (@getEncryptionKey example_index posix keyed_example_world).2
  = console keyed_example_world /\
  process (@getEncryptionKey example_index posix keyed_example_world).2
  = process keyed_example_world.
Proof.
  apply (@getEncryptionKey_read_only example_index posix keyed_example_world
           (@getEncryptionKey example_index posix keyed_example_world).1).
  apply surjective_pairing.
Defined.

(** X20 on the empty store, provisioned. *)
Lemma prepareUserSettings_then_getEncryptionKey_witness :
  exists key,
    get_property (VRef 0) "encryptionKey" provisioned_example_world
    = (Returned (Some key), provisioned_example_world) /\
    @getEncryptionKey example_index posix provisioned_example_world
    = (Returned (Some key), provisioned_example_world).
Proof.
  apply (@prepareUserSettings_then_getEncryptionKey example_index posix
           example_world (VRef 0) provisioned_example_world).
  - unfold heap_wf. by_evaluation.
  - vm_compute. reflexivity.
  - exists 0, [("encryptionKey", VStr "AwoRGB8mLTQ7QklQV15lbHN6gYiPlp2k")].
    split; vm_compute; reflexivity.
  - vm_compute. reflexivity.
Defined.

(** X21 on the store whose file holds [null]. *)
Lemma null_document_throws_witness :
  (exists msg w',
     @getEncryptionKey example_index posix null_example_world
     = (Thrown (TypeError msg), w') /\ disk w' = disk null_example_world) /\
  (exists msg w',
     @prepareUserSettings example_index posix null_example_world
     = (Thrown (TypeError msg), w') /\ disk w' = disk null_example_world).
Proof.
  apply (@null_document_throws example_index posix null_example_world
           "null").
  - vm_compute. reflexivity.
  - reflexivity.
  - vm_compute. reflexivity.
  - vm_compute. reflexivity.
Defined.

(** X22 on the store with [{a:1}] in the cache. *)
Lemma settingsCache_never_cleared_witness :
  (forall p flag,
     is_Some (settingsCache
                (@getUserSettings example_index posix p flag
                   cached_example_world).2)) /\
  (forall s p,
     is_Some (settingsCache
                (@writeUserSettings example_index posix s p
                   cached_example_world).2)) /\
  (forall add p,
     is_Some (settingsCache
                (@addToUserSettings example_index posix add p
                   cached_example_world).2)) /\
  is_Some (settingsCache
             (@prepareUserSettings example_index posix
                cached_example_world).2) /\
  is_Some (settingsCache
             (@getEncryptionKey example_index posix cached_example_world).2).
Proof.
  apply (@settingsCache_never_cleared example_index posix
           cached_example_world).
  exists (VRef 0). reflexivity.
Defined.

(** X23 on the empty store, for the home folder. *)
Lemma disk_never_shrinks_witness :
  (forall p flag,
     is_Some (disk (@getUserSettings example_index posix p flag
                      example_world).2 !! "/home/u")) /\
  (forall s p,
     is_Some (disk (@writeUserSettings example_index posix s p
                      example_world).2 !! "/home/u")) /\
  (forall add p,
     is_Some (disk (@addToUserSettings example_index posix add p
                      example_world).2 !! "/home/u")) /\
  is_Some (disk (@prepareUserSettings example_index posix
                   example_world).2 !! "/home/u") /\
  is_Some (disk (@getEncryptionKey example_index posix
                   example_world).2 !! "/home/u").
Proof.
  apply (@disk_never_shrinks example_index posix example_world "/home/u").
  exists Dir. vm_compute. reflexivity.
Defined.

(** X24 on two processes with the override [/data]. *)
Lemma paths_under_override_witness :
  @getUserN8nFolderPath example_index posix windows_example_process
  = @getUserN8nFolderPath example_index posix override_example_process /\
  @getUserSettingsPath example_index posix windows_example_process
  = @getUserSettingsPath example_index posix override_example_process /\
  @getUserN8nFolderCustomExtensionPath example_index posix
    windows_example_process
  = @getUserN8nFolderCustomExtensionPath example_index posix
      override_example_process.
Proof.
  apply (@paths_under_override example_index posix override_example_process
           windows_example_process "/data");
    vm_compute; reflexivity.
Defined.

(** X25 on two processes with the same [HOME]. *)
Lemma paths_from_home_witness :
  getUserHome other_example_process = getUserHome example_process /\
  @getUserSettingsPath example_index posix other_example_process
  = @getUserSettingsPath example_index posix example_process.
Proof.
  apply (@paths_from_home example_index posix example_process
           other_example_process).
  - vm_compute. reflexivity.
  - vm_compute. reflexivity.
  - reflexivity.
  - vm_compute. reflexivity.
  - vm_compute. discriminate.
Defined.

(** X26 on the example constants. *)
Lemma settings_path_parent_witness :
  @path_dirname posix (@getUserSettingsPath example_index posix
                         example_process)
  = @getUserN8nFolderPath example_index posix example_process /\
  @path_dirname posix (@getUserN8nFolderCustomExtensionPath example_index
                         posix example_process)
  = @getUserN8nFolderPath example_index posix example_process.
Proof.
  apply (@settings_path_parent example_index example_process);
    reflexivity.
Defined.

(** X27 on the example constants. *)
Lemma paths_absolute_witness :
  is_absolute (@getUserN8nFolderPath example_index posix example_process)
  = is_absolute
      (default (getUserHome example_process)
         (env example_process !! @USER_FOLDER_ENV_OVERWRITE example_index)) /\
  is_absolute (@getUserSettingsPath example_index posix example_process)
  = is_absolute
      (default (getUserHome example_process)
         (env example_process !! @USER_FOLDER_ENV_OVERWRITE example_index)).
Proof.
  apply (@paths_absolute example_index example_process); reflexivity.
Defined.

(** X28 on a process whose [HOME] is the empty string. *)
Lemma paths_from_empty_folder_witness :
  @getUserN8nFolderPath example_index posix homeless_example_process
  = ".n8n" /\
  @getUserSettingsPath example_index posix homeless_example_process
  = ".n8n/config".
Proof.
  apply (@paths_from_empty_folder example_index homeless_example_process).
  - reflexivity.
  - reflexivity.
  - vm_compute. reflexivity.
Defined.


